(** * WorkerMutex: a re-entrant mutex over a SharedArrayBuffer

    A shallow embedding of the [WorkerMutex] class of worker-mutex
    (Node.js [worker_threads], [SharedArrayBuffer] + [Atomics]) and of its
    validators, with the properties its specification states.

    The repository carries the class in three revisions:
    - [src/WorkerMutex.ts] as named in the tree: two cells per mutex
      (owner, recursionCount), owner identifier [(threadId | 0) + 1],
      unconditional [Atomics.add]/[Atomics.sub];  module [TwoCell];
    - an intermediate three-cell revision with the same owner identifier
      (unnamed/part_005), which tests the owner before the flag and adds to
      the counter with [Atomics.add];  module [OwnerFirst];
    - the three-cell revision with compare-and-swap loops on the
      recursion counter, the owner identifier [threadId] and the warning of
      the main thread (unnamed/part_004), which is the one the
      specification describes, with [assertUnsignedInteger] of utils;
      module [WorkerMutex].

    Cells of an [Int32Array] are integers in [Z] with the wrap-around of
    [ToInt32] written out.  The memory of the view is shared by every handle
    and every thread, so every operation takes the memory and returns it.
    Whether [new SharedArrayBuffer] gets its memory is up to the host, which
    [createSharedBuffer] takes as an argument.

    A call is embedded twice.  As a function in a state and error monad it
    runs from its first operation to its end with no other thread in
    between; the [while (true)] loops take a bound on their rounds.  As a
    machine that does one [Atomics] call per step the calls of several
    threads interleave: module [Interleaving] for the last revision
    ([call_matches_machine] ties it to the calls), modules [TwoCellThreads]
    and [OwnerFirstThreads] for the other two. *)

From Stdlib Require Import ZArith QArith Lia Bool List.
From Stdlib Require Strings.Byte.
From stdpp Require Import base tactics option list.

Local Open Scope Z_scope.

(** ** JavaScript numbers and 32-bit integers *)

(** A [number] argument.  Finite doubles are rationals; the model admits
    every rational, which only widens the inputs the validators must
    reject. *)
Inductive number : Type :=
| Finite (q : Q)
| NaN
| Infinity
| NegInfinity.

Definition MAX_SAFE_INTEGER : Z := 9007199254740991.

(** A finite value is integral when its denominator divides its numerator. *)
Definition is_integral (q : Q) : bool :=
  Qnum q mod Zpos (Qden q) =? 0.

Definition integer_value (q : Q) : Z :=
  Qnum q / Zpos (Qden q).

(** [Number.isSafeInteger(v)] *)
Definition isSafeInteger (v : number) : bool :=
  match v with
  | Finite q =>
      is_integral q
      && (- MAX_SAFE_INTEGER <=? integer_value q)
      && (integer_value q <=? MAX_SAFE_INTEGER)
  | _ => false
  end.

(** [v <= k], [v < k] and [v > k] for an integer constant [k]; every
    comparison with [NaN] is false. *)
Definition number_le (v : number) (k : Z) : bool :=
  match v with
  | Finite q => Qle_bool q (inject_Z k)
  | NaN => false
  | Infinity => false
  | NegInfinity => true
  end.

Definition number_lt (v : number) (k : Z) : bool :=
  match v with
  | Finite q => Qle_bool q (inject_Z k) && negb (Qeq_bool q (inject_Z k))
  | NaN => false
  | Infinity => false
  | NegInfinity => true
  end.

Definition number_gt (v : number) (k : Z) : bool :=
  match v with
  | Finite q => negb (Qle_bool q (inject_Z k))
  | NaN => false
  | Infinity => true
  | NegInfinity => false
  end.

Definition of_Z (z : Z) : number := Finite (inject_Z z).

(** [ToInt32]: reduction modulo 2^32 into [-2^31, 2^31). *)
Definition ToInt32 (z : Z) : Z :=
  (z + 2147483648) mod 4294967296 - 2147483648.

Definition is_int32 (z : Z) : Prop :=
  -2147483648 <= z <= 2147483647.

(** [x | 0] on an integer-valued number. *)
Definition bitor0 (z : Z) : Z := ToInt32 (Z.lor z 0).

(** ** Errors *)

Inductive ErrorCode : Type :=
| VALUE_MUST_BE_AN_UNSIGNED_INTEGER
| HANDLE_MUST_BE_A_SHARED_ARRAY_BUFFER
| HANDLE_BYTE_LENGTH_IS_NOT_INT32_ALIGNED
| MUTEX_INDEX_OUT_OF_RANGE
| COUNT_MUST_BE_A_POSITIVE_SAFE_INTEGER
| COUNT_MUST_BE_A_POSITIVE_INTEGER
| COUNT_EXCEEDS_MAX_SUPPORTED_VALUE
| MUTEX_IS_NOT_OWNED_BY_CURRENT_THREAD
| MUTEX_RECURSION_COUNT_UNDERFLOW
| MUTEX_RECURSION_COUNT_OVERFLOW.

Inductive Error : Type :=
| WorkerMutexError (code : ErrorCode)
| RangeError.

(** ** Buffers and views *)

Definition BYTES_PER_ELEMENT : Z := 4.

(** What a caller may pass as [options.handle]. *)
Inductive Handle : Type :=
| SharedArrayBuffer (data : list Byte.byte)
| ArrayBuffer (data : list Byte.byte)
| NotABuffer.

Definition byteLength (data : list Byte.byte) : Z := Z.of_nat (length data).

(** [new SharedArrayBuffer(n)]: [n] zero bytes. *)
Definition SharedArrayBuffer_new (n : Z) : Handle :=
  SharedArrayBuffer (replicate (Z.to_nat n) Byte.x00).

Definition byte_value (b : Byte.byte) : Z := Z.of_N (Byte.to_N b).

Definition int32_of_bytes (b0 b1 b2 b3 : Byte.byte) : Z :=
  ToInt32 (byte_value b0 + 256 * byte_value b1
           + 65536 * byte_value b2 + 16777216 * byte_value b3).

(** [new Int32Array(buffer)]: one cell per four bytes. *)
Fixpoint Int32Array_new (data : list Byte.byte) : list Z :=
  match data with
  | b0 :: b1 :: b2 :: b3 :: rest => int32_of_bytes b0 b1 b2 b3 :: Int32Array_new rest
  | _ => []
  end.

(** ** Atomic operations on the shared view *)

(** Everything a call does to the outside: each [Atomics] call with its
    arguments and result, the timers of [lockAsync], the process warning. *)
Inductive Event : Type :=
| ELoad (i v : Z)
| EStore (i v : Z)
| ECompareExchange (i expected replacement old : Z)
| EAdd (i v old : Z)
| ESub (i v old : Z)
| EWait (i v : Z)
| EWaitAsync (i v : Z)
| ENotify (i n : Z)
| ESleep (delay : Z)
| EYield
| EKeepAliveTimer (ms : Z)
| EWarning.

(** The state a call runs in: the cells of the shared view, the static
    [mainThreadWarningShown] of the main thread, and the events so far
    (oldest first). *)
Record World : Type := mkWorld {
  i32 : list Z;
  mainThreadWarningShown : bool;
  events : list Event
}.

(** How a call ends.  [Blocked]: the thread is parked in [Atomics.wait] (or
    the promise of [Atomics.waitAsync] is pending) and only a notify from
    another thread can resume it.  [OutOfFuel]: the loop bound of the model
    was reached. *)
Inductive Completion (A : Type) : Type :=
| Return (a : A)
| Throw (e : Error)
| Blocked
| OutOfFuel.

Arguments Return {A} a.
Arguments Throw {A} e.
Arguments Blocked {A}.
Arguments OutOfFuel {A}.

Definition Exec (A : Type) : Type := World -> Completion A * World.

#[global] Instance Exec_ret : MRet Exec := fun A a w => (Return a, w).

#[global] Instance Exec_bind : MBind Exec := fun A B f m w =>
  match m w with
  | (Return a, w') => f a w'
  | (Throw e, w') => (Throw e, w')
  | (Blocked, w') => (Blocked, w')
  | (OutOfFuel, w') => (OutOfFuel, w')
  end.

Definition throw {A : Type} (e : Error) : Exec A := fun w => (Throw e, w).
Definition block {A : Type} : Exec A := fun w => (Blocked, w).
Definition out_of_fuel {A : Type} : Exec A := fun w => (OutOfFuel, w).

Definition emit (e : Event) : Exec unit := fun w =>
  (Return tt, mkWorld (i32 w) (mainThreadWarningShown w) (events w ++ [e])).

Definition set_cell (i : Z) (v : Z) : Exec unit := fun w =>
  (Return tt, mkWorld (<[Z.to_nat i := v]> (i32 w)) (mainThreadWarningShown w) (events w)).

(** The cell at index [i]; [None] is the [RangeError] of an index outside
    the view. *)
Definition cell (a : list Z) (i : Z) : option Z :=
  if i <? 0 then None else a !! Z.to_nat i.

Definition read_cell (i : Z) : Exec Z := fun w =>
  match cell (i32 w) i with
  | Some v => (Return v, w)
  | None => (Throw RangeError, w)
  end.

Definition Atomics_load (i : Z) : Exec Z :=
  v ← read_cell i; emit (ELoad i v);; mret v.

Definition Atomics_store (i v : Z) : Exec Z :=
  _ ← read_cell i; set_cell i (ToInt32 v);; emit (EStore i v);; mret v.

Definition Atomics_compareExchange (i expected replacement : Z) : Exec Z :=
  old ← read_cell i;
  (if old =? ToInt32 expected then set_cell i (ToInt32 replacement) else mret tt);;
  emit (ECompareExchange i expected replacement old);;
  mret old.

Definition Atomics_add (i v : Z) : Exec Z :=
  old ← read_cell i; set_cell i (ToInt32 (old + v));; emit (EAdd i v old);; mret old.

Definition Atomics_sub (i v : Z) : Exec Z :=
  old ← read_cell i; set_cell i (ToInt32 (old - v));; emit (ESub i v old);; mret old.

(** [Atomics.wait(a, i, v)] without a timeout: returns at once when the cell
    differs from [v]; otherwise the thread sleeps until it is notified. *)
Definition Atomics_wait (i v : Z) : Exec unit :=
  cur ← read_cell i;
  emit (EWait i v);;
  if cur =? ToInt32 v then block else mret tt.

(** [Atomics.waitAsync(a, i, v)]: [false] for the synchronous "not-equal"
    result, [true] when it returns a promise. *)
Definition Atomics_waitAsync (i v : Z) : Exec bool :=
  cur ← read_cell i;
  emit (EWaitAsync i v);;
  mret (cur =? ToInt32 v).

Definition Atomics_notify (i n : Z) : Exec unit :=
  _ ← read_cell i; emit (ENotify i n).

(** [await new Promise(resolve => setTimeout(resolve, delay))] *)
Definition sleep (delay : Z) : Exec unit := emit (ESleep delay).

Definition get_mainThreadWarningShown : Exec bool := fun w =>
  (Return (mainThreadWarningShown w), w).

Definition set_mainThreadWarningShown (b : bool) : Exec unit := fun w =>
  (Return tt, mkWorld (i32 w) b (events w)).

(** ** Allocation *)

(** The host a call runs on, as far as a call depends on it: whether it has
    the memory for a shared buffer of [n] bytes when the buffer is asked
    for.  The engine has a largest length of its own and may get less from
    the system; the code cannot tell beforehand. *)
Record Host : Type := mkHost {
  allocates : Z -> bool
}.

(** [new SharedArrayBuffer(length)] for an integer [length]: a length below
    0 or above [2^53 - 1] is refused with a [RangeError], and so is a length
    the host has no memory for ("Array buffer allocation failed"). *)
Definition SharedArrayBuffer_construct (host : Host) (length : Z) : Completion Handle :=
  if (length <? 0) || (MAX_SAFE_INTEGER <? length) || negb (allocates host length)
  then Throw RangeError
  else Return (SharedArrayBuffer_new length).

(** ** utils: the validators *)

Definition integer_of (v : number) : Z :=
  match v with
  | Finite q => integer_value q
  | _ => 0
  end.

(** [assertUnsignedInteger(value)] *)
Definition assertUnsignedInteger (value : number) : Completion unit :=
  if negb (isSafeInteger value) || number_lt value 0
  then Throw (WorkerMutexError VALUE_MUST_BE_AN_UNSIGNED_INTEGER)
  else Return tt.

(** [WorkerMutexOptions]; [None] is an [index] left out. *)
Record WorkerMutexOptions : Type := mkOptions {
  handle : Handle;
  index : option number
}.

(** ** The class, three cells per mutex, compare-and-swap on the counter *)

Module WorkerMutex.

Definition STRIDE : Z := 3.
Definition LOCK_OFFSET : Z := 0.
Definition OWNER_OFFSET : Z := 1.
Definition COUNT_OFFSET : Z := 2.
Definition MAX_RECURSION_COUNT : Z := 2147483647.
Definition KEEP_ALIVE_TIMEOUT_MS : Z := 2147483647.
Definition BYTES_PER_MUTEX : Z := BYTES_PER_ELEMENT * STRIDE.
Definition MAX_MUTEX_COUNT : Z := MAX_SAFE_INTEGER / BYTES_PER_MUTEX.

(** An instance: the view made by the constructor and the first cell of the
    slot.  The live cells of the view are the [i32] of the [World]. *)
Record t : Type := mkMutex {
  view : list Z;
  base : Z
}.

(** [new WorkerMutex(options)].  After [assertUnsignedInteger] the index is
    a safe integer, and [index * STRIDE + 2 >= view.length] has the same
    truth value in doubles as in integers: rounding is monotone and the
    length of a view is below 2^53. *)
Definition constructor (options : WorkerMutexOptions) : Completion t :=
  let index := default (of_Z 0) (index options) in
  match assertUnsignedInteger index with
  | Return _ =>
      match handle options with
      | SharedArrayBuffer data =>
          if negb (byteLength data mod BYTES_PER_ELEMENT =? 0)
          then Throw (WorkerMutexError HANDLE_BYTE_LENGTH_IS_NOT_INT32_ALIGNED)
          else
            let view := Int32Array_new data in
            let base := integer_of index * STRIDE in
            if number_lt index 0 || (base + (STRIDE - 1) >=? Z.of_nat (length view))
            then Throw (WorkerMutexError MUTEX_INDEX_OUT_OF_RANGE)
            else Return (mkMutex view base)
      | _ => Throw (WorkerMutexError HANDLE_MUST_BE_A_SHARED_ARRAY_BUFFER)
      end
  | Throw e => Throw e
  | Blocked => Blocked
  | OutOfFuel => OutOfFuel
  end.

(** [WorkerMutex.createSharedBuffer(count = 1)]; the product is exact in
    doubles, an accepted count giving a byte length below 2^53. *)
Definition createSharedBuffer (host : Host) (count : option number) : Completion Handle :=
  let count := default (of_Z 1) count in
  if negb (isSafeInteger count) || number_le count 0
  then Throw (WorkerMutexError COUNT_MUST_BE_A_POSITIVE_SAFE_INTEGER)
  else if number_gt count MAX_MUTEX_COUNT
  then Throw (WorkerMutexError COUNT_EXCEEDS_MAX_SUPPORTED_VALUE)
  else SharedArrayBuffer_construct host (BYTES_PER_MUTEX * integer_of count).

Definition index_of (this : t) : Z := base this / STRIDE.
Definition ownerIndex (this : t) : Z := base this + OWNER_OFFSET.
Definition lockIndex (this : t) : Z := base this + LOCK_OFFSET.
Definition countIndex (this : t) : Z := base this + COUNT_OFFSET.

Definition selfId (threadId : Z) : Z := threadId.

(** [awaitWaitAsync(value)]: a keep-alive timer is armed, then the promise
    of [Atomics.waitAsync] is awaited; it settles only on a notify. *)
Definition awaitWaitAsync : Exec unit :=
  emit (EKeepAliveTimer KEEP_ALIVE_TIMEOUT_MS);; block.

(** [incrementRecursionCount(ci)]; [fuel] bounds the retries. *)
Fixpoint incrementRecursionCount (fuel : nat) (ci : Z) : Exec unit :=
  match fuel with
  | O => out_of_fuel
  | S fuel' =>
      count ← Atomics_load ci;
      if count <=? 0
      then throw (WorkerMutexError MUTEX_RECURSION_COUNT_UNDERFLOW)
      else if count >=? MAX_RECURSION_COUNT
      then throw (WorkerMutexError MUTEX_RECURSION_COUNT_OVERFLOW)
      else
        old ← Atomics_compareExchange ci count (count + 1);
        if old =? count then mret tt else incrementRecursionCount fuel' ci
  end.

(** The [while (true)] of [lock()]. *)
Fixpoint lock_loop (fuel : nat) (fi oi ci me : Z) : Exec unit :=
  match fuel with
  | O => out_of_fuel
  | S fuel' =>
      lock ← Atomics_load fi;
      owner ← Atomics_load oi;
      if (lock =? 1) && (owner =? me)
      then incrementRecursionCount (S fuel') ci
      else if lock =? 0
      then
        old ← Atomics_compareExchange fi 0 1;
        if old =? 0
        then Atomics_store oi me;; Atomics_store ci 1;; mret tt
        else lock_loop fuel' fi oi ci me
      else Atomics_wait fi lock;; lock_loop fuel' fi oi ci me
  end.

(** [lock()] *)
Definition lock (threadId : Z) (this : t) (fuel : nat) : Exec unit :=
  let fi := lockIndex this in
  let oi := ownerIndex this in
  let ci := countIndex this in
  let me := selfId threadId in
  shown ← get_mainThreadWarningShown;
  (if (threadId =? 0) && negb shown
   then set_mainThreadWarningShown true;; emit EWarning
   else mret tt);;
  lock_loop fuel fi oi ci me.

Definition next_delay (delay : Z) : Z :=
  if delay <? 8 then delay + 1 else delay.

(** The loop of [lockAsync()] taken when [Atomics.waitAsync] exists. *)
Fixpoint lockAsync_waitAsync_loop (fuel : nat) (fi oi ci me delay : Z) : Exec unit :=
  match fuel with
  | O => out_of_fuel
  | S fuel' =>
      lock ← Atomics_load fi;
      owner ← Atomics_load oi;
      if (lock =? 1) && (owner =? me)
      then incrementRecursionCount (S fuel') ci
      else if lock =? 0
      then
        old ← Atomics_compareExchange fi 0 1;
        if old =? 0
        then Atomics_store oi me;; Atomics_store ci 1;; mret tt
        else sleep delay;;
             lockAsync_waitAsync_loop fuel' fi oi ci me (next_delay delay)
      else
        pending ← Atomics_waitAsync fi lock;
        if pending : bool
        then awaitWaitAsync;; lockAsync_waitAsync_loop fuel' fi oi ci me 0
        else sleep delay;;
             lockAsync_waitAsync_loop fuel' fi oi ci me (next_delay delay)
  end.

(** The polling loop of [lockAsync()]. *)
Fixpoint lockAsync_poll_loop (fuel : nat) (fi oi ci me delay : Z) : Exec unit :=
  match fuel with
  | O => out_of_fuel
  | S fuel' =>
      lock ← Atomics_load fi;
      owner ← Atomics_load oi;
      if (lock =? 1) && (owner =? me)
      then incrementRecursionCount (S fuel') ci
      else if lock =? 0
      then
        old ← Atomics_compareExchange fi 0 1;
        if old =? 0
        then Atomics_store oi me;; Atomics_store ci 1;; mret tt
        else sleep delay;;
             lockAsync_poll_loop fuel' fi oi ci me (next_delay delay)
      else sleep delay;;
           lockAsync_poll_loop fuel' fi oi ci me (next_delay delay)
  end.

(** [lockAsync()]; [hasWaitAsync] is
    [typeof Atomics.waitAsync === 'function'].  A rejection of the promise
    is a [Throw]. *)
Definition lockAsync (hasWaitAsync : bool) (threadId : Z) (this : t) (fuel : nat)
  : Exec unit :=
  let fi := lockIndex this in
  let oi := ownerIndex this in
  let ci := countIndex this in
  let me := selfId threadId in
  if hasWaitAsync
  then lockAsync_waitAsync_loop fuel fi oi ci me 0
  else lockAsync_poll_loop fuel fi oi ci me 0.

(** The [while (true)] of [unlock()]. *)
Fixpoint unlock_loop (fuel : nat) (fi oi ci : Z) : Exec unit :=
  match fuel with
  | O => out_of_fuel
  | S fuel' =>
      count ← Atomics_load ci;
      if count <=? 0
      then throw (WorkerMutexError MUTEX_RECURSION_COUNT_UNDERFLOW)
      else
        let nextCount := count - 1 in
        old ← Atomics_compareExchange ci count nextCount;
        if negb (old =? count)
        then unlock_loop fuel' fi oi ci
        else if nextCount >? 0
        then mret tt
        else
          Atomics_store ci 0;;
          Atomics_store oi 0;;
          Atomics_store fi 0;;
          Atomics_notify fi 1;;
          mret tt
  end.

(** [unlock()] *)
Definition unlock (threadId : Z) (this : t) (fuel : nat) : Exec unit :=
  let fi := lockIndex this in
  let oi := ownerIndex this in
  let ci := countIndex this in
  let me := selfId threadId in
  lock ← Atomics_load fi;
  owner ← Atomics_load oi;
  if negb (lock =? 1) || negb (owner =? me)
  then throw (WorkerMutexError MUTEX_IS_NOT_OWNED_BY_CURRENT_THREAD)
  else unlock_loop fuel fi oi ci.

End WorkerMutex.

(** ** World updates *)

Definition log (e : Event) (w : World) : World :=
  mkWorld (i32 w) (mainThreadWarningShown w) (events w ++ [e]).

Definition put (i v : Z) (w : World) : World :=
  mkWorld (<[Z.to_nat i := v]> (i32 w)) (mainThreadWarningShown w) (events w).

(** ** The view constructed by itself *)

(** [new Int32Array(buffer)] by itself: a byte length that is not a multiple
    of 4 is refused with a [RangeError]. *)
Definition Int32Array_construct (data : list Byte.byte) : Completion (list Z) :=
  if byteLength data mod BYTES_PER_ELEMENT =? 0
  then Return (Int32Array_new data)
  else Throw RangeError.

(** ** The class, two cells per mutex ([src/WorkerMutex.ts]) *)

Module TwoCell.

Definition STRIDE : Z := 2.
Definition OWNER_OFFSET : Z := 0.
Definition COUNT_OFFSET : Z := 1.

Record t : Type := mkMutex {
  view : list Z;
  base : Z
}.

Definition ownerIndex (this : t) : Z := base this + OWNER_OFFSET.
Definition countIndex (this : t) : Z := base this + COUNT_OFFSET.

(** [(threadId | 0) + 1] *)
Definition selfId (threadId : Z) : Z := bitor0 threadId + 1.

(** The [while (true)] of [lock()]. *)
Fixpoint lock_loop (fuel : nat) (oi ci me : Z) : Exec unit :=
  match fuel with
  | O => out_of_fuel
  | S fuel' =>
      owner ← Atomics_load oi;
      if owner =? me
      then Atomics_add ci 1;; mret tt
      else if owner =? 0
      then
        old ← Atomics_compareExchange oi 0 me;
        if old =? 0
        then Atomics_store ci 1;; mret tt
        else lock_loop fuel' oi ci me
      else Atomics_wait oi owner;; lock_loop fuel' oi ci me
  end.

(** [lock()] *)
Definition lock (threadId : Z) (this : t) (fuel : nat) : Exec unit :=
  lock_loop fuel (ownerIndex this) (countIndex this) (selfId threadId).

(** The loop of [lockAsync()] taken when [Atomics.waitAsync] exists.  The
    compare-and-swap runs only when the owner read was 0. *)
Fixpoint lockAsync_waitAsync_loop (fuel : nat) (oi ci me : Z) : Exec unit :=
  match fuel with
  | O => out_of_fuel
  | S fuel' =>
      owner ← Atomics_load oi;
      if owner =? me
      then Atomics_add ci 1;; mret tt
      else
        taken ← (if owner =? 0
                 then old ← Atomics_compareExchange oi 0 me; mret (old =? 0)
                 else mret false);
        if taken : bool
        then Atomics_store ci 1;; mret tt
        else
          pending ← Atomics_waitAsync oi owner;
          (if pending : bool then block else emit EYield);;
          lockAsync_waitAsync_loop fuel' oi ci me
  end.

(** The polling loop of [lockAsync()]. *)
Fixpoint lockAsync_poll_loop (fuel : nat) (oi ci me delay : Z) : Exec unit :=
  match fuel with
  | O => out_of_fuel
  | S fuel' =>
      owner ← Atomics_load oi;
      if owner =? me
      then Atomics_add ci 1;; mret tt
      else
        taken ← (if owner =? 0
                 then old ← Atomics_compareExchange oi 0 me; mret (old =? 0)
                 else mret false);
        if taken : bool
        then Atomics_store ci 1;; mret tt
        else
          sleep delay;;
          lockAsync_poll_loop fuel' oi ci me (if delay <? 8 then delay + 1 else delay)
  end.

(** [lockAsync()]; a rejection of the promise is a [Throw]. *)
Definition lockAsync (hasWaitAsync : bool) (threadId : Z) (this : t) (fuel : nat)
  : Exec unit :=
  let oi := ownerIndex this in
  let ci := countIndex this in
  let me := selfId threadId in
  owner0 ← Atomics_load oi;
  if owner0 =? me
  then Atomics_add ci 1;; mret tt
  else
    taken ← (if owner0 =? 0
             then old ← Atomics_compareExchange oi 0 me; mret (old =? 0)
             else mret false);
    if taken : bool
    then Atomics_store ci 1;; mret tt
    else if hasWaitAsync
    then lockAsync_waitAsync_loop fuel oi ci me
    else lockAsync_poll_loop fuel oi ci me 0.

(** [unlock()] *)
Definition unlock (threadId : Z) (this : t) : Exec unit :=
  let oi := ownerIndex this in
  let ci := countIndex this in
  let me := selfId threadId in
  owner ← Atomics_load oi;
  if negb (owner =? me)
  then throw (WorkerMutexError MUTEX_IS_NOT_OWNED_BY_CURRENT_THREAD)
  else
    prevCount ← Atomics_sub ci 1;
    let newCount := prevCount - 1 in
    if newCount >? 0
    then mret tt
    else Atomics_store ci 0;; Atomics_store oi 0;; Atomics_notify oi 1.

(** [new WorkerMutex(options)].  This revision does not test the byte
    length, so [new Int32Array(handle)] runs on every shared buffer.  As in
    the three-cell class the comparison of the range test has the same truth
    value in doubles as in integers. *)
Definition constructor (options : WorkerMutexOptions) : Completion t :=
  let index := default (of_Z 0) (index options) in
  match assertUnsignedInteger index with
  | Return _ =>
      match handle options with
      | SharedArrayBuffer data =>
          match Int32Array_construct data with
          | Return view =>
              let base := integer_of index * STRIDE in
              if number_lt index 0 || (base + (STRIDE - 1) >=? Z.of_nat (length view))
              then Throw (WorkerMutexError MUTEX_INDEX_OUT_OF_RANGE)
              else Return (mkMutex view base)
          | Throw e => Throw e
          | Blocked => Blocked
          | OutOfFuel => OutOfFuel
          end
      | _ => Throw (WorkerMutexError HANDLE_MUST_BE_A_SHARED_ARRAY_BUFFER)
      end
  | Throw e => Throw e
  | Blocked => Blocked
  | OutOfFuel => OutOfFuel
  end.

(** [WorkerMutex.createSharedBuffer(count = 1)]; the product is exact in
    doubles, its factors being powers of 2. *)
Definition createSharedBuffer (host : Host) (count : option number) : Completion Handle :=
  let count := default (of_Z 1) count in
  if negb (isSafeInteger count) || number_le count 0
  then Throw (WorkerMutexError COUNT_MUST_BE_A_POSITIVE_INTEGER)
  else SharedArrayBuffer_construct host (BYTES_PER_ELEMENT * integer_of count * STRIDE).

Definition index_of (this : t) : Z := base this / STRIDE.

End TwoCell.

(** ** The intermediate three-cell revision *)

Module OwnerFirst.

(** [(threadId | 0) + 1] *)
Definition selfId (threadId : Z) : Z := bitor0 threadId + 1.

(** The constructor, [createSharedBuffer] and the three cell indices of
    this revision are those of the revision above, statement for
    statement. *)
Definition constructor : WorkerMutexOptions -> Completion WorkerMutex.t :=
  WorkerMutex.constructor.

Definition createSharedBuffer : Host -> option number -> Completion Handle :=
  WorkerMutex.createSharedBuffer.

(** The [while (true)] of [lock()].  The owner is read first: a thread that
    finds its identifier adds 1 to the counter with [Atomics.add] and does
    not read the flag. *)
Fixpoint lock_loop (fuel : nat) (fi oi ci me : Z) : Exec unit :=
  match fuel with
  | O => out_of_fuel
  | S fuel' =>
      owner ← Atomics_load oi;
      if owner =? me
      then Atomics_add ci 1;; mret tt
      else
        lock ← Atomics_load fi;
        if lock =? 0
        then
          old ← Atomics_compareExchange fi 0 1;
          if old =? 0
          then Atomics_store oi me;; Atomics_store ci 1;; mret tt
          else lock_loop fuel' fi oi ci me
        else Atomics_wait fi lock;; lock_loop fuel' fi oi ci me
  end.

(** [lock()] *)
Definition lock (threadId : Z) (this : WorkerMutex.t) (fuel : nat) : Exec unit :=
  lock_loop fuel (WorkerMutex.lockIndex this) (WorkerMutex.ownerIndex this)
    (WorkerMutex.countIndex this) (selfId threadId).

(** The loop of [lockAsync()] taken when [Atomics.waitAsync] exists. *)
Fixpoint lockAsync_waitAsync_loop (fuel : nat) (fi oi ci me : Z) : Exec unit :=
  match fuel with
  | O => out_of_fuel
  | S fuel' =>
      owner ← Atomics_load oi;
      if owner =? me
      then Atomics_add ci 1;; mret tt
      else
        lock ← Atomics_load fi;
        if lock =? 0
        then
          old ← Atomics_compareExchange fi 0 1;
          if old =? 0
          then Atomics_store oi me;; Atomics_store ci 1;; mret tt
          else lockAsync_waitAsync_loop fuel' fi oi ci me
        else
          pending ← Atomics_waitAsync fi lock;
          (if pending : bool then block else emit EYield);;
          lockAsync_waitAsync_loop fuel' fi oi ci me
  end.

(** The polling loop of [lockAsync()]. *)
Fixpoint lockAsync_poll_loop (fuel : nat) (fi oi ci me delay : Z) : Exec unit :=
  match fuel with
  | O => out_of_fuel
  | S fuel' =>
      owner ← Atomics_load oi;
      if owner =? me
      then Atomics_add ci 1;; mret tt
      else
        lock ← Atomics_load fi;
        if lock =? 0
        then
          old ← Atomics_compareExchange fi 0 1;
          if old =? 0
          then Atomics_store oi me;; Atomics_store ci 1;; mret tt
          else lockAsync_poll_loop fuel' fi oi ci me delay
        else
          sleep delay;;
          lockAsync_poll_loop fuel' fi oi ci me (if delay <? 8 then delay + 1 else delay)
  end.

(** [lockAsync()]; a rejection of the promise is a [Throw]. *)
Definition lockAsync (hasWaitAsync : bool) (threadId : Z) (this : WorkerMutex.t)
           (fuel : nat) : Exec unit :=
  let fi := WorkerMutex.lockIndex this in
  let oi := WorkerMutex.ownerIndex this in
  let ci := WorkerMutex.countIndex this in
  let me := selfId threadId in
  if hasWaitAsync
  then lockAsync_waitAsync_loop fuel fi oi ci me
  else lockAsync_poll_loop fuel fi oi ci me 0.

(** The [while (true)] of [unlock()]. *)
Fixpoint unlock_loop (fuel : nat) (fi oi ci : Z) : Exec unit :=
  match fuel with
  | O => out_of_fuel
  | S fuel' =>
      count ← Atomics_load ci;
      if count <=? 0
      then throw (WorkerMutexError MUTEX_RECURSION_COUNT_UNDERFLOW)
      else
        let nextCount := count - 1 in
        old ← Atomics_compareExchange ci count nextCount;
        if negb (old =? count)
        then unlock_loop fuel' fi oi ci
        else if nextCount >? 0
        then mret tt
        else
          Atomics_store ci 0;;
          Atomics_store oi 0;;
          Atomics_store fi 0;;
          Atomics_notify fi 1;;
          mret tt
  end.

(** [unlock()]: the owner is tested, the flag is not. *)
Definition unlock (threadId : Z) (this : WorkerMutex.t) (fuel : nat) : Exec unit :=
  let fi := WorkerMutex.lockIndex this in
  let oi := WorkerMutex.ownerIndex this in
  let ci := WorkerMutex.countIndex this in
  let me := selfId threadId in
  owner ← Atomics_load oi;
  if negb (owner =? me)
  then throw (WorkerMutexError MUTEX_IS_NOT_OWNED_BY_CURRENT_THREAD)
  else unlock_loop fuel fi oi ci.

End OwnerFirst.

(** ** Slots, calls and reachable states *)

(** The three cells of a mutex, as a thread reads them. *)
Record Slot : Type := mkSlot {
  flag : Z;
  owner : Z;
  recursionCount : Z
}.

Definition slot (a : list Z) (this : WorkerMutex.t) : option Slot :=
  f ← cell a (WorkerMutex.lockIndex this);
  o ← cell a (WorkerMutex.ownerIndex this);
  c ← cell a (WorkerMutex.countIndex this);
  Some (mkSlot f o c).

Inductive Call : Type :=
| CallLock
| CallLockAsync (hasWaitAsync : bool)
| CallUnlock.

Definition call (c : Call) (threadId : Z) (this : WorkerMutex.t) (fuel : nat) : Exec unit :=
  match c with
  | CallLock => WorkerMutex.lock threadId this fuel
  | CallLockAsync hasWaitAsync => WorkerMutex.lockAsync hasWaitAsync threadId this fuel
  | CallUnlock => WorkerMutex.unlock threadId this fuel
  end.

(** The states of a block between calls: the view of the block as
    allocated, then any call by any thread through any handle constructed
    over the block, however the call ends. *)
Inductive reachable (block : Handle) : World -> Prop :=
| reachable_fresh (data : list Byte.byte) (shown : bool) :
    block = SharedArrayBuffer data ->
    reachable block (mkWorld (Int32Array_new data) shown [])
| reachable_call (w : World) (c : Call) (threadId : Z) (idx : option number)
                 (this : WorkerMutex.t) (fuel : nat) :
    reachable block w ->
    WorkerMutex.constructor (mkOptions block idx) = Return this ->
    reachable block (snd (call c threadId this fuel w)).

(** [n] calls in sequence; the first call that does not return ends it. *)
Fixpoint times (n : nat) (m : Exec unit) : Exec unit :=
  match n with
  | O => mret tt
  | S k => times k m;; m
  end.

Definition is_notify (e : Event) : bool :=
  match e with
  | ENotify _ _ => true
  | _ => false
  end.

Definition notifications (evs : list Event) : nat :=
  length (List.filter is_notify evs).

(** ** The words of the specification about arguments *)

(** The number [v] is the integer [n]. *)
Definition represents (v : number) (n : Z) : Prop :=
  match v with
  | Finite q => Qeq q (inject_Z n)
  | _ => False
  end.

Definition positive_safe_integer (v : number) : Prop :=
  exists n : Z, represents v n /\ 1 <= n <= MAX_SAFE_INTEGER.

Definition non_negative_safe_integer (v : number) : Prop :=
  exists n : Z, represents v n /\ 0 <= n <= MAX_SAFE_INTEGER.

(** The block of [n] zeroed bytes. *)
Definition zeroed (n : Z) : list Byte.byte := replicate (Z.to_nat n) Byte.x00.

(** ** The slot as a state machine *)

(** The cell and value an event writes, if it writes. *)
Definition writes (e : Event) : option (Z * Z) :=
  match e with
  | EStore i v => Some (i, ToInt32 v)
  | ECompareExchange i expected replacement old =>
      if old =? ToInt32 expected then Some (i, ToInt32 replacement) else None
  | EAdd i v old => Some (i, ToInt32 (old + v))
  | ESub i v old => Some (i, ToInt32 (old - v))
  | _ => None
  end.

(** The world after the prologue of [lock()]: the warning of the main
    thread, once. *)
Definition warned (threadId : Z) (w : World) : World :=
  if (threadId =? 0) && negb (mainThreadWarningShown w)
  then log EWarning (mkWorld (i32 w) true (events w))
  else w.

(** What one call by the thread with identifier [me] may do to a slot. *)
Inductive slot_step (me : Z) : Slot -> Slot -> Prop :=
| step_stay (s : Slot) :
    slot_step me s s
| step_acquire (o c : Z) :
    slot_step me (mkSlot 0 o c) (mkSlot 1 (ToInt32 me) 1)
| step_enter (c : Z) :
    0 < c < WorkerMutex.MAX_RECURSION_COUNT ->
    slot_step me (mkSlot 1 me c) (mkSlot 1 me (c + 1))
| step_leave (c : Z) :
    1 < c -> is_int32 c ->
    slot_step me (mkSlot 1 me c) (mkSlot 1 me (c - 1))
| step_release :
    slot_step me (mkSlot 1 me 1) (mkSlot 0 0 0).

(** The invariant of a slot between calls. *)
Definition slot_invariant (s : Slot) : Prop :=
  (flag s = 0 /\ owner s = 0 /\ recursionCount s = 0)
  \/ (flag s = 1 /\ is_int32 (owner s)
      /\ 1 <= recursionCount s <= WorkerMutex.MAX_RECURSION_COUNT).

(** The views [a] and [a'] agree outside the slot of [this]. *)
Definition same_elsewhere (this : WorkerMutex.t) (a a' : list Z) : Prop :=
  length a' = length a
  /\ forall j : Z,
       j <> WorkerMutex.lockIndex this ->
       j <> WorkerMutex.ownerIndex this ->
       j <> WorkerMutex.countIndex this ->
       cell a' j = cell a j.

(** The invariant of a block of [n] mutexes between calls: [n * 3] cells,
    and every slot satisfies [slot_invariant]. *)
Definition block_invariant (n : Z) (a : list Z) : Prop :=
  Z.of_nat (length a) = n * 3
  /\ forall (k : Z) (view : list Z),
       0 <= k < n ->
       exists s : Slot,
         slot a (WorkerMutex.mkMutex view (k * 3)) = Some s /\ slot_invariant s.

(** ** A block of two mutexes, for the examples *)

(** A host that has [bytes] bytes for a buffer and no more. *)
Definition host_with (bytes : Z) : Host := mkHost (fun n => n <=? bytes).

(** A host with 4 GiB for a buffer. *)
Definition example_host : Host := host_with 4294967296.

Definition example_block : Handle := SharedArrayBuffer_new 24.

(** The handle on index 1 of [example_block]. *)
Definition example_mutex : WorkerMutex.t := WorkerMutex.mkMutex (replicate 6 0) 3.

(** The view of [example_block] as allocated. *)
Definition example_world : World := mkWorld (replicate 6 0) false [].

(** Every write of [evs] to cell [i] stores [v]. *)
Definition stores_only (i v : Z) (evs : list Event) : Prop :=
  forall (e : Event) (x : Z), In e evs -> writes e = Some (i, x) -> x = v.

(** An acquisition of the two-cell class: [None] is [lock()], [Some b] is
    [lockAsync()] with [b] telling whether [Atomics.waitAsync] exists. *)
Definition TwoCell_acquire (async : option bool) (threadId : Z) (this : TwoCell.t)
           (fuel : nat) : Exec unit :=
  match async with
  | None => TwoCell.lock threadId this fuel
  | Some hasWaitAsync => TwoCell.lockAsync hasWaitAsync threadId this fuel
  end.

(** [lockAsync()] of the two-cell class resumed after an [await]: the next
    round of the loop it is in, in the memory as the other threads have left
    it.  [hasWaitAsync] tells which loop, [delay] is the delay of the
    polling loop at that round. *)
Definition TwoCell_resume (hasWaitAsync : bool) (threadId : Z) (this : TwoCell.t)
           (delay : Z) (fuel : nat) : Exec unit :=
  if hasWaitAsync
  then TwoCell.lockAsync_waitAsync_loop fuel (TwoCell.ownerIndex this)
         (TwoCell.countIndex this) (TwoCell.selfId threadId)
  else TwoCell.lockAsync_poll_loop fuel (TwoCell.ownerIndex this)
         (TwoCell.countIndex this) (TwoCell.selfId threadId) delay.

(** Index 1 held twice over by thread 7. *)
Definition example_held : World := mkWorld [0; 0; 0; 1; 7; 2] false [].

(** Index 1 held by thread 7 with the counter forced to 0. *)
Definition example_forced_zero : World := mkWorld [0; 0; 0; 1; 7; 0] false [].

(** Index 1 held by thread 7 with the counter forced to [2^31 - 1]. *)
Definition example_forced_max : World := mkWorld [0; 0; 0; 1; 7; 2147483647] false [].

(** Index 1 held once by thread 7. *)
Definition example_held_once : World := mkWorld [0; 0; 0; 1; 7; 1] false [].

(** A handle of the two-cell class on index 0 and its view as allocated. *)
Definition example_two_cell_mutex : TwoCell.t := TwoCell.mkMutex [0; 0] 0.

Definition example_two_cell_world : World := mkWorld [0; 0] false [].

(** The two-cell slot held by the main thread with the counter forced to
    0. *)
Definition example_two_cell_held : World := mkWorld [1; 0] false [].

(** The two-cell slot held by the main thread [2^31 - 1] times over. *)
Definition example_two_cell_full : World := mkWorld [1; 2147483647] false [].

(** An acquisition of the intermediate class: [None] is [lock()], [Some b]
    is [lockAsync()] with [b] telling whether [Atomics.waitAsync] exists. *)
Definition OwnerFirst_acquire (async : option bool) (threadId : Z) (this : WorkerMutex.t)
           (fuel : nat) : Exec unit :=
  match async with
  | None => OwnerFirst.lock threadId this fuel
  | Some hasWaitAsync => OwnerFirst.lockAsync hasWaitAsync threadId this fuel
  end.

(** Index 1 held by the main thread of the intermediate class [2^31 - 1]
    times over. *)
Definition example_owner_first_full : World :=
  mkWorld [0; 0; 0; 1; 1; 2147483647] false [].

(** [example_world] after [lock()] and [lockAsync()] by thread 7 and a
    rejected [unlock()] by thread 8, all on index 1. *)
Definition example_reached : World :=
  snd (call CallUnlock 8 example_mutex 1
         (snd (call (CallLockAsync true) 7 example_mutex 1
                 (snd (call CallLock 7 example_mutex 1 example_world))))).

(** ** Threads running against each other

    The calls of the three-cell class as a machine that does one [Atomics]
    call per step, so that the calls of several threads interleave.  A
    program point names the operation the thread does next; the values in a
    program point are the constants of the source ([lock], [count]).
    [lock()] and [lockAsync()] share their points: they differ in how they
    pause ([Atomics.wait], [Atomics.waitAsync], a timer), and a paused
    thread may resume at any time. *)

Module Interleaving.

Inductive Pc : Type :=
| Idle
| LockLoadFlag
| LockLoadOwner (lock : Z)
| LockCas
| LockStoreOwner
| LockStoreCount
| LockWait (lock : Z)
| IncLoad
| IncCas (count : Z)
| UnlockLoadFlag
| UnlockLoadOwner (lock : Z)
| UnlockLoadCount
| UnlockCas (count : Z)
| UnlockStoreCount
| UnlockStoreOwner
| UnlockStoreFlag
| UnlockNotify.

(** What a step means to the caller: nothing yet, the slot taken once more
    ([lock()] or [lockAsync()] returns), a hold given up (the
    compare-and-swap of [unlock()] that takes 1 off the counter), the return
    of the [unlock()] that released the slot, or an error. *)
Inductive Label : Type :=
| Tau
| Acquired
| Released
| Returned
| Threw (code : ErrorCode).

Definition set_flag (v : Z) (s : Slot) : Slot := mkSlot v (owner s) (recursionCount s).
Definition set_owner (v : Z) (s : Slot) : Slot := mkSlot (flag s) v (recursionCount s).
Definition set_count (v : Z) (s : Slot) : Slot := mkSlot (flag s) (owner s) v.

(** The step of a thread with identifier [me] that is inside a call. *)
Definition next (me : Z) (p : Pc) (s : Slot) : Pc * Slot * Label :=
  match p with
  | Idle => (Idle, s, Tau)
  | LockLoadFlag => (LockLoadOwner (flag s), s, Tau)
  | LockLoadOwner lock =>
      (if (lock =? 1) && (owner s =? me) then IncLoad
       else if lock =? 0 then LockCas
       else LockWait lock, s, Tau)
  | LockCas =>
      if flag s =? ToInt32 0
      then (LockStoreOwner, set_flag (ToInt32 1) s, Tau)
      else (LockLoadFlag, s, Tau)
  | LockStoreOwner => (LockStoreCount, set_owner (ToInt32 me) s, Tau)
  | LockStoreCount => (Idle, set_count (ToInt32 1) s, Acquired)
  | LockWait lock => (LockLoadFlag, s, Tau)
  | IncLoad =>
      if recursionCount s <=? 0
      then (Idle, s, Threw MUTEX_RECURSION_COUNT_UNDERFLOW)
      else if recursionCount s >=? WorkerMutex.MAX_RECURSION_COUNT
      then (Idle, s, Threw MUTEX_RECURSION_COUNT_OVERFLOW)
      else (IncCas (recursionCount s), s, Tau)
  | IncCas count =>
      if recursionCount s =? ToInt32 count
      then (Idle, set_count (ToInt32 (count + 1)) s, Acquired)
      else (IncLoad, s, Tau)
  | UnlockLoadFlag => (UnlockLoadOwner (flag s), s, Tau)
  | UnlockLoadOwner lock =>
      if negb (lock =? 1) || negb (owner s =? me)
      then (Idle, s, Threw MUTEX_IS_NOT_OWNED_BY_CURRENT_THREAD)
      else (UnlockLoadCount, s, Tau)
  | UnlockLoadCount =>
      if recursionCount s <=? 0
      then (Idle, s, Threw MUTEX_RECURSION_COUNT_UNDERFLOW)
      else (UnlockCas (recursionCount s), s, Tau)
  | UnlockCas count =>
      if negb (recursionCount s =? ToInt32 count)
      then (UnlockLoadCount, s, Tau)
      else if count - 1 >? 0
      then (Idle, set_count (ToInt32 (count - 1)) s, Released)
      else (UnlockStoreCount, set_count (ToInt32 (count - 1)) s, Released)
  | UnlockStoreCount => (UnlockStoreOwner, set_count (ToInt32 0) s, Tau)
  | UnlockStoreOwner => (UnlockStoreFlag, set_owner (ToInt32 0) s, Tau)
  | UnlockStoreFlag => (UnlockNotify, set_flag (ToInt32 0) s, Tau)
  | UnlockNotify => (Idle, s, Returned)
  end.

(** A thread outside a call may call [lock()] or [lockAsync()], or
    [unlock()]; inside a call it does the next operation. *)
Inductive thread_step (me : Z) : Pc -> Slot -> Label -> Pc -> Slot -> Prop :=
| call_lock (s : Slot) :
    thread_step me Idle s Tau LockLoadFlag s
| call_unlock (s : Slot) :
    thread_step me Idle s Tau UnlockLoadFlag s
| call_next (p p' : Pc) (s s' : Slot) (l : Label) :
    p <> Idle -> next me p s = (p', s', l) -> thread_step me p s l p' s'.

(** The slot, the program point of every thread, and for every thread the
    number of holds it has taken and not given up.  [held] is a ghost: no
    step reads it. *)
Record Config : Type := mkConfig {
  cells : Slot;
  pcs : nat -> Pc;
  held : nat -> Z
}.

Definition update {A : Type} (f : nat -> A) (i : nat) (a : A) : nat -> A :=
  fun j => if Nat.eqb j i then a else f j.

Definition account (l : Label) (n : Z) : Z :=
  match l with
  | Acquired => n + 1
  | Released => n - 1
  | _ => n
  end.

(** One step of one thread; [ident i] is the identifier of thread [i]. *)
Inductive step (ident : nat -> Z) : Config -> nat -> Label -> Config -> Prop :=
| step_thread (c : Config) (i : nat) (l : Label) (p' : Pc) (s' : Slot) :
    thread_step (ident i) (pcs c i) (cells c) l p' s' ->
    step ident c i l
      (mkConfig s' (update (pcs c) i p') (update (held c) i (account l (held c i)))).

Definition initial : Config := mkConfig (mkSlot 0 0 0) (fun _ => Idle) (fun _ => 0).

(** The configurations of all interleavings. *)
Inductive reaches (ident : nat -> Z) : Config -> Prop :=
| reaches_initial : reaches ident initial
| reaches_step (c c' : Config) (i : nat) (l : Label) :
    reaches ident c -> step ident c i l c' -> reaches ident c'.

(** The points between the compare-and-swap that takes or gives up the slot
    and the last store that goes with it. *)
Definition in_sequence (p : Pc) : bool :=
  match p with
  | LockStoreOwner | LockStoreCount
  | UnlockStoreCount | UnlockStoreOwner | UnlockStoreFlag => true
  | _ => false
  end.

(** What a program point knows of the slot. *)
Definition point_invariant (p : Pc) (s : Slot) : Prop :=
  match p with
  | IncCas count => 0 < count < WorkerMutex.MAX_RECURSION_COUNT
  | UnlockCas count => 0 < count <= WorkerMutex.MAX_RECURSION_COUNT
  | LockStoreOwner | LockStoreCount | UnlockStoreCount | UnlockStoreOwner =>
      flag s = 1 /\ recursionCount s = 0
  | UnlockStoreFlag => flag s = 1 /\ owner s = 0 /\ recursionCount s = 0
  | _ => True
  end.

(** The slot while no thread is inside a sequence. *)
Definition settled (s : Slot) : Prop :=
  (flag s = 0 /\ owner s = 0 /\ recursionCount s = 0)
  \/ (flag s = 1 /\ 1 <= recursionCount s <= WorkerMutex.MAX_RECURSION_COUNT).

Definition invariant (c : Config) : Prop :=
  (forall i : nat, point_invariant (pcs c i) (cells c))
  /\ (forall i j : nat,
        in_sequence (pcs c i) = true -> in_sequence (pcs c j) = true -> i = j)
  /\ ((exists i : nat, in_sequence (pcs c i) = true) \/ settled (cells c)).

(** [n] threads other than the main thread: their identifiers are
    distinct, above 0 and 32-bit. *)
Definition worker_identifiers (n : nat) (ident : nat -> Z) : Prop :=
  (forall i j : nat, (i < n)%nat -> (j < n)%nat -> ident i = ident j -> i = j)
  /\ forall i : nat, (i < n)%nat -> 0 < ident i <= 2147483647.

(** The configurations of the interleavings in which only the first [n]
    threads run. *)
Inductive reaches_among (ident : nat -> Z) (n : nat) : Config -> Prop :=
| among_initial : reaches_among ident n initial
| among_step (c c' : Config) (i : nat) (l : Label) :
    reaches_among ident n c -> (i < n)%nat -> step ident c i l c' ->
    reaches_among ident n c'.

(** The points a thread is at after its test [lock === 1 && owner === me]
    has passed. *)
Definition past_owner_test (p : Pc) : bool :=
  match p with
  | IncLoad | IncCas _ | UnlockLoadCount | UnlockCas _ => true
  | _ => false
  end.

(** The points at which the owner cell names a thread that holds nothing:
    the owner is stored before the counter in [lock()] and cleared after
    the counter in [unlock()]. *)
Definition owner_written (p : Pc) : bool :=
  match p with
  | LockStoreCount | UnlockStoreCount | UnlockStoreOwner => true
  | _ => false
  end.

(** What the program point of a thread says of the number [h] of its holds:
    a holder has read [flag = 1], is not on the way to take the flag, and
    the counter value it is about to swap is its number of holds. *)
Definition holder_point (p : Pc) (h : Z) : Prop :=
  match p with
  | LockLoadOwner lock | UnlockLoadOwner lock => 0 < h -> lock = 1
  | LockCas | LockWait _ | LockStoreOwner | LockStoreCount
  | UnlockStoreCount | UnlockStoreOwner | UnlockStoreFlag | UnlockNotify => h = 0
  | IncCas count | UnlockCas count => count = h
  | _ => True
  end.

(** How the holds of the first [n] threads show in the slot. *)
Definition ownership (ident : nat -> Z) (n : nat) (c : Config) : Prop :=
  (forall i : nat, 0 <= held c i)
  /\ (forall i : nat, (n <= i)%nat -> held c i = 0)
  /\ (forall i : nat,
        (i < n)%nat -> 0 < held c i ->
        flag (cells c) = 1 /\ owner (cells c) = ident i
        /\ recursionCount (cells c) = held c i)
  /\ (forall i : nat,
        (i < n)%nat -> held c i = 0 -> owner (cells c) = ident i ->
        owner_written (pcs c i) = true)
  /\ (forall i : nat, (i < n)%nat -> past_owner_test (pcs c i) = true -> 0 < held c i)
  /\ (forall i : nat, (i < n)%nat -> pcs c i = LockStoreCount -> owner (cells c) = ident i)
  /\ (forall i : nat, (i < n)%nat -> holder_point (pcs c i) (held c i)).

(** A move of a schedule: the thread that steps, and the call it starts
    if it is outside a call. *)
Inductive Choice : Type :=
| ChooseLock
| ChooseUnlock.

Definition perform (ident : nat -> Z) (c : Config) (move : nat * Choice) : Config :=
  let '(i, choice) := move in
  match pcs c i with
  | Idle =>
      mkConfig (cells c)
        (update (pcs c) i
           (match choice with
            | ChooseLock => LockLoadFlag
            | ChooseUnlock => UnlockLoadFlag
            end))
        (update (held c) i (account Tau (held c i)))
  | p =>
      let '(p', s', l) := next (ident i) p (cells c) in
      mkConfig s' (update (pcs c) i p') (update (held c) i (account l (held c i)))
  end.

(** The configuration a schedule leads to. *)
Definition schedule (ident : nat -> Z) (moves : list (nat * Choice)) : Config :=
  fold_left (perform ident) moves initial.

(** Thread 0 is the main thread, with [threadId] 0; thread [i] is a worker
    with [threadId] [i]. *)
Definition main_and_workers (i : nat) : Z := Z.of_nat i.

(** Worker 1 wins the compare-and-swap on the flag; the main thread reads
    [flag = 1] and [owner = 0], its own identifier; the worker stores owner
    and counter and returns; the main thread increments the counter and
    returns. *)
Definition main_thread_race : list (nat * Choice) :=
  [(1%nat, ChooseLock); (1%nat, ChooseLock); (1%nat, ChooseLock); (1%nat, ChooseLock);
   (0%nat, ChooseLock); (0%nat, ChooseLock); (0%nat, ChooseLock);
   (1%nat, ChooseLock); (1%nat, ChooseLock);
   (0%nat, ChooseLock); (0%nat, ChooseLock)].

(** Workers only: thread [i] has [threadId] [i + 1]. *)
Definition workers (i : nat) : Z := Z.of_nat i + 1.

(** Worker 0 calls [lock()] and runs it to its end. *)
Definition worker_holds : list (nat * Choice) :=
  [(0%nat, ChooseLock); (0%nat, ChooseLock); (0%nat, ChooseLock); (0%nat, ChooseLock);
   (0%nat, ChooseLock); (0%nat, ChooseLock)].

(** Worker 0 calls [unlock()] on the slot as allocated and reads the flag. *)
Definition unlock_unheld : list (nat * Choice) :=
  [(0%nat, ChooseUnlock); (0%nat, ChooseUnlock)].

(** Worker 1 wins the compare-and-swap on the flag; the main thread reads
    [flag = 1] and [owner = 0], its own identifier, and goes on to read the
    counter. *)
Definition main_thread_underflow : list (nat * Choice) :=
  [(1%nat, ChooseLock); (1%nat, ChooseLock); (1%nat, ChooseLock); (1%nat, ChooseLock);
   (0%nat, ChooseLock); (0%nat, ChooseLock); (0%nat, ChooseLock)].

(** Worker 0 calls [lock()] and wins the compare-and-swap on the flag; it
    has not yet stored owner and counter. *)
Definition worker_past_cas : list (nat * Choice) :=
  [(0%nat, ChooseLock); (0%nat, ChooseLock); (0%nat, ChooseLock); (0%nat, ChooseLock)].

(** Worker 0 wins the compare-and-swap on the flag; worker 1 reads
    [flag = 1] and waits; worker 0 stores owner and counter and returns;
    worker 1 is woken and is about to read the flag again. *)
Definition workers_contend : list (nat * Choice) :=
  [(0%nat, ChooseLock); (0%nat, ChooseLock); (0%nat, ChooseLock); (0%nat, ChooseLock);
   (1%nat, ChooseLock); (1%nat, ChooseLock); (1%nat, ChooseLock);
   (0%nat, ChooseLock); (0%nat, ChooseLock);
   (1%nat, ChooseLock)].

(** [n] steps of one thread with no other thread running. *)
Fixpoint solo (me : Z) (n : nat) (p : Pc) (s : Slot) : Pc * Slot :=
  match n with
  | O => (p, s)
  | S k => let '(p', s', _) := next me p s in solo me k p' s'
  end.

End Interleaving.

(** ** The warning of the main thread *)

Definition is_warning (e : Event) : bool :=
  match e with
  | EWarning => true
  | _ => false
  end.

Definition warnings (evs : list Event) : nat :=
  length (List.filter is_warning evs).

(** A computation that emits no warning and leaves
    [mainThreadWarningShown] as it is. *)
Definition quiet {A : Type} (m : Exec A) : Prop :=
  forall w : World,
    mainThreadWarningShown (snd (m w)) = mainThreadWarningShown w
    /\ exists evs : list Event,
         events (snd (m w)) = events w ++ evs /\ warnings evs = 0%nat.

(** The world after the events [evs]. *)
Definition logs (evs : list Event) (w : World) : World :=
  mkWorld (i32 w) (mainThreadWarningShown w) (events w ++ evs).

(** ** Threads running against each other in the two-cell class

    [lock()], [lockAsync()] and [unlock()] of [src/WorkerMutex.ts] as a
    machine that does one [Atomics] call per step.  [lock()] and
    [lockAsync()] share their points, as in the three-cell machine: after a
    lost compare-and-swap and after a wait the thread reads the owner
    again. *)

Module TwoCellThreads.

Import Interleaving.

(** The two cells of a mutex. *)
Record Pair : Type := mkPair {
  owner_cell : Z;
  count_cell : Z
}.

Inductive Pc : Type :=
| Idle
| LockLoadOwner
| LockAdd
| LockCas
| LockStoreCount
| LockWait (owner : Z)
| UnlockLoadOwner
| UnlockSub
| UnlockStoreCount
| UnlockStoreOwner
| UnlockNotify.

(** The step of a thread with identifier [me] that is inside a call. *)
Definition next (me : Z) (p : Pc) (s : Pair) : Pc * Pair * Label :=
  match p with
  | Idle => (Idle, s, Tau)
  | LockLoadOwner =>
      (if owner_cell s =? me then LockAdd
       else if owner_cell s =? 0 then LockCas
       else LockWait (owner_cell s), s, Tau)
  | LockAdd => (Idle, mkPair (owner_cell s) (ToInt32 (count_cell s + 1)), Acquired)
  | LockCas =>
      if owner_cell s =? ToInt32 0
      then (LockStoreCount, mkPair (ToInt32 me) (count_cell s), Tau)
      else (LockLoadOwner, s, Tau)
  | LockStoreCount => (Idle, mkPair (owner_cell s) (ToInt32 1), Acquired)
  | LockWait owner => (LockLoadOwner, s, Tau)
  | UnlockLoadOwner =>
      if negb (owner_cell s =? me)
      then (Idle, s, Threw MUTEX_IS_NOT_OWNED_BY_CURRENT_THREAD)
      else (UnlockSub, s, Tau)
  | UnlockSub =>
      (if count_cell s - 1 >? 0 then Idle else UnlockStoreCount,
       mkPair (owner_cell s) (ToInt32 (count_cell s - 1)), Released)
  | UnlockStoreCount => (UnlockStoreOwner, mkPair (owner_cell s) (ToInt32 0), Tau)
  | UnlockStoreOwner => (UnlockNotify, mkPair (ToInt32 0) (count_cell s), Tau)
  | UnlockNotify => (Idle, s, Returned)
  end.

Inductive thread_step (me : Z) : Pc -> Pair -> Label -> Pc -> Pair -> Prop :=
| call_lock (s : Pair) :
    thread_step me Idle s Tau LockLoadOwner s
| call_unlock (s : Pair) :
    thread_step me Idle s Tau UnlockLoadOwner s
| call_next (p p' : Pc) (s s' : Pair) (l : Label) :
    p <> Idle -> next me p s = (p', s', l) -> thread_step me p s l p' s'.

(** The two cells, the program point of every thread, and its holds (a
    ghost). *)
Record Config : Type := mkConfig {
  cells : Pair;
  pcs : nat -> Pc;
  held : nat -> Z
}.

(** One step of one thread; the identifier of thread [i] is
    [selfId (threadId i)]. *)
Inductive step (threadId : nat -> Z) : Config -> nat -> Label -> Config -> Prop :=
| step_thread (c : Config) (i : nat) (l : Label) (p' : Pc) (s' : Pair) :
    thread_step (TwoCell.selfId (threadId i)) (pcs c i) (cells c) l p' s' ->
    step threadId c i l
      (mkConfig s' (update (pcs c) i p') (update (held c) i (account l (held c i)))).

Definition initial : Config := mkConfig (mkPair 0 0) (fun _ => Idle) (fun _ => 0).

(** The configurations of the interleavings of the first [n] threads in
    which no thread takes more than [2^31 - 1] holds. *)
Inductive reaches (threadId : nat -> Z) (n : nat) : Config -> Prop :=
| reaches_initial : reaches threadId n initial
| reaches_step (c c' : Config) (i : nat) (l : Label) :
    reaches threadId n c -> (i < n)%nat -> step threadId c i l c' ->
    held c' i <= 2147483647 ->
    reaches threadId n c'.

(** [n] threads, the main thread among them or not: their [threadId]s are
    distinct and from 0 to [2^31 - 2]. *)
Definition thread_identifiers (n : nat) (threadId : nat -> Z) : Prop :=
  (forall i j : nat, (i < n)%nat -> (j < n)%nat -> threadId i = threadId j -> i = j)
  /\ forall i : nat, (i < n)%nat -> 0 <= threadId i < 2147483647.

(** The points at which the owner cell names a thread that holds nothing:
    between the compare-and-swap of [lock()] and its store of the counter,
    and between the [Atomics.sub] of the last [unlock()] and its store of
    the owner. *)
Definition owner_written (p : Pc) : bool :=
  match p with
  | LockStoreCount | UnlockStoreCount | UnlockStoreOwner => true
  | _ => false
  end.

(** What the program point of a thread says of the number [h] of its
    holds. *)
Definition holder_point (p : Pc) (h : Z) : Prop :=
  match p with
  | LockAdd | UnlockSub => 0 < h
  | LockCas | LockWait _ | LockStoreCount
  | UnlockStoreCount | UnlockStoreOwner | UnlockNotify => h = 0
  | _ => True
  end.

(** How the holds of the first [n] threads show in the two cells. *)
Definition ownership (threadId : nat -> Z) (n : nat) (c : Config) : Prop :=
  (forall i : nat, 0 <= held c i <= 2147483647)
  /\ (forall i : nat, (n <= i)%nat -> held c i = 0)
  /\ (forall i : nat,
        (i < n)%nat -> 0 < held c i ->
        owner_cell (cells c) = TwoCell.selfId (threadId i)
        /\ count_cell (cells c) = held c i)
  /\ (forall i : nat,
        (i < n)%nat -> held c i = 0 ->
        owner_cell (cells c) = TwoCell.selfId (threadId i) ->
        owner_written (pcs c i) = true)
  /\ (forall i : nat, (i < n)%nat -> holder_point (pcs c i) (held c i))
  /\ (forall i : nat,
        (i < n)%nat -> owner_written (pcs c i) = true ->
        owner_cell (cells c) = TwoCell.selfId (threadId i)).

(** A schedule run from [c]: every move is a step of one of the first [n]
    threads; [None] when a move is of another thread or takes a thread
    beyond [2^31 - 1] holds. *)
Definition perform (threadId : nat -> Z) (c : Config) (move : nat * Choice) : Config :=
  let '(i, choice) := move in
  match pcs c i with
  | Idle =>
      mkConfig (cells c)
        (update (pcs c) i
           (match choice with
            | ChooseLock => LockLoadOwner
            | ChooseUnlock => UnlockLoadOwner
            end))
        (update (held c) i (account Tau (held c i)))
  | p =>
      let '(p', s', l) := next (TwoCell.selfId (threadId i)) p (cells c) in
      mkConfig s' (update (pcs c) i p') (update (held c) i (account l (held c i)))
  end.

Fixpoint run (threadId : nat -> Z) (n : nat) (moves : list (nat * Choice)) (c : Config)
  : option Config :=
  match moves with
  | [] => Some c
  | move :: rest =>
      let c' := perform threadId c move in
      if (fst move <? n)%nat && (held c' (fst move) <=? 2147483647)
      then run threadId n rest c'
      else None
  end.

(** The configuration a schedule leads to. *)
Definition schedule (threadId : nat -> Z) (moves : list (nat * Choice)) : Config :=
  fold_left (perform threadId) moves initial.

(** Thread 0 is the main thread, with [threadId] 0; thread [i] is a worker
    with [threadId] [i]. *)
Definition main_and_workers (i : nat) : Z := Z.of_nat i.

(** The main thread calls [lock()] and runs it to its end. *)
Definition main_holds : list (nat * Choice) :=
  [(0%nat, ChooseLock); (0%nat, ChooseLock); (0%nat, ChooseLock); (0%nat, ChooseLock)].

End TwoCellThreads.

(** ** Threads running against each other in the intermediate class

    [lock()], [lockAsync()] and [unlock()] of the intermediate three-cell
    class as a machine that does one [Atomics] call per step. *)

Module OwnerFirstThreads.

Import Interleaving.

Inductive Pc : Type :=
| Idle
| LockLoadOwner
| LockAdd
| LockLoadFlag
| LockCas
| LockStoreOwner
| LockStoreCount
| LockWait (lock : Z)
| UnlockLoadOwner
| UnlockLoadCount
| UnlockCas (count : Z)
| UnlockStoreCount
| UnlockStoreOwner
| UnlockStoreFlag
| UnlockNotify.

(** The step of a thread with identifier [me] that is inside a call. *)
Definition next (me : Z) (p : Pc) (s : Slot) : Pc * Slot * Label :=
  match p with
  | Idle => (Idle, s, Tau)
  | LockLoadOwner => (if owner s =? me then LockAdd else LockLoadFlag, s, Tau)
  | LockAdd => (Idle, set_count (ToInt32 (recursionCount s + 1)) s, Acquired)
  | LockLoadFlag => (if flag s =? 0 then LockCas else LockWait (flag s), s, Tau)
  | LockCas =>
      if flag s =? ToInt32 0
      then (LockStoreOwner, set_flag (ToInt32 1) s, Tau)
      else (LockLoadOwner, s, Tau)
  | LockStoreOwner => (LockStoreCount, set_owner (ToInt32 me) s, Tau)
  | LockStoreCount => (Idle, set_count (ToInt32 1) s, Acquired)
  | LockWait lock => (LockLoadOwner, s, Tau)
  | UnlockLoadOwner =>
      if negb (owner s =? me)
      then (Idle, s, Threw MUTEX_IS_NOT_OWNED_BY_CURRENT_THREAD)
      else (UnlockLoadCount, s, Tau)
  | UnlockLoadCount =>
      if recursionCount s <=? 0
      then (Idle, s, Threw MUTEX_RECURSION_COUNT_UNDERFLOW)
      else (UnlockCas (recursionCount s), s, Tau)
  | UnlockCas count =>
      if negb (recursionCount s =? ToInt32 count)
      then (UnlockLoadCount, s, Tau)
      else if count - 1 >? 0
      then (Idle, set_count (ToInt32 (count - 1)) s, Released)
      else (UnlockStoreCount, set_count (ToInt32 (count - 1)) s, Released)
  | UnlockStoreCount => (UnlockStoreOwner, set_count (ToInt32 0) s, Tau)
  | UnlockStoreOwner => (UnlockStoreFlag, set_owner (ToInt32 0) s, Tau)
  | UnlockStoreFlag => (UnlockNotify, set_flag (ToInt32 0) s, Tau)
  | UnlockNotify => (Idle, s, Returned)
  end.

Inductive thread_step (me : Z) : Pc -> Slot -> Label -> Pc -> Slot -> Prop :=
| call_lock (s : Slot) :
    thread_step me Idle s Tau LockLoadOwner s
| call_unlock (s : Slot) :
    thread_step me Idle s Tau UnlockLoadOwner s
| call_next (p p' : Pc) (s s' : Slot) (l : Label) :
    p <> Idle -> next me p s = (p', s', l) -> thread_step me p s l p' s'.

(** The slot, the program point of every thread, and its holds (a ghost). *)
Record Config : Type := mkConfig {
  cells : Slot;
  pcs : nat -> Pc;
  held : nat -> Z
}.

(** One step of one thread; the identifier of thread [i] is
    [selfId (threadId i)]. *)
Inductive step (threadId : nat -> Z) : Config -> nat -> Label -> Config -> Prop :=
| step_thread (c : Config) (i : nat) (l : Label) (p' : Pc) (s' : Slot) :
    thread_step (OwnerFirst.selfId (threadId i)) (pcs c i) (cells c) l p' s' ->
    step threadId c i l
      (mkConfig s' (update (pcs c) i p') (update (held c) i (account l (held c i)))).

Definition initial : Config := mkConfig (mkSlot 0 0 0) (fun _ => Idle) (fun _ => 0).

(** The configurations of the interleavings of the first [n] threads in
    which no thread takes more than [2^31 - 1] holds. *)
Inductive reaches (threadId : nat -> Z) (n : nat) : Config -> Prop :=
| reaches_initial : reaches threadId n initial
| reaches_step (c c' : Config) (i : nat) (l : Label) :
    reaches threadId n c -> (i < n)%nat -> step threadId c i l c' ->
    held c' i <= 2147483647 ->
    reaches threadId n c'.

(** The points between the compare-and-swap that takes or gives up the slot
    and the last store that goes with it. *)
Definition in_sequence (p : Pc) : bool :=
  match p with
  | LockStoreOwner | LockStoreCount
  | UnlockStoreCount | UnlockStoreOwner | UnlockStoreFlag => true
  | _ => false
  end.

(** The points at which the owner cell names a thread that holds
    nothing. *)
Definition owner_written (p : Pc) : bool :=
  match p with
  | LockStoreCount | UnlockStoreCount | UnlockStoreOwner => true
  | _ => false
  end.

(** What the program point of a thread with identifier [me] and [h] holds
    says of the slot. *)
Definition point (me : Z) (p : Pc) (h : Z) (s : Slot) : Prop :=
  match p with
  | LockAdd | UnlockLoadCount => 0 < h
  | UnlockCas count => 0 < h /\ count = h
  | LockLoadFlag | LockCas | LockWait _ | UnlockNotify => h = 0
  | LockStoreOwner | UnlockStoreFlag => h = 0 /\ flag s = 1 /\ owner s = 0
  | LockStoreCount | UnlockStoreCount | UnlockStoreOwner =>
      h = 0 /\ flag s = 1 /\ owner s = me
  | _ => True
  end.

(** How the holds of the first [n] threads show in the slot. *)
Definition ownership (threadId : nat -> Z) (n : nat) (c : Config) : Prop :=
  (forall i : nat, 0 <= held c i <= 2147483647)
  /\ (forall i : nat, (n <= i)%nat -> held c i = 0)
  /\ (flag (cells c) = 0 -> owner (cells c) = 0)
  /\ (forall i : nat,
        (i < n)%nat -> 0 < held c i ->
        flag (cells c) = 1 /\ owner (cells c) = OwnerFirst.selfId (threadId i)
        /\ recursionCount (cells c) = held c i)
  /\ (forall i : nat,
        (i < n)%nat -> held c i = 0 ->
        owner (cells c) = OwnerFirst.selfId (threadId i) ->
        owner_written (pcs c i) = true)
  /\ (forall i : nat,
        (i < n)%nat ->
        point (OwnerFirst.selfId (threadId i)) (pcs c i) (held c i) (cells c))
  /\ (forall i j : nat,
        (i < n)%nat -> (j < n)%nat ->
        in_sequence (pcs c i) = true -> in_sequence (pcs c j) = true -> i = j).

(** [n] threads, the main thread among them or not: their [threadId]s are
    distinct and from 0 to [2^31 - 2]. *)
Definition thread_identifiers (n : nat) (threadId : nat -> Z) : Prop :=
  (forall i j : nat, (i < n)%nat -> (j < n)%nat -> threadId i = threadId j -> i = j)
  /\ forall i : nat, (i < n)%nat -> 0 <= threadId i < 2147483647.

Definition perform (threadId : nat -> Z) (c : Config) (move : nat * Choice) : Config :=
  let '(i, choice) := move in
  match pcs c i with
  | Idle =>
      mkConfig (cells c)
        (update (pcs c) i
           (match choice with
            | ChooseLock => LockLoadOwner
            | ChooseUnlock => UnlockLoadOwner
            end))
        (update (held c) i (account Tau (held c i)))
  | p =>
      let '(p', s', l) := next (OwnerFirst.selfId (threadId i)) p (cells c) in
      mkConfig s' (update (pcs c) i p') (update (held c) i (account l (held c i)))
  end.

(** A schedule run from [c]: every move is a step of one of the first [n]
    threads; [None] when a move is of another thread or takes a thread
    beyond [2^31 - 1] holds. *)
Fixpoint run (threadId : nat -> Z) (n : nat) (moves : list (nat * Choice)) (c : Config)
  : option Config :=
  match moves with
  | [] => Some c
  | move :: rest =>
      let c' := perform threadId c move in
      if (fst move <? n)%nat && (held c' (fst move) <=? 2147483647)
      then run threadId n rest c'
      else None
  end.

(** The configuration a schedule leads to. *)
Definition schedule (threadId : nat -> Z) (moves : list (nat * Choice)) : Config :=
  fold_left (perform threadId) moves initial.

(** Thread 0 is the main thread, with [threadId] 0; thread [i] is a worker
    with [threadId] [i]. *)
Definition main_and_workers (i : nat) : Z := Z.of_nat i.

(** The schedule that breaks the exclusion of the later revision: worker 1
    wins the compare-and-swap on the flag, the main thread runs [lock()] as
    far as it gets, the worker stores owner and counter. *)
Definition main_thread_race : list (nat * Choice) :=
  [(1%nat, ChooseLock); (1%nat, ChooseLock); (1%nat, ChooseLock); (1%nat, ChooseLock);
   (0%nat, ChooseLock); (0%nat, ChooseLock); (0%nat, ChooseLock);
   (1%nat, ChooseLock); (1%nat, ChooseLock);
   (0%nat, ChooseLock); (0%nat, ChooseLock)].

End OwnerFirstThreads.

(** * Properties *)

(** ** Running the atomic operations *)

Lemma bind_Return {A B : Type} (m : Exec A) (f : A -> Exec B) (w w' : World) (a : A) :
  m w = (Return a, w') -> (m ≫= f) w = f a w'.
Proof. intros H. unfold mbind, Exec_bind. now rewrite H. Qed.

Lemma bind_mret {A B : Type} (m : Exec A) (g : A -> B) (w w' : World) (a : A) :
  m w = (Return a, w') -> (m ≫= (fun x => mret (g x))) w = (Return (g a), w').
Proof. intros H. unfold mbind, Exec_bind. now rewrite H. Qed.

Lemma bind_Blocked {A B : Type} (m : Exec A) (f : A -> Exec B) (w w' : World) :
  m w = (Blocked, w') -> (m ≫= f) w = (Blocked, w').
Proof. intros H. unfold mbind, Exec_bind. now rewrite H. Qed.

Lemma cell_Some_range (a : list Z) (i v : Z) :
  cell a i = Some v -> 0 <= i < Z.of_nat (length a).
Proof.
  unfold cell. destruct (Z.ltb_spec i 0) as [Hneg | Hpos]; [discriminate |].
  intros Hl. apply lookup_lt_Some in Hl. lia.
Qed.

Lemma cell_insert_eq (a : list Z) (i v0 v : Z) :
  cell a i = Some v0 -> cell (<[Z.to_nat i := v]> a) i = Some v.
Proof.
  intros H. pose proof (cell_Some_range _ _ _ H) as Hr.
  unfold cell. destruct (Z.ltb_spec i 0) as [Hneg | _]; [lia |].
  apply list_lookup_insert_eq. lia.
Qed.

Lemma cell_insert_ne (a : list Z) (i j v : Z) :
  0 <= i -> i <> j -> cell (<[Z.to_nat i := v]> a) j = cell a j.
Proof.
  intros Hi Hne. unfold cell.
  destruct (Z.ltb_spec j 0) as [Hneg | Hpos]; [reflexivity |].
  apply list_lookup_insert_ne. lia.
Qed.

Lemma cell_replicate_zero (n : nat) (i : Z) :
  0 <= i < Z.of_nat n -> cell (replicate n 0) i = Some 0.
Proof.
  intros [Hlo Hhi]. unfold cell.
  destruct (Z.ltb_spec i 0) as [Hneg | _]; [lia |].
  apply lookup_replicate_2. lia.
Qed.

Lemma ToInt32_id (z : Z) : is_int32 z -> ToInt32 z = z.
Proof.
  unfold is_int32, ToInt32. intros H.
  rewrite Z.mod_small by lia. lia.
Qed.

Lemma ToInt32_range (z : Z) : is_int32 (ToInt32 z).
Proof.
  unfold is_int32, ToInt32.
  pose proof (Z.mod_pos_bound (z + 2147483648) 4294967296 ltac:(lia)). lia.
Qed.

Lemma Atomics_load_run (i v : Z) (w : World) :
  cell (i32 w) i = Some v ->
  Atomics_load i w = (Return v, log (ELoad i v) w).
Proof.
  intros H. unfold Atomics_load, read_cell, emit, mbind, Exec_bind, mret, Exec_ret.
  now rewrite H.
Qed.

Lemma Atomics_store_run (i v0 v : Z) (w : World) :
  cell (i32 w) i = Some v0 ->
  Atomics_store i v w = (Return v, log (EStore i v) (put i (ToInt32 v) w)).
Proof.
  intros H.
  unfold Atomics_store, read_cell, set_cell, emit, mbind, Exec_bind, mret, Exec_ret.
  now rewrite H.
Qed.

Lemma Atomics_compareExchange_hit (i expected replacement : Z) (w : World) :
  cell (i32 w) i = Some (ToInt32 expected) ->
  Atomics_compareExchange i expected replacement w =
  (Return (ToInt32 expected),
   log (ECompareExchange i expected replacement (ToInt32 expected))
       (put i (ToInt32 replacement) w)).
Proof.
  intros H.
  unfold Atomics_compareExchange, read_cell, set_cell, emit, mbind, Exec_bind,
    mret, Exec_ret.
  rewrite H, Z.eqb_refl. reflexivity.
Qed.

Lemma Atomics_add_run (i v old : Z) (w : World) :
  cell (i32 w) i = Some old ->
  Atomics_add i v w = (Return old, log (EAdd i v old) (put i (ToInt32 (old + v)) w)).
Proof.
  intros H. unfold Atomics_add, read_cell, set_cell, emit, mbind, Exec_bind, mret, Exec_ret.
  now rewrite H.
Qed.

Lemma Atomics_sub_run (i v old : Z) (w : World) :
  cell (i32 w) i = Some old ->
  Atomics_sub i v w = (Return old, log (ESub i v old) (put i (ToInt32 (old - v)) w)).
Proof.
  intros H. unfold Atomics_sub, read_cell, set_cell, emit, mbind, Exec_bind, mret, Exec_ret.
  now rewrite H.
Qed.

Lemma Atomics_notify_run (i n v : Z) (w : World) :
  cell (i32 w) i = Some v ->
  Atomics_notify i n w = (Return tt, log (ENotify i n) w).
Proof.
  intros H. unfold Atomics_notify, read_cell, emit, mbind, Exec_bind.
  now rewrite H.
Qed.

Lemma Atomics_wait_blocks (i v : Z) (w : World) :
  cell (i32 w) i = Some (ToInt32 v) ->
  Atomics_wait i v w = (Blocked, log (EWait i v) w).
Proof.
  intros H. unfold Atomics_wait, read_cell, emit, block, mbind, Exec_bind.
  rewrite H, Z.eqb_refl. reflexivity.
Qed.

Lemma Atomics_wait_returns (i v cur : Z) (w : World) :
  cell (i32 w) i = Some cur -> cur <> ToInt32 v ->
  Atomics_wait i v w = (Return tt, log (EWait i v) w).
Proof.
  intros H Hne. unfold Atomics_wait, read_cell, emit, block, mbind, Exec_bind.
  rewrite H. destruct (Z.eqb_spec cur (ToInt32 v)); [contradiction | reflexivity].
Qed.

Lemma Atomics_waitAsync_not_equal (i v cur : Z) (w : World) :
  cell (i32 w) i = Some cur -> cur <> ToInt32 v ->
  Atomics_waitAsync i v w = (Return false, log (EWaitAsync i v) w).
Proof.
  intros H Hne.
  unfold Atomics_waitAsync, read_cell, emit, mbind, Exec_bind, mret, Exec_ret.
  rewrite H. destruct (Z.eqb_spec cur (ToInt32 v)); [contradiction | reflexivity].
Qed.

Lemma notifications_app (l k : list Event) :
  notifications (l ++ k) = (notifications l + notifications k)%nat.
Proof. unfold notifications. now rewrite List.filter_app, length_app. Qed.

Lemma Atomics_waitAsync_pending (i v : Z) (w : World) :
  cell (i32 w) i = Some (ToInt32 v) ->
  Atomics_waitAsync i v w = (Return true, log (EWaitAsync i v) w).
Proof.
  intros H. unfold Atomics_waitAsync, read_cell, emit, mbind, Exec_bind, mret, Exec_ret.
  rewrite H, Z.eqb_refl. reflexivity.
Qed.

(** ** Numbers *)

Lemma integral_decompose (q : Q) :
  is_integral q = true -> Qnum q = integer_value q * Zpos (Qden q).
Proof.
  unfold is_integral, integer_value. intros H.
  apply Z.eqb_eq in H.
  pose proof (Z.div_mod (Qnum q) (Zpos (Qden q)) ltac:(lia)) as Hdm.
  rewrite H in Hdm. lia.
Qed.

Lemma represents_iff (q : Q) (n : Z) :
  Qeq q (inject_Z n) <-> is_integral q = true /\ integer_value q = n.
Proof.
  unfold Qeq, inject_Z. cbn [Qnum Qden]. split.
  - intros H. rewrite Z.mul_1_r in H.
    unfold is_integral, integer_value. rewrite H.
    rewrite Z.mod_mul, Z.div_mul by lia. split; [reflexivity | reflexivity].
  - intros [Hi Hv]. rewrite (integral_decompose q Hi), Hv. lia.
Qed.

Lemma Qle_bool_integral (q : Q) (k : Z) :
  is_integral q = true ->
  Qle_bool q (inject_Z k) = (integer_value q <=? k).
Proof.
  intros Hi. unfold Qle_bool, inject_Z. cbn [Qnum Qden].
  rewrite (integral_decompose q Hi).
  destruct (Z.leb_spec (integer_value q) k) as [Hle | Hgt].
  - apply Z.leb_le. nia.
  - apply Z.leb_gt. nia.
Qed.

Lemma Qeq_bool_integral (q : Q) (k : Z) :
  is_integral q = true ->
  Qeq_bool q (inject_Z k) = (integer_value q =? k).
Proof.
  intros Hi. unfold Qeq_bool, inject_Z. cbn [Qnum Qden].
  rewrite (integral_decompose q Hi).
  destruct (Z.eqb_spec (integer_value q) k) as [Heq | Hne].
  - apply Z.eqb_eq. nia.
  - apply Z.eqb_neq. nia.
Qed.

Lemma isSafeInteger_iff (v : number) :
  isSafeInteger v = true <->
  exists n : Z, represents v n /\ - MAX_SAFE_INTEGER <= n <= MAX_SAFE_INTEGER.
Proof.
  destruct v as [q | | |]; cbn [isSafeInteger represents].
  - rewrite !andb_true_iff, !Z.leb_le. split.
    + intros [[Hi Hlo] Hhi]. exists (integer_value q). split; [| lia].
      apply represents_iff. auto.
    + intros (n & Hr & Hn). apply represents_iff in Hr as [Hi Hv]. subst n.
      repeat split; [assumption | lia | lia].
  - split; [discriminate | intros (n & [] & _)].
  - split; [discriminate | intros (n & [] & _)].
  - split; [discriminate | intros (n & [] & _)].
Qed.

Lemma represents_integer_of (v : number) (n : Z) :
  represents v n -> integer_of v = n.
Proof.
  destruct v as [q | | |]; cbn [represents integer_of]; try contradiction.
  intros H. now apply represents_iff in H.
Qed.

Lemma represents_unique (v : number) (n m : Z) :
  represents v n -> represents v m -> n = m.
Proof.
  intros Hn Hm. apply represents_integer_of in Hn, Hm. congruence.
Qed.

Lemma represents_of_Z (n : Z) : represents (of_Z n) n.
Proof. cbn. reflexivity. Qed.

Lemma number_le_represents (v : number) (n k : Z) :
  represents v n -> number_le v k = (n <=? k).
Proof.
  destruct v as [q | | |]; cbn [represents number_le]; try contradiction.
  intros H. apply represents_iff in H as [Hi Hv]. subst n.
  now apply Qle_bool_integral.
Qed.

Lemma number_lt_represents (v : number) (n k : Z) :
  represents v n -> number_lt v k = (n <? k).
Proof.
  destruct v as [q | | |]; cbn [represents number_lt]; try contradiction.
  intros H. apply represents_iff in H as [Hi Hv]. subst n.
  rewrite Qle_bool_integral, Qeq_bool_integral by assumption.
  destruct (Z.leb_spec (integer_value q) k), (Z.eqb_spec (integer_value q) k),
    (Z.ltb_spec (integer_value q) k); cbn; lia || reflexivity.
Qed.

Lemma number_gt_represents (v : number) (n k : Z) :
  represents v n -> number_gt v k = (k <? n).
Proof.
  destruct v as [q | | |]; cbn [represents number_gt]; try contradiction.
  intros H. apply represents_iff in H as [Hi Hv]. subst n.
  rewrite Qle_bool_integral by assumption.
  destruct (Z.leb_spec (integer_value q) k), (Z.ltb_spec k (integer_value q));
    cbn; lia || reflexivity.
Qed.

(** ** Buffers *)

Lemma Int32Array_new_zeroed (k : nat) :
  Int32Array_new (replicate (4 * k) Byte.x00) = replicate k 0.
Proof.
  induction k as [| k IH]; [reflexivity |].
  replace (4 * S k)%nat with (S (S (S (S (4 * k))))) by lia.
  cbn [replicate Int32Array_new]. rewrite IH. reflexivity.
Qed.

Lemma Int32Array_new_length_aux (n : nat) (data : list Byte.byte) :
  (length data < n)%nat ->
  length (Int32Array_new data) = (length data / 4)%nat.
Proof.
  revert data. induction n as [| n IH]; intros data Hn; [lia |].
  destruct data as [| b0 [| b1 [| b2 [| b3 rest]]]]; try reflexivity.
  cbn [Int32Array_new length]. rewrite IH by (cbn [length] in Hn; lia).
  replace (S (S (S (S (length rest))))) with (1 * 4 + length rest)%nat by lia.
  rewrite Nat.div_add_l by lia. lia.
Qed.

Lemma Int32Array_new_length (data : list Byte.byte) :
  Z.of_nat (length (Int32Array_new data)) = byteLength data / BYTES_PER_ELEMENT.
Proof.
  rewrite (Int32Array_new_length_aux (S (length data))) by lia.
  unfold byteLength, BYTES_PER_ELEMENT.
  rewrite Nat2Z.inj_div. reflexivity.
Qed.

Lemma byteLength_zeroed (n : Z) : 0 <= n -> byteLength (zeroed n) = n.
Proof.
  intros Hn. unfold byteLength, zeroed. rewrite length_replicate. lia.
Qed.

(** ** Allocation: [createSharedBuffer] *)

Lemma MAX_MUTEX_COUNT_value :
  WorkerMutex.MAX_MUTEX_COUNT = 750599937895082.
Proof. reflexivity. Qed.

(** The multiplication of [createSharedBuffer] is exact: an accepted count
    gives a byte length that is a safe integer. *)
Lemma byte_size_is_safe (n : Z) :
  1 <= n <= WorkerMutex.MAX_MUTEX_COUNT ->
  0 < WorkerMutex.BYTES_PER_MUTEX * n <= MAX_SAFE_INTEGER.
Proof.
  rewrite MAX_MUTEX_COUNT_value.
  unfold WorkerMutex.BYTES_PER_MUTEX, BYTES_PER_ELEMENT, WorkerMutex.STRIDE,
    MAX_SAFE_INTEGER. lia.
Qed.

Lemma createSharedBuffer_rejects_unsafe (host : Host) (count : option number) :
  ~ positive_safe_integer (default (of_Z 1) count) ->
  WorkerMutex.createSharedBuffer host count =
  Throw (WorkerMutexError COUNT_MUST_BE_A_POSITIVE_SAFE_INTEGER).
Proof.
  intros Hnot. unfold WorkerMutex.createSharedBuffer.
  set (given := default (of_Z 1) count) in *.
  destruct (isSafeInteger given) eqn:Hsafe; [| reflexivity].
  apply isSafeInteger_iff in Hsafe as (n & Hr & Hn).
  rewrite (number_le_represents given n 0 Hr). cbn [negb orb].
  destruct (Z.leb_spec n 0) as [Hle | Hgt]; [reflexivity |].
  exfalso. apply Hnot. exists n. split; [assumption | lia].
Qed.

(** The allocation of a length the checks of the language accept is up to
    the host. *)
Lemma SharedArrayBuffer_construct_safe (host : Host) (length : Z) :
  0 <= length <= MAX_SAFE_INTEGER ->
  SharedArrayBuffer_construct host length =
  if allocates host length
  then Return (SharedArrayBuffer (zeroed length))
  else Throw RangeError.
Proof.
  intros Hlen. unfold SharedArrayBuffer_construct.
  destruct (Z.ltb_spec length 0) as [Hneg | _]; [lia |].
  destruct (Z.ltb_spec MAX_SAFE_INTEGER length) as [Hbig | _]; [lia |].
  cbn [orb]. now destruct (allocates host length).
Qed.

Lemma createSharedBuffer_accepts_safe (host : Host) (count : option number) (n : Z) :
  represents (default (of_Z 1) count) n ->
  1 <= n <= MAX_SAFE_INTEGER ->
  WorkerMutex.createSharedBuffer host count =
  if WorkerMutex.MAX_MUTEX_COUNT <? n
  then Throw (WorkerMutexError COUNT_EXCEEDS_MAX_SUPPORTED_VALUE)
  else if allocates host (WorkerMutex.BYTES_PER_MUTEX * n)
  then Return (SharedArrayBuffer (zeroed (WorkerMutex.BYTES_PER_MUTEX * n)))
  else Throw RangeError.
Proof.
  intros Hr Hn. unfold WorkerMutex.createSharedBuffer.
  set (given := default (of_Z 1) count) in *.
  assert (Hsafe : isSafeInteger given = true).
  { apply isSafeInteger_iff. exists n. split; [assumption | lia]. }
  rewrite Hsafe, (number_le_represents given n 0 Hr).
  rewrite (number_gt_represents given n _ Hr), (represents_integer_of given n Hr).
  destruct (Z.leb_spec n 0) as [Hle | _]; [lia |]. cbn [negb orb].
  destruct (Z.ltb_spec WorkerMutex.MAX_MUTEX_COUNT n) as [Hbig | Hsmall]; [reflexivity |].
  destruct (Z.gtb_spec n WorkerMutex.MAX_MUTEX_COUNT) as [Hgt | _]; [lia |].
  apply SharedArrayBuffer_construct_safe.
  pose proof (byte_size_is_safe n ltac:(lia)). lia.
Qed.

Lemma createSharedBuffer_Return_inv (host : Host) (count : option number) (block : Handle) :
  WorkerMutex.createSharedBuffer host count = Return block ->
  exists n : Z,
    represents (default (of_Z 1) count) n
    /\ 1 <= n <= WorkerMutex.MAX_MUTEX_COUNT
    /\ block = SharedArrayBuffer (zeroed (WorkerMutex.BYTES_PER_MUTEX * n)).
Proof.
  intros Hret.
  destruct (isSafeInteger (default (of_Z 1) count)) eqn:Hsafe.
  - apply isSafeInteger_iff in Hsafe as (n & Hr & Hn).
    destruct (Z.le_gt_cases n 0) as [Hle | Hpos].
    + rewrite createSharedBuffer_rejects_unsafe in Hret; [discriminate |].
      intros (m & Hm & Hrange).
      pose proof (represents_unique _ _ _ Hr Hm). lia.
    + rewrite (createSharedBuffer_accepts_safe host count n Hr) in Hret by lia.
      destruct (Z.ltb_spec WorkerMutex.MAX_MUTEX_COUNT n) as [Hbig | Hsmall];
        [discriminate |].
      destruct (allocates host (WorkerMutex.BYTES_PER_MUTEX * n)); [| discriminate].
      injection Hret as <-. exists n. repeat split; try assumption; lia.
  - unfold WorkerMutex.createSharedBuffer in Hret. rewrite Hsafe in Hret. discriminate.
Qed.

Lemma view_of_zeroed (n : Z) :
  0 <= n ->
  Int32Array_new (zeroed (WorkerMutex.BYTES_PER_MUTEX * n)) =
  replicate (Z.to_nat (n * WorkerMutex.STRIDE)) 0.
Proof.
  intros Hn. unfold zeroed.
  replace (Z.to_nat (WorkerMutex.BYTES_PER_MUTEX * n))
    with (4 * Z.to_nat (n * WorkerMutex.STRIDE))%nat.
  - apply Int32Array_new_zeroed.
  - unfold WorkerMutex.BYTES_PER_MUTEX, BYTES_PER_ELEMENT, WorkerMutex.STRIDE. lia.
Qed.

(** C7, as the code has it.  [createSharedBuffer(count)] throws
    COUNT_MUST_BE_A_POSITIVE_SAFE_INTEGER when [count] is not a positive safe
    integer and COUNT_EXCEEDS_MAX_SUPPORTED_VALUE when it is one above
    [floor(MAX_SAFE_INTEGER / bytes per mutex)].  Every other count goes to
    the allocation of [count * 3 * 4] bytes: the call returns the zeroed
    block when the host has the memory and ends in the [RangeError] of
    [new SharedArrayBuffer] when it has not.  The checks run in this order;
    a left-out count is 1. *)
Theorem createSharedBuffer_validation (host : Host) (count : option number) :
  let given := default (of_Z 1) count in
  let limit := MAX_SAFE_INTEGER / (BYTES_PER_ELEMENT * 3) in
  (~ positive_safe_integer given ->
   WorkerMutex.createSharedBuffer host count =
   Throw (WorkerMutexError COUNT_MUST_BE_A_POSITIVE_SAFE_INTEGER))
  /\ (forall n : Z,
        represents given n -> 1 <= n <= MAX_SAFE_INTEGER -> limit < n ->
        WorkerMutex.createSharedBuffer host count =
        Throw (WorkerMutexError COUNT_EXCEEDS_MAX_SUPPORTED_VALUE))
  /\ (forall n : Z,
        represents given n -> 1 <= n <= limit ->
        WorkerMutex.createSharedBuffer host count =
        if allocates host (n * 3 * 4)
        then Return (SharedArrayBuffer (zeroed (n * 3 * 4)))
        else Throw RangeError).
Proof.
  intros given limit. split; [| split].
  - apply createSharedBuffer_rejects_unsafe.
  - intros n Hr Hn Hbig.
    rewrite (createSharedBuffer_accepts_safe host count n Hr Hn).
    change WorkerMutex.MAX_MUTEX_COUNT with limit.
    destruct (Z.ltb_spec limit n); [reflexivity | lia].
  - intros n Hr Hn.
    assert (Hsafe : 1 <= n <= MAX_SAFE_INTEGER).
    { subst limit. unfold MAX_SAFE_INTEGER, BYTES_PER_ELEMENT in *.
      change (9007199254740991 / (4 * 3)) with 750599937895082 in Hn. lia. }
    rewrite (createSharedBuffer_accepts_safe host count n Hr Hsafe).
    change WorkerMutex.MAX_MUTEX_COUNT with limit.
    destruct (Z.ltb_spec limit n); [lia |].
    replace (WorkerMutex.BYTES_PER_MUTEX * n) with (n * 3 * 4); [reflexivity |].
    unfold WorkerMutex.BYTES_PER_MUTEX, BYTES_PER_ELEMENT, WorkerMutex.STRIDE. lia.
Qed.

Lemma not_positive_safe_integer_zero : ~ positive_safe_integer (of_Z 0).
Proof.
  intros (n & Hr & Hn).
  pose proof (represents_unique _ _ _ Hr (represents_of_Z 0)). lia.
Qed.

Lemma not_positive_safe_integer_fraction : ~ positive_safe_integer (Finite (6 # 5)).
Proof.
  intros (n & Hr & Hn). cbn in Hr. apply represents_iff in Hr as [Hi _].
  discriminate Hi.
Qed.

Lemma createSharedBuffer_validation_witness :
  WorkerMutex.createSharedBuffer example_host (Some (of_Z 0)) =
  Throw (WorkerMutexError COUNT_MUST_BE_A_POSITIVE_SAFE_INTEGER)
  /\ WorkerMutex.createSharedBuffer example_host (Some (Finite (6 # 5))) =
     Throw (WorkerMutexError COUNT_MUST_BE_A_POSITIVE_SAFE_INTEGER)
  /\ WorkerMutex.createSharedBuffer example_host (Some (of_Z MAX_SAFE_INTEGER)) =
     Throw (WorkerMutexError COUNT_EXCEEDS_MAX_SUPPORTED_VALUE)
  /\ WorkerMutex.createSharedBuffer example_host (Some (of_Z 4)) =
     Return (SharedArrayBuffer (zeroed 48))
  /\ WorkerMutex.createSharedBuffer example_host (Some (of_Z 750599937895082)) =
     Throw RangeError.
Proof.
  split; [| split; [| split; [| split]]].
  - apply (createSharedBuffer_validation example_host (Some (of_Z 0))).
    exact not_positive_safe_integer_zero.
  - apply (createSharedBuffer_validation example_host (Some (Finite (6 # 5)))).
    exact not_positive_safe_integer_fraction.
  - apply (proj1 (proj2 (createSharedBuffer_validation example_host
                           (Some (of_Z MAX_SAFE_INTEGER))))
             MAX_SAFE_INTEGER).
    + apply represents_of_Z.
    + unfold MAX_SAFE_INTEGER. lia.
    + vm_compute. reflexivity.
  - apply (proj2 (proj2 (createSharedBuffer_validation example_host (Some (of_Z 4)))) 4).
    + apply represents_of_Z.
    + vm_compute. split; discriminate.
  - apply (proj2 (proj2 (createSharedBuffer_validation example_host
                           (Some (of_Z 750599937895082))))
             750599937895082).
    + apply represents_of_Z.
    + vm_compute. split; discriminate.
Defined.

(** The claim as the specification has it, success for every count the two
    checks let through, fails where the host has not the memory: on a host
    with 4 GiB for a buffer the count [2^32], a positive safe integer below
    the limit, asks for 48 GiB and ends in a [RangeError]. *)
Lemma createSharedBuffer_validation_counterexample :
  represents (of_Z 4294967296) 4294967296
  /\ 1 <= 4294967296 <= MAX_SAFE_INTEGER / (BYTES_PER_ELEMENT * 3)
  /\ WorkerMutex.createSharedBuffer example_host (Some (of_Z 4294967296)) =
     Throw RangeError
  /\ ~ (forall (host : Host) (count : option number) (n : Z),
          represents (default (of_Z 1) count) n ->
          1 <= n <= MAX_SAFE_INTEGER / (BYTES_PER_ELEMENT * 3) ->
          exists block : Handle,
            WorkerMutex.createSharedBuffer host count = Return block).
Proof.
  assert (Hr : represents (of_Z 4294967296) 4294967296) by apply represents_of_Z.
  assert (Hn : 1 <= 4294967296 <= MAX_SAFE_INTEGER / (BYTES_PER_ELEMENT * 3))
    by (vm_compute; split; discriminate).
  assert (Hthrows : WorkerMutex.createSharedBuffer example_host (Some (of_Z 4294967296)) =
                    Throw RangeError) by (vm_compute; reflexivity).
  split; [exact Hr | split; [exact Hn | split; [exact Hthrows |]]].
  intros Hclaim.
  destruct (Hclaim example_host (Some (of_Z 4294967296)) 4294967296 Hr Hn)
    as [block Hblock].
  rewrite Hthrows in Hblock. discriminate Hblock.
Qed.



(** ** Handle construction *)

Lemma assertUnsignedInteger_rejects (value : number) :
  ~ non_negative_safe_integer value ->
  assertUnsignedInteger value =
  Throw (WorkerMutexError VALUE_MUST_BE_AN_UNSIGNED_INTEGER).
Proof.
  intros Hnot. unfold assertUnsignedInteger.
  destruct (isSafeInteger value) eqn:Hsafe; [| reflexivity].
  apply isSafeInteger_iff in Hsafe as (n & Hr & Hn).
  rewrite (number_lt_represents value n 0 Hr). cbn [negb orb].
  destruct (Z.ltb_spec n 0) as [Hneg | Hpos]; [reflexivity |].
  exfalso. apply Hnot. exists n. split; [assumption | lia].
Qed.

Lemma assertUnsignedInteger_accepts (value : number) (n : Z) :
  represents value n -> 0 <= n <= MAX_SAFE_INTEGER ->
  assertUnsignedInteger value = Return tt.
Proof.
  intros Hr Hn. unfold assertUnsignedInteger.
  assert (Hsafe : isSafeInteger value = true).
  { apply isSafeInteger_iff. exists n. split; [assumption | lia]. }
  rewrite Hsafe, (number_lt_represents value n 0 Hr).
  destruct (Z.ltb_spec n 0); [lia | reflexivity].
Qed.

Lemma constructor_accepts_index (options : WorkerMutexOptions) (n : Z) :
  represents (default (of_Z 0) (index options)) n ->
  0 <= n <= MAX_SAFE_INTEGER ->
  WorkerMutex.constructor options =
  match handle options with
  | SharedArrayBuffer data =>
      if negb (byteLength data mod BYTES_PER_ELEMENT =? 0)
      then Throw (WorkerMutexError HANDLE_BYTE_LENGTH_IS_NOT_INT32_ALIGNED)
      else if n * 3 + 2 <? byteLength data / BYTES_PER_ELEMENT
      then Return (WorkerMutex.mkMutex (Int32Array_new data) (n * 3))
      else Throw (WorkerMutexError MUTEX_INDEX_OUT_OF_RANGE)
  | _ => Throw (WorkerMutexError HANDLE_MUST_BE_A_SHARED_ARRAY_BUFFER)
  end.
Proof.
  intros Hr Hn. unfold WorkerMutex.constructor.
  rewrite (assertUnsignedInteger_accepts _ n Hr Hn).
  destruct (handle options) as [data | data |]; try reflexivity.
  destruct (negb (byteLength data mod BYTES_PER_ELEMENT =? 0)); [reflexivity |].
  rewrite (number_lt_represents _ n 0 Hr), (represents_integer_of _ n Hr).
  rewrite Int32Array_new_length. unfold WorkerMutex.STRIDE.
  destruct (Z.ltb_spec n 0) as [Hneg | _]; [lia |]. cbn [orb].
  destruct (Z.geb_spec (n * 3 + (3 - 1)) (byteLength data / BYTES_PER_ELEMENT)),
    (Z.ltb_spec (n * 3 + 2) (byteLength data / BYTES_PER_ELEMENT));
    try lia; reflexivity.
Qed.

(** A constructed handle: its index, its base and the room for its cells. *)
Lemma constructor_Return_inv (options : WorkerMutexOptions) (this : WorkerMutex.t) :
  WorkerMutex.constructor options = Return this ->
  exists (n : Z) (data : list Byte.byte),
    represents (default (of_Z 0) (index options)) n
    /\ 0 <= n <= MAX_SAFE_INTEGER
    /\ handle options = SharedArrayBuffer data
    /\ byteLength data mod 4 = 0
    /\ n * 3 + 2 < byteLength data / 4
    /\ this = WorkerMutex.mkMutex (Int32Array_new data) (n * 3).
Proof.
  intros Hret.
  destruct (isSafeInteger (default (of_Z 0) (index options))) eqn:Hsafe.
  - apply isSafeInteger_iff in Hsafe as (n & Hr & Hn).
    destruct (Z.ltb_spec n 0) as [Hneg | Hpos].
    + unfold WorkerMutex.constructor, assertUnsignedInteger in Hret.
      rewrite (number_lt_represents _ n 0 Hr) in Hret.
      destruct (Z.ltb_spec n 0); [| lia].
      rewrite orb_true_r in Hret. discriminate.
    + rewrite (constructor_accepts_index options n Hr) in Hret by lia.
      destruct (handle options) as [data | data |]; try discriminate.
      unfold BYTES_PER_ELEMENT in Hret.
      destruct (Z.eqb_spec (byteLength data mod 4) 0) as [Hmod | Hmod];
        [| discriminate].
      destruct (Z.ltb_spec (n * 3 + 2) (byteLength data / 4)); [| discriminate].
      injection Hret as <-. exists n, data. repeat split; try assumption; lia.
  - unfold WorkerMutex.constructor, assertUnsignedInteger in Hret.
    rewrite Hsafe in Hret. discriminate.
Qed.

(** C8.  The constructor checks, in this order: the index (a left-out index
    is 0) is a non-negative safe integer, else
    VALUE_MUST_BE_AN_UNSIGNED_INTEGER; the handle is a [SharedArrayBuffer],
    else HANDLE_MUST_BE_A_SHARED_ARRAY_BUFFER; its byte length is a multiple
    of 4, else HANDLE_BYTE_LENGTH_IS_NOT_INT32_ALIGNED; [index * 3 + 2] is
    below the number of cells, else MUTEX_INDEX_OUT_OF_RANGE.  A handle is
    returned only when every check passes. *)
Theorem constructor_validation (options : WorkerMutexOptions) :
  let given := default (of_Z 0) (index options) in
  (~ non_negative_safe_integer given ->
   WorkerMutex.constructor options =
   Throw (WorkerMutexError VALUE_MUST_BE_AN_UNSIGNED_INTEGER))
  /\ (forall n : Z,
        represents given n -> 0 <= n <= MAX_SAFE_INTEGER ->
        (forall data : list Byte.byte, handle options <> SharedArrayBuffer data) ->
        WorkerMutex.constructor options =
        Throw (WorkerMutexError HANDLE_MUST_BE_A_SHARED_ARRAY_BUFFER))
  /\ (forall (n : Z) (data : list Byte.byte),
        represents given n -> 0 <= n <= MAX_SAFE_INTEGER ->
        handle options = SharedArrayBuffer data ->
        byteLength data mod 4 <> 0 ->
        WorkerMutex.constructor options =
        Throw (WorkerMutexError HANDLE_BYTE_LENGTH_IS_NOT_INT32_ALIGNED))
  /\ (forall (n : Z) (data : list Byte.byte),
        represents given n -> 0 <= n <= MAX_SAFE_INTEGER ->
        handle options = SharedArrayBuffer data ->
        byteLength data mod 4 = 0 ->
        ~ n * 3 + 2 < byteLength data / 4 ->
        WorkerMutex.constructor options =
        Throw (WorkerMutexError MUTEX_INDEX_OUT_OF_RANGE))
  /\ (forall this : WorkerMutex.t,
        WorkerMutex.constructor options = Return this ->
        exists (n : Z) (data : list Byte.byte),
          represents given n /\ 0 <= n <= MAX_SAFE_INTEGER
          /\ handle options = SharedArrayBuffer data
          /\ byteLength data mod 4 = 0
          /\ n * 3 + 2 < byteLength data / 4
          /\ this = WorkerMutex.mkMutex (Int32Array_new data) (n * 3)).
Proof.
  intros given. subst given. repeat apply conj.
  - intros Hnot. unfold WorkerMutex.constructor.
    now rewrite (assertUnsignedInteger_rejects _ Hnot).
  - intros n Hr Hn Hkind.
    rewrite (constructor_accepts_index options n Hr Hn).
    destruct (handle options) as [data | data |]; try reflexivity.
    now destruct (Hkind data).
  - intros n data Hr Hn Hkind Hmod.
    rewrite (constructor_accepts_index options n Hr Hn), Hkind.
    unfold BYTES_PER_ELEMENT.
    destruct (Z.eqb_spec (byteLength data mod 4) 0); [contradiction | reflexivity].
  - intros n data Hr Hn Hkind Hmod Hout.
    rewrite (constructor_accepts_index options n Hr Hn), Hkind.
    unfold BYTES_PER_ELEMENT. rewrite Hmod. cbn [Z.eqb negb].
    destruct (Z.ltb_spec (n * 3 + 2) (byteLength data / 4)); [contradiction | reflexivity].
  - apply constructor_Return_inv.
Qed.

Lemma not_non_negative_safe_integer_fraction :
  ~ non_negative_safe_integer (Finite (3 # 2)).
Proof.
  intros (n & Hr & Hn). cbn in Hr. apply represents_iff in Hr as [Hi _].
  discriminate Hi.
Qed.

Lemma constructor_validation_witness :
  WorkerMutex.constructor (mkOptions (SharedArrayBuffer_new 12) (Some (Finite (3 # 2)))) =
  Throw (WorkerMutexError VALUE_MUST_BE_AN_UNSIGNED_INTEGER)
  /\ WorkerMutex.constructor (mkOptions (ArrayBuffer (zeroed 8)) None) =
     Throw (WorkerMutexError HANDLE_MUST_BE_A_SHARED_ARRAY_BUFFER)
  /\ WorkerMutex.constructor (mkOptions (SharedArrayBuffer_new 10) None) =
     Throw (WorkerMutexError HANDLE_BYTE_LENGTH_IS_NOT_INT32_ALIGNED)
  /\ WorkerMutex.constructor (mkOptions (SharedArrayBuffer_new 12) (Some (of_Z 2))) =
     Throw (WorkerMutexError MUTEX_INDEX_OUT_OF_RANGE)
  /\ exists (n : Z) (data : list Byte.byte),
       represents (of_Z 1) n /\ 0 <= n <= MAX_SAFE_INTEGER
       /\ SharedArrayBuffer_new 24 = SharedArrayBuffer data
       /\ byteLength data mod 4 = 0
       /\ n * 3 + 2 < byteLength data / 4
       /\ WorkerMutex.mkMutex (replicate 6 0) 3 =
          WorkerMutex.mkMutex (Int32Array_new data) (n * 3).
Proof.
  split; [| split; [| split; [| split]]].
  - apply (constructor_validation
             (mkOptions (SharedArrayBuffer_new 12) (Some (Finite (3 # 2))))).
    exact not_non_negative_safe_integer_fraction.
  - apply (proj1 (proj2 (constructor_validation
                           (mkOptions (ArrayBuffer (zeroed 8)) None))) 0).
    + apply represents_of_Z.
    + unfold MAX_SAFE_INTEGER. lia.
    + intros data. discriminate.
  - apply (proj1 (proj2 (proj2 (constructor_validation
                                  (mkOptions (SharedArrayBuffer_new 10) None))))
             0 (zeroed 10)).
    + apply represents_of_Z.
    + unfold MAX_SAFE_INTEGER. lia.
    + reflexivity.
    + vm_compute. discriminate.
  - apply (proj1 (proj2 (proj2 (proj2 (constructor_validation
             (mkOptions (SharedArrayBuffer_new 12) (Some (of_Z 2)))))))
             2 (zeroed 12)).
    + apply represents_of_Z.
    + unfold MAX_SAFE_INTEGER. lia.
    + reflexivity.
    + reflexivity.
    + vm_compute. discriminate.
  - apply (proj2 (proj2 (proj2 (proj2 (constructor_validation
             (mkOptions (SharedArrayBuffer_new 24) (Some (of_Z 1)))))))
             (WorkerMutex.mkMutex (replicate 6 0) 3)).
    reflexivity.
Defined.

(** ** Symbolic execution of the calls *)

(** Looks a cell up through the updates of a world. *)
Ltac cell_solve :=
  cbn [i32 log put fst snd];
  repeat first
    [ eassumption
    | rewrite cell_insert_ne by lia
    | eapply cell_insert_eq ].

(** Runs the atomic operation at the head of the goal with lemma [lem]. *)
Ltac step_with lem :=
  erewrite bind_Return by (eapply lem; cell_solve).

Section Counter.

Variables (ci c : Z) (w : World).
Hypothesis Hc : cell (i32 w) ci = Some c.

Lemma incrementRecursionCount_underflow (fuel : nat) :
  c <= 0 ->
  WorkerMutex.incrementRecursionCount (S fuel) ci w =
  (Throw (WorkerMutexError MUTEX_RECURSION_COUNT_UNDERFLOW), log (ELoad ci c) w).
Proof.
  intros Hle. cbn [WorkerMutex.incrementRecursionCount].
  step_with Atomics_load_run.
  destruct (Z.leb_spec c 0); [reflexivity | lia].
Qed.

Lemma incrementRecursionCount_overflow (fuel : nat) :
  WorkerMutex.MAX_RECURSION_COUNT <= c ->
  WorkerMutex.incrementRecursionCount (S fuel) ci w =
  (Throw (WorkerMutexError MUTEX_RECURSION_COUNT_OVERFLOW), log (ELoad ci c) w).
Proof.
  intros Hge. cbn [WorkerMutex.incrementRecursionCount].
  step_with Atomics_load_run.
  unfold WorkerMutex.MAX_RECURSION_COUNT in *.
  destruct (Z.leb_spec c 0); [lia |].
  destruct (Z.geb_spec c 2147483647); [reflexivity | lia].
Qed.

Lemma incrementRecursionCount_increments (fuel : nat) :
  0 < c < WorkerMutex.MAX_RECURSION_COUNT ->
  WorkerMutex.incrementRecursionCount (S fuel) ci w =
  (Return tt,
   log (ECompareExchange ci c (c + 1) c) (put ci (c + 1) (log (ELoad ci c) w))).
Proof.
  intros Hrange. cbn [WorkerMutex.incrementRecursionCount].
  step_with Atomics_load_run.
  unfold WorkerMutex.MAX_RECURSION_COUNT in *.
  destruct (Z.leb_spec c 0); [lia |].
  destruct (Z.geb_spec c 2147483647); [lia |].
  assert (Hc32 : ToInt32 c = c) by (apply ToInt32_id; unfold is_int32; lia).
  assert (Hc32' : ToInt32 (c + 1) = c + 1) by (apply ToInt32_id; unfold is_int32; lia).
  erewrite bind_Return
    by (eapply Atomics_compareExchange_hit; rewrite Hc32; cell_solve).
  rewrite Hc32, Hc32', Z.eqb_refl. reflexivity.
Qed.

End Counter.

Section Acquire.

Variables (fi oi ci me : Z).
Hypothesis Hfo : fi <> oi.
Hypothesis Hfc : fi <> ci.
Hypothesis Hoc : oi <> ci.

(** The world after a successful acquisition of a free slot. *)
Let acquired (o : Z) (w : World) : World :=
  log (EStore ci 1) (put ci 1
    (log (EStore oi me) (put oi (ToInt32 me)
      (log (ECompareExchange fi 0 1 0) (put fi 1
        (log (ELoad oi o) (log (ELoad fi 0) w))))))).

Lemma lock_loop_owned (fuel : nat) (w : World) (c : Z) :
  cell (i32 w) fi = Some 1 -> cell (i32 w) oi = Some me -> cell (i32 w) ci = Some c ->
  WorkerMutex.lock_loop (S fuel) fi oi ci me w =
  WorkerMutex.incrementRecursionCount (S fuel) ci
    (log (ELoad oi me) (log (ELoad fi 1) w)).
Proof.
  intros Hf Ho Hc. cbn [WorkerMutex.lock_loop].
  step_with Atomics_load_run. step_with Atomics_load_run.
  now rewrite !Z.eqb_refl.
Qed.

Lemma lock_loop_free (fuel : nat) (w : World) (o c : Z) :
  cell (i32 w) fi = Some 0 -> cell (i32 w) oi = Some o -> cell (i32 w) ci = Some c ->
  WorkerMutex.lock_loop (S fuel) fi oi ci me w = (Return tt, acquired o w).
Proof.
  intros Hf Ho Hc.
  pose proof (cell_Some_range _ _ _ Hf). pose proof (cell_Some_range _ _ _ Ho).
  cbn [WorkerMutex.lock_loop].
  step_with Atomics_load_run. step_with Atomics_load_run.
  cbn [Z.eqb andb].
  erewrite bind_Return
    by (eapply (Atomics_compareExchange_hit fi 0 1); cell_solve).
  change (ToInt32 0) with 0. change (ToInt32 1) with 1. cbn [Z.eqb].
  step_with Atomics_store_run. step_with Atomics_store_run.
  reflexivity.
Qed.

(** A slot held by another thread: the loop never returns and never writes. *)
Lemma lock_loop_held (fuel : nat) (w : World) (f o c : Z) :
  cell (i32 w) fi = Some f -> cell (i32 w) oi = Some o -> cell (i32 w) ci = Some c ->
  f <> 0 -> ~ (f = 1 /\ o = me) ->
  i32 (snd (WorkerMutex.lock_loop fuel fi oi ci me w)) = i32 w
  /\ (forall u : unit, fst (WorkerMutex.lock_loop fuel fi oi ci me w) <> Return u)
  /\ notifications (events (snd (WorkerMutex.lock_loop fuel fi oi ci me w))) =
     notifications (events w).
Proof.
  revert w. induction fuel as [| fuel IH]; intros w Hf Ho Hc Hf0 Hnot.
  - cbn. repeat split. discriminate.
  - cbn [WorkerMutex.lock_loop].
    step_with Atomics_load_run. step_with Atomics_load_run.
    assert (Htest : (f =? 1) && (o =? me) = false).
    { destruct (Z.eqb_spec f 1), (Z.eqb_spec o me); try reflexivity.
      exfalso. auto. }
    rewrite Htest. destruct (Z.eqb_spec f 0) as [Hz | _]; [contradiction |].
    destruct (Z.eq_dec f (ToInt32 f)) as [Heq | Hne].
    + erewrite bind_Blocked
        by (eapply Atomics_wait_blocks; rewrite <- Heq; cell_solve).
      cbn [fst snd i32 events log]. rewrite !notifications_app. cbn.
      repeat split; [discriminate | lia].
    + erewrite bind_Return by (eapply Atomics_wait_returns; [cell_solve | exact Hne]).
      destruct (IH (log (EWait fi f) (log (ELoad oi o) (log (ELoad fi f) w))))
        as (Hmem & Hret & Hnote); try assumption.
      rewrite Hmem, Hnote. repeat split; try assumption.
      cbn [events log]. rewrite !notifications_app. cbn. lia.
Qed.

End Acquire.

Lemma awaitWaitAsync_run (w : World) :
  WorkerMutex.awaitWaitAsync w =
  (Blocked, log (EKeepAliveTimer WorkerMutex.KEEP_ALIVE_TIMEOUT_MS) w).
Proof. reflexivity. Qed.

Lemma sleep_run (delay : Z) (w : World) :
  sleep delay w = (Return tt, log (ESleep delay) w).
Proof. reflexivity. Qed.

Section AcquireAsync.

Variables (fi oi ci me : Z).
Hypothesis Hfo : fi <> oi.
Hypothesis Hfc : fi <> ci.
Hypothesis Hoc : oi <> ci.

Lemma lockAsync_waitAsync_loop_owned (fuel : nat) (w : World) (c delay : Z) :
  cell (i32 w) fi = Some 1 -> cell (i32 w) oi = Some me -> cell (i32 w) ci = Some c ->
  WorkerMutex.lockAsync_waitAsync_loop (S fuel) fi oi ci me delay w =
  WorkerMutex.incrementRecursionCount (S fuel) ci
    (log (ELoad oi me) (log (ELoad fi 1) w)).
Proof.
  intros Hf Ho Hc. cbn [WorkerMutex.lockAsync_waitAsync_loop].
  step_with Atomics_load_run. step_with Atomics_load_run.
  now rewrite !Z.eqb_refl.
Qed.

Lemma lockAsync_poll_loop_owned (fuel : nat) (w : World) (c delay : Z) :
  cell (i32 w) fi = Some 1 -> cell (i32 w) oi = Some me -> cell (i32 w) ci = Some c ->
  WorkerMutex.lockAsync_poll_loop (S fuel) fi oi ci me delay w =
  WorkerMutex.incrementRecursionCount (S fuel) ci
    (log (ELoad oi me) (log (ELoad fi 1) w)).
Proof.
  intros Hf Ho Hc. cbn [WorkerMutex.lockAsync_poll_loop].
  step_with Atomics_load_run. step_with Atomics_load_run.
  now rewrite !Z.eqb_refl.
Qed.

Lemma lockAsync_waitAsync_loop_free (fuel : nat) (w : World) (o c delay : Z) :
  cell (i32 w) fi = Some 0 -> cell (i32 w) oi = Some o -> cell (i32 w) ci = Some c ->
  WorkerMutex.lockAsync_waitAsync_loop (S fuel) fi oi ci me delay w =
  WorkerMutex.lock_loop (S fuel) fi oi ci me w.
Proof.
  intros Hf Ho Hc.
  pose proof (cell_Some_range _ _ _ Hf). pose proof (cell_Some_range _ _ _ Ho).
  cbn [WorkerMutex.lockAsync_waitAsync_loop WorkerMutex.lock_loop].
  do 2 (step_with Atomics_load_run). symmetry. do 2 (step_with Atomics_load_run).
  cbn [Z.eqb andb].
  do 2 (erewrite bind_Return
          by (eapply (Atomics_compareExchange_hit fi 0 1); cell_solve)).
  reflexivity.
Qed.

Lemma lockAsync_poll_loop_free (fuel : nat) (w : World) (o c delay : Z) :
  cell (i32 w) fi = Some 0 -> cell (i32 w) oi = Some o -> cell (i32 w) ci = Some c ->
  WorkerMutex.lockAsync_poll_loop (S fuel) fi oi ci me delay w =
  WorkerMutex.lock_loop (S fuel) fi oi ci me w.
Proof.
  intros Hf Ho Hc.
  pose proof (cell_Some_range _ _ _ Hf). pose proof (cell_Some_range _ _ _ Ho).
  cbn [WorkerMutex.lockAsync_poll_loop WorkerMutex.lock_loop].
  do 2 (step_with Atomics_load_run). symmetry. do 2 (step_with Atomics_load_run).
  cbn [Z.eqb andb].
  do 2 (erewrite bind_Return
          by (eapply (Atomics_compareExchange_hit fi 0 1); cell_solve)).
  reflexivity.
Qed.

Lemma lockAsync_waitAsync_loop_held (fuel : nat) (w : World) (f o c delay : Z) :
  cell (i32 w) fi = Some f -> cell (i32 w) oi = Some o -> cell (i32 w) ci = Some c ->
  f <> 0 -> ~ (f = 1 /\ o = me) ->
  i32 (snd (WorkerMutex.lockAsync_waitAsync_loop fuel fi oi ci me delay w)) = i32 w
  /\ (forall u : unit,
        fst (WorkerMutex.lockAsync_waitAsync_loop fuel fi oi ci me delay w) <> Return u)
  /\ notifications
       (events (snd (WorkerMutex.lockAsync_waitAsync_loop fuel fi oi ci me delay w))) =
     notifications (events w).
Proof.
  revert w delay. induction fuel as [| fuel IH]; intros w delay Hf Ho Hc Hf0 Hnot.
  - cbn. repeat split. discriminate.
  - cbn [WorkerMutex.lockAsync_waitAsync_loop].
    step_with Atomics_load_run. step_with Atomics_load_run.
    assert (Htest : (f =? 1) && (o =? me) = false).
    { destruct (Z.eqb_spec f 1), (Z.eqb_spec o me); try reflexivity.
      exfalso. auto. }
    rewrite Htest. destruct (Z.eqb_spec f 0) as [Hz | _]; [contradiction |].
    destruct (Z.eq_dec f (ToInt32 f)) as [Heq | Hne].
    + erewrite bind_Return
        by (eapply Atomics_waitAsync_pending; rewrite <- Heq; cell_solve).
      cbv beta iota.
      erewrite bind_Blocked by apply awaitWaitAsync_run.
      cbn [fst snd i32 events log]. rewrite !notifications_app. cbn.
      repeat split; [discriminate | lia].
    + erewrite bind_Return
        by (eapply Atomics_waitAsync_not_equal; [cell_solve | exact Hne]).
      cbv beta iota.
      erewrite bind_Return by apply sleep_run.
      edestruct IH as (Hmem & Hret & Hnote); [| | | exact Hf0 | exact Hnot |].
      4: { rewrite Hmem, Hnote. repeat split; try apply Hret.
           cbn [events log]. rewrite !notifications_app. cbn. lia. }
      all: cell_solve.
Qed.

Lemma lockAsync_poll_loop_held (fuel : nat) (w : World) (f o c delay : Z) :
  cell (i32 w) fi = Some f -> cell (i32 w) oi = Some o -> cell (i32 w) ci = Some c ->
  f <> 0 -> ~ (f = 1 /\ o = me) ->
  i32 (snd (WorkerMutex.lockAsync_poll_loop fuel fi oi ci me delay w)) = i32 w
  /\ fst (WorkerMutex.lockAsync_poll_loop fuel fi oi ci me delay w) = OutOfFuel
  /\ notifications
       (events (snd (WorkerMutex.lockAsync_poll_loop fuel fi oi ci me delay w))) =
     notifications (events w).
Proof.
  revert w delay. induction fuel as [| fuel IH]; intros w delay Hf Ho Hc Hf0 Hnot.
  - cbn. repeat split.
  - cbn [WorkerMutex.lockAsync_poll_loop].
    step_with Atomics_load_run. step_with Atomics_load_run.
    assert (Htest : (f =? 1) && (o =? me) = false).
    { destruct (Z.eqb_spec f 1), (Z.eqb_spec o me); try reflexivity.
      exfalso. auto. }
    rewrite Htest. destruct (Z.eqb_spec f 0) as [Hz | _]; [contradiction |].
    erewrite bind_Return by apply sleep_run.
    edestruct IH as (Hmem & Hret & Hnote); [| | | exact Hf0 | exact Hnot |].
    4: { rewrite Hmem, Hnote, Hret. repeat split.
         cbn [events log]. rewrite !notifications_app. cbn. lia. }
    all: cell_solve.
Qed.

End AcquireAsync.

Section Release.

Variables (fi oi ci : Z).
Hypothesis Hfo : fi <> oi.
Hypothesis Hfc : fi <> ci.
Hypothesis Hoc : oi <> ci.

Lemma unlock_loop_underflow (fuel : nat) (w : World) (c : Z) :
  cell (i32 w) ci = Some c -> c <= 0 ->
  WorkerMutex.unlock_loop (S fuel) fi oi ci w =
  (Throw (WorkerMutexError MUTEX_RECURSION_COUNT_UNDERFLOW), log (ELoad ci c) w).
Proof.
  intros Hc Hle. cbn [WorkerMutex.unlock_loop].
  step_with Atomics_load_run.
  destruct (Z.leb_spec c 0); [reflexivity | lia].
Qed.

Lemma unlock_loop_shallower (fuel : nat) (w : World) (c : Z) :
  cell (i32 w) ci = Some c -> 1 < c -> is_int32 c ->
  WorkerMutex.unlock_loop (S fuel) fi oi ci w =
  (Return tt,
   log (ECompareExchange ci c (c - 1) c) (put ci (c - 1) (log (ELoad ci c) w))).
Proof.
  intros Hc Hgt H32. cbn [WorkerMutex.unlock_loop].
  step_with Atomics_load_run.
  destruct (Z.leb_spec c 0); [lia |].
  assert (Hc32 : ToInt32 c = c) by now apply ToInt32_id.
  assert (Hc32' : ToInt32 (c - 1) = c - 1)
    by (apply ToInt32_id; unfold is_int32 in *; lia).
  erewrite bind_Return
    by (eapply Atomics_compareExchange_hit; rewrite Hc32; cell_solve).
  rewrite Hc32, Hc32', Z.eqb_refl. cbn [negb].
  destruct (Z.gtb_spec (c - 1) 0); [reflexivity | lia].
Qed.

(** The world after the release of the last hold. *)
Let released (w : World) : World :=
  log (ENotify fi 1)
    (log (EStore fi 0) (put fi 0
      (log (EStore oi 0) (put oi 0
        (log (EStore ci 0) (put ci 0
          (log (ECompareExchange ci 1 0 1) (put ci 0 (log (ELoad ci 1) w))))))))).

Lemma unlock_loop_releases (fuel : nat) (w : World) (f o : Z) :
  cell (i32 w) fi = Some f -> cell (i32 w) oi = Some o -> cell (i32 w) ci = Some 1 ->
  WorkerMutex.unlock_loop (S fuel) fi oi ci w = (Return tt, released w).
Proof.
  intros Hf Ho Hc.
  pose proof (cell_Some_range _ _ _ Hf). pose proof (cell_Some_range _ _ _ Ho).
  pose proof (cell_Some_range _ _ _ Hc).
  cbn [WorkerMutex.unlock_loop].
  step_with Atomics_load_run. cbn [Z.leb Z.compare].
  erewrite bind_Return
    by (eapply (Atomics_compareExchange_hit ci 1 (1 - 1)); cell_solve).
  change (ToInt32 1) with 1. change (ToInt32 (1 - 1)) with 0.
  cbn [Z.eqb Pos.eqb negb]. change (1 - 1 >? 0) with false. cbv beta iota.
  step_with Atomics_store_run. step_with Atomics_store_run.
  step_with Atomics_store_run. step_with Atomics_notify_run.
  reflexivity.
Qed.

Lemma unlock_not_owned (threadId : Z) (this : WorkerMutex.t) (fuel : nat)
      (w : World) (f o : Z) :
  cell (i32 w) (WorkerMutex.lockIndex this) = Some f ->
  cell (i32 w) (WorkerMutex.ownerIndex this) = Some o ->
  f <> 1 \/ o <> WorkerMutex.selfId threadId ->
  WorkerMutex.unlock threadId this fuel w =
  (Throw (WorkerMutexError MUTEX_IS_NOT_OWNED_BY_CURRENT_THREAD),
   log (ELoad (WorkerMutex.ownerIndex this) o)
     (log (ELoad (WorkerMutex.lockIndex this) f) w)).
Proof.
  intros Hf Ho Hnot. unfold WorkerMutex.unlock.
  step_with Atomics_load_run. step_with Atomics_load_run.
  destruct (Z.eqb_spec f 1), (Z.eqb_spec o (WorkerMutex.selfId threadId));
    try reflexivity.
  exfalso. destruct Hnot; contradiction.
Qed.

Lemma unlock_owned (threadId : Z) (this : WorkerMutex.t) (fuel : nat) (w : World) :
  cell (i32 w) (WorkerMutex.lockIndex this) = Some 1 ->
  cell (i32 w) (WorkerMutex.ownerIndex this) = Some (WorkerMutex.selfId threadId) ->
  WorkerMutex.unlock threadId this fuel w =
  WorkerMutex.unlock_loop fuel (WorkerMutex.lockIndex this)
    (WorkerMutex.ownerIndex this) (WorkerMutex.countIndex this)
    (log (ELoad (WorkerMutex.ownerIndex this) (WorkerMutex.selfId threadId))
       (log (ELoad (WorkerMutex.lockIndex this) 1) w)).
Proof.
  intros Hf Ho. unfold WorkerMutex.unlock.
  step_with Atomics_load_run. step_with Atomics_load_run.
  now rewrite !Z.eqb_refl.
Qed.

End Release.

(** ** The calls refine the slot state machine *)

Lemma slot_cells (a : list Z) (this : WorkerMutex.t) (s : Slot) :
  slot a this = Some s ->
  cell a (WorkerMutex.lockIndex this) = Some (flag s)
  /\ cell a (WorkerMutex.ownerIndex this) = Some (owner s)
  /\ cell a (WorkerMutex.countIndex this) = Some (recursionCount s).
Proof.
  unfold slot. intros H.
  destruct (cell a (WorkerMutex.lockIndex this)) as [f |]; [| discriminate].
  destruct (cell a (WorkerMutex.ownerIndex this)) as [o |]; [| discriminate].
  destruct (cell a (WorkerMutex.countIndex this)) as [c |]; [| discriminate].
  cbn in H. injection H as <-. auto.
Qed.

Lemma slot_intro (a : list Z) (this : WorkerMutex.t) (f o c : Z) :
  cell a (WorkerMutex.lockIndex this) = Some f ->
  cell a (WorkerMutex.ownerIndex this) = Some o ->
  cell a (WorkerMutex.countIndex this) = Some c ->
  slot a this = Some (mkSlot f o c).
Proof. unfold slot. intros -> -> ->. reflexivity. Qed.

Lemma slot_indices_distinct (this : WorkerMutex.t) :
  WorkerMutex.lockIndex this <> WorkerMutex.ownerIndex this
  /\ WorkerMutex.lockIndex this <> WorkerMutex.countIndex this
  /\ WorkerMutex.ownerIndex this <> WorkerMutex.countIndex this.
Proof.
  unfold WorkerMutex.lockIndex, WorkerMutex.ownerIndex, WorkerMutex.countIndex,
    WorkerMutex.LOCK_OFFSET, WorkerMutex.OWNER_OFFSET, WorkerMutex.COUNT_OFFSET.
  lia.
Qed.

Lemma same_elsewhere_refl (this : WorkerMutex.t) (a : list Z) :
  same_elsewhere this a a.
Proof. split; [reflexivity | intros; reflexivity]. Qed.

Lemma i32_warned (threadId : Z) (w : World) : i32 (warned threadId w) = i32 w.
Proof. unfold warned. now destruct (_ && _). Qed.

Lemma lock_prologue (threadId : Z) (this : WorkerMutex.t) (fuel : nat) (w : World) :
  WorkerMutex.lock threadId this fuel w =
  WorkerMutex.lock_loop fuel (WorkerMutex.lockIndex this) (WorkerMutex.ownerIndex this)
    (WorkerMutex.countIndex this) (WorkerMutex.selfId threadId) (warned threadId w).
Proof.
  unfold WorkerMutex.lock, warned, get_mainThreadWarningShown,
    set_mainThreadWarningShown, emit, mbind, Exec_bind, mret, Exec_ret, log.
  destruct w as [a shown evs]. cbn [mainThreadWarningShown i32 events].
  destruct ((threadId =? 0) && negb shown); reflexivity.
Qed.

(** Sets up the three indices of [this] as variables with what [lia] needs. *)
Ltac slot_setup this Hslot :=
  let Hf := fresh "Hf" in
  let Ho := fresh "Ho" in
  let Hc := fresh "Hc" in
  destruct (slot_cells _ _ _ Hslot) as (Hf & Ho & Hc);
  destruct (slot_indices_distinct this) as (? & ? & ?);
  pose proof (cell_Some_range _ _ _ Hf);
  pose proof (cell_Some_range _ _ _ Ho);
  pose proof (cell_Some_range _ _ _ Hc).

Ltac frame_solve :=
  split;
  [ cbn [i32 log put fst snd]; rewrite ?length_insert; reflexivity
  | intros; cbn [i32 log put fst snd]; rewrite ?cell_insert_ne by lia; reflexivity ].

Section Refinement.

Variables (this : WorkerMutex.t) (me : Z).

Let fi := WorkerMutex.lockIndex this.
Let oi := WorkerMutex.ownerIndex this.
Let ci := WorkerMutex.countIndex this.

(** What the call did to the slot of [this], seen from the state machine. *)
Let refined (s : Slot) (w w' : World) : Prop :=
  exists s' : Slot,
    slot (i32 w') this = Some s'
    /\ slot_step me s s'
    /\ same_elsewhere this (i32 w) (i32 w').

Lemma refined_stay (s : Slot) (w w' : World) :
  slot (i32 w) this = Some s -> i32 w' = i32 w -> refined s w w'.
Proof.
  intros Hs Heq. exists s. rewrite Heq.
  split; [assumption | split; [constructor | apply same_elsewhere_refl]].
Qed.

Lemma incrementRecursionCount_refines (fuel : nat) (w0 w : World) (c : Z) :
  slot (i32 w) this = Some (mkSlot 1 me c) -> i32 w0 = i32 w ->
  refined (mkSlot 1 me c) w0
    (snd (WorkerMutex.incrementRecursionCount fuel ci w)).
Proof.
  intros Hs H0. slot_setup this Hs. cbn [flag owner recursionCount] in *.
  unfold ci in *.
  destruct fuel as [| fuel].
  { apply refined_stay; [now rewrite H0 | now rewrite H0]. }
  destruct (Z_le_gt_dec c 0) as [Hle | Hpos].
  { rewrite (incrementRecursionCount_underflow _ c w Hc fuel Hle).
    apply refined_stay; [now rewrite H0 | now rewrite H0]. }
  destruct (Z_le_gt_dec WorkerMutex.MAX_RECURSION_COUNT c) as [Hmax | Hlt].
  { rewrite (incrementRecursionCount_overflow _ c w Hc fuel Hmax).
    apply refined_stay; [now rewrite H0 | now rewrite H0]. }
  rewrite (incrementRecursionCount_increments _ c w Hc fuel) by lia.
  exists (mkSlot 1 me (c + 1)). rewrite H0. split; [| split].
  - apply slot_intro; cell_solve.
  - constructor. lia.
  - frame_solve.
Qed.

(** An acquisition loop, as the three loops of the class share their
    cases. *)
Variable loop : nat -> Exec unit.
Hypothesis loop_owned : forall (fuel : nat) (w : World) (c : Z),
  cell (i32 w) fi = Some 1 -> cell (i32 w) oi = Some me -> cell (i32 w) ci = Some c ->
  loop (S fuel) w =
  WorkerMutex.incrementRecursionCount (S fuel) ci
    (log (ELoad oi me) (log (ELoad fi 1) w)).
Hypothesis loop_free : forall (fuel : nat) (w : World) (o c : Z),
  cell (i32 w) fi = Some 0 -> cell (i32 w) oi = Some o -> cell (i32 w) ci = Some c ->
  loop (S fuel) w = WorkerMutex.lock_loop (S fuel) fi oi ci me w.
Hypothesis loop_held : forall (fuel : nat) (w : World) (f o c : Z),
  cell (i32 w) fi = Some f -> cell (i32 w) oi = Some o -> cell (i32 w) ci = Some c ->
  f <> 0 -> ~ (f = 1 /\ o = me) ->
  i32 (snd (loop fuel w)) = i32 w.
Hypothesis loop_zero : forall w : World, i32 (snd (loop 0 w)) = i32 w.

Lemma acquire_refines (fuel : nat) (w : World) (s : Slot) :
  slot (i32 w) this = Some s -> refined s w (snd (loop fuel w)).
Proof.
  intros Hs. slot_setup this Hs. destruct s as [f o c].
  cbn [flag owner recursionCount] in *. unfold fi, oi, ci in *.
  destruct fuel as [| fuel].
  { apply refined_stay; [assumption | apply loop_zero]. }
  destruct (Z.eq_dec f 0) as [-> | Hf0].
  - rewrite (loop_free fuel w o c) by assumption.
    erewrite lock_loop_free by eassumption. cbn [snd].
    exists (mkSlot 1 (ToInt32 me) 1). split; [| split].
    + apply slot_intro; cell_solve.
    + constructor.
    + frame_solve.
  - destruct (Z.eq_dec f 1) as [-> | Hf1].
    + destruct (Z.eq_dec o me) as [-> | Hom].
      * rewrite (loop_owned fuel w c) by assumption.
        apply incrementRecursionCount_refines; [| reflexivity].
        apply slot_intro; cell_solve.
      * apply refined_stay; [now apply slot_intro |].
        apply (loop_held (S fuel) w 1 o c); try assumption. tauto.
    + apply refined_stay; [now apply slot_intro |].
      apply (loop_held (S fuel) w f o c); try assumption. tauto.
Qed.

End Refinement.

Lemma lock_refines (threadId : Z) (this : WorkerMutex.t) (fuel : nat) (w : World) (s : Slot) :
  slot (i32 w) this = Some s ->
  exists s' : Slot,
    slot (i32 (snd (WorkerMutex.lock threadId this fuel w))) this = Some s'
    /\ slot_step (WorkerMutex.selfId threadId) s s'
    /\ same_elsewhere this (i32 w) (i32 (snd (WorkerMutex.lock threadId this fuel w))).
Proof.
  intros Hs. destruct (slot_indices_distinct this) as (Hfo & Hfc & Hoc).
  rewrite lock_prologue. rewrite <- (i32_warned threadId w) in Hs |- *.
  apply (acquire_refines this (WorkerMutex.selfId threadId)
           (fun fuel => WorkerMutex.lock_loop fuel (WorkerMutex.lockIndex this)
              (WorkerMutex.ownerIndex this) (WorkerMutex.countIndex this)
              (WorkerMutex.selfId threadId))); try assumption.
  - intros. now apply lock_loop_owned with (c := c).
  - reflexivity.
  - intros fuel' w' f o c Hf Ho Hc Hf0 Hnot.
    now destruct (lock_loop_held _ _ _ _ fuel' w' f o c Hf Ho Hc Hf0 Hnot).
  - reflexivity.
Qed.

Lemma lockAsync_refines (hasWaitAsync : bool) (threadId : Z) (this : WorkerMutex.t)
      (fuel : nat) (w : World) (s : Slot) :
  slot (i32 w) this = Some s ->
  exists s' : Slot,
    slot (i32 (snd (WorkerMutex.lockAsync hasWaitAsync threadId this fuel w))) this = Some s'
    /\ slot_step (WorkerMutex.selfId threadId) s s'
    /\ same_elsewhere this (i32 w)
         (i32 (snd (WorkerMutex.lockAsync hasWaitAsync threadId this fuel w))).
Proof.
  intros Hs. destruct (slot_indices_distinct this) as (Hfo & Hfc & Hoc).
  unfold WorkerMutex.lockAsync. destruct hasWaitAsync.
  - apply (acquire_refines this (WorkerMutex.selfId threadId)
             (fun fuel => WorkerMutex.lockAsync_waitAsync_loop fuel
                (WorkerMutex.lockIndex this) (WorkerMutex.ownerIndex this)
                (WorkerMutex.countIndex this) (WorkerMutex.selfId threadId) 0));
      try assumption.
    + intros. now apply lockAsync_waitAsync_loop_owned with (c := c).
    + intros. now apply lockAsync_waitAsync_loop_free with (o := o) (c := c).
    + intros fuel' w' f o c Hf Ho Hc Hf0 Hnot.
      now destruct (lockAsync_waitAsync_loop_held _ _ _ _ fuel' w' f o c 0
                      Hf Ho Hc Hf0 Hnot).
    + reflexivity.
  - apply (acquire_refines this (WorkerMutex.selfId threadId)
             (fun fuel => WorkerMutex.lockAsync_poll_loop fuel
                (WorkerMutex.lockIndex this) (WorkerMutex.ownerIndex this)
                (WorkerMutex.countIndex this) (WorkerMutex.selfId threadId) 0));
      try assumption.
    + intros. now apply lockAsync_poll_loop_owned with (c := c).
    + intros. now apply lockAsync_poll_loop_free with (o := o) (c := c).
    + intros fuel' w' f o c Hf Ho Hc Hf0 Hnot.
      now destruct (lockAsync_poll_loop_held _ _ _ _ fuel' w' f o c 0
                      Hf Ho Hc Hf0 Hnot).
    + reflexivity.
Qed.

Lemma unlock_refines (threadId : Z) (this : WorkerMutex.t) (fuel : nat) (w : World) (s : Slot) :
  slot (i32 w) this = Some s -> is_int32 (recursionCount s) ->
  exists s' : Slot,
    slot (i32 (snd (WorkerMutex.unlock threadId this fuel w))) this = Some s'
    /\ slot_step (WorkerMutex.selfId threadId) s s'
    /\ same_elsewhere this (i32 w) (i32 (snd (WorkerMutex.unlock threadId this fuel w))).
Proof.
  intros Hs H32. slot_setup this Hs. destruct s as [f o c].
  cbn [flag owner recursionCount] in *.
  assert (Hstay : forall w' : World,
             i32 w' = i32 w ->
             exists s' : Slot,
               slot (i32 w') this = Some s'
               /\ slot_step (WorkerMutex.selfId threadId) (mkSlot f o c) s'
               /\ same_elsewhere this (i32 w) (i32 w')).
  { intros w' Heq. exists (mkSlot f o c). rewrite Heq.
    split; [assumption | split; [constructor | apply same_elsewhere_refl]]. }
  destruct (Z.eq_dec f 1) as [-> | Hf1];
    [destruct (Z.eq_dec o (WorkerMutex.selfId threadId)) as [-> | Hom] |].
  - rewrite unlock_owned by assumption.
    destruct fuel as [| fuel]; [now apply Hstay |].
    destruct (Z_le_gt_dec c 0) as [Hle | Hpos].
    { erewrite unlock_loop_underflow by (cell_solve || lia). now apply Hstay. }
    destruct (Z.eq_dec c 1) as [-> | Hc1].
    + erewrite unlock_loop_releases by (cell_solve || lia). cbn [snd].
      exists (mkSlot 0 0 0). split; [| split].
      * apply slot_intro; cell_solve.
      * constructor.
      * frame_solve.
    + erewrite unlock_loop_shallower by (cell_solve || lia || assumption). cbn [snd].
      exists (mkSlot 1 (WorkerMutex.selfId threadId) (c - 1)). split; [| split].
      * apply slot_intro; cell_solve.
      * constructor; [lia | assumption].
      * frame_solve.
  - erewrite unlock_not_owned by (eassumption || tauto). now apply Hstay.
  - erewrite unlock_not_owned by (eassumption || tauto). now apply Hstay.
Qed.

(** Every call, however it ends, moves the slot of its handle by a step of
    the state machine and leaves every other cell as it was. *)
Lemma call_refines (c : Call) (threadId : Z) (this : WorkerMutex.t) (fuel : nat)
      (w : World) (s : Slot) :
  slot (i32 w) this = Some s -> is_int32 (recursionCount s) ->
  exists s' : Slot,
    slot (i32 (snd (call c threadId this fuel w))) this = Some s'
    /\ slot_step (WorkerMutex.selfId threadId) s s'
    /\ same_elsewhere this (i32 w) (i32 (snd (call c threadId this fuel w))).
Proof.
  intros Hs H32. destruct c as [| hasWaitAsync |]; cbn [call].
  - now apply lock_refines.
  - now apply lockAsync_refines.
  - now apply unlock_refines.
Qed.

Lemma slot_step_invariant (me : Z) (s s' : Slot) :
  slot_step me s s' -> slot_invariant s -> slot_invariant s'.
Proof.
  unfold slot_invariant, WorkerMutex.MAX_RECURSION_COUNT.
  intros Hstep Hinv. destruct Hstep; cbn [flag owner recursionCount] in *.
  - assumption.
  - right. split; [reflexivity | split; [apply ToInt32_range | lia]].
  - right. destruct Hinv as [(Hf & _) | (_ & Ho & Hc)]; [discriminate |].
    unfold WorkerMutex.MAX_RECURSION_COUNT in *.
    split; [reflexivity | split; [assumption | lia]].
  - right. destruct Hinv as [(Hf & _) | (_ & Ho & Hc)]; [discriminate |].
    split; [reflexivity | split; [assumption | lia]].
  - left. auto.
Qed.

Lemma slot_invariant_int32 (s : Slot) :
  slot_invariant s -> is_int32 (recursionCount s).
Proof.
  unfold slot_invariant, is_int32, WorkerMutex.MAX_RECURSION_COUNT.
  intros [(_ & _ & ->) | (_ & _ & Hc)]; lia.
Qed.

(** ** Reachable states *)

Lemma block_invariant_fresh (n : Z) :
  0 <= n ->
  block_invariant n (Int32Array_new (zeroed (WorkerMutex.BYTES_PER_MUTEX * n))).
Proof.
  intros Hn. rewrite view_of_zeroed by assumption. unfold WorkerMutex.STRIDE. split.
  - rewrite length_replicate. lia.
  - intros k view Hk. exists (mkSlot 0 0 0). split.
    + apply slot_intro; apply cell_replicate_zero;
        unfold WorkerMutex.lockIndex, WorkerMutex.ownerIndex, WorkerMutex.countIndex,
          WorkerMutex.LOCK_OFFSET, WorkerMutex.OWNER_OFFSET, WorkerMutex.COUNT_OFFSET;
        cbn [WorkerMutex.base]; lia.
    + left. auto.
Qed.

Lemma slot_same_elsewhere (this other : WorkerMutex.t) (a a' : list Z) :
  same_elsewhere this a a' ->
  WorkerMutex.base other + 2 < WorkerMutex.base this
  \/ WorkerMutex.base this + 2 < WorkerMutex.base other ->
  slot a' other = slot a other.
Proof.
  intros [_ Hsame] Hapart. unfold slot.
  rewrite !Hsame;
    unfold WorkerMutex.lockIndex, WorkerMutex.ownerIndex, WorkerMutex.countIndex,
      WorkerMutex.LOCK_OFFSET, WorkerMutex.OWNER_OFFSET, WorkerMutex.COUNT_OFFSET;
    try lia.
  reflexivity.
Qed.

Lemma slot_view_irrelevant (a view view' : list Z) (b : Z) :
  slot a (WorkerMutex.mkMutex view b) = slot a (WorkerMutex.mkMutex view' b).
Proof. reflexivity. Qed.

Lemma block_invariant_call (n m : Z) (view : list Z) (c : Call) (threadId : Z)
      (fuel : nat) (w : World) :
  0 <= m < n ->
  block_invariant n (i32 w) ->
  block_invariant n (i32 (snd (call c threadId (WorkerMutex.mkMutex view (m * 3)) fuel w))).
Proof.
  intros Hm [Hlen Hslots].
  destruct (Hslots m view Hm) as (s & Hs & Hinv).
  destruct (call_refines c threadId _ fuel w s Hs (slot_invariant_int32 s Hinv))
    as (s' & Hs' & Hstep & Hframe).
  split.
  - destruct Hframe as [Hl _]. rewrite Hl. assumption.
  - intros k view' Hk. destruct (Z.eq_dec k m) as [-> | Hkm].
    + exists s'. rewrite (slot_view_irrelevant _ view' view (m * 3)).
      split; [assumption |].
      exact (slot_step_invariant _ s s' Hstep Hinv).
    + destruct (Hslots k view' Hk) as (sk & Hsk & Hinvk).
      exists sk. split; [| assumption].
      rewrite (slot_same_elsewhere _ _ _ _ Hframe); [assumption |].
      cbn [WorkerMutex.base]. lia.
Qed.

(** A handle constructed over a block of [n] mutexes addresses one of them. *)
Lemma constructor_over_block (n : Z) (idx : option number) (this : WorkerMutex.t) :
  0 <= n ->
  WorkerMutex.constructor
    (mkOptions (SharedArrayBuffer (zeroed (WorkerMutex.BYTES_PER_MUTEX * n))) idx) =
  Return this ->
  exists (m : Z) (view : list Z),
    represents (default (of_Z 0) idx) m
    /\ 0 <= m < n /\ this = WorkerMutex.mkMutex view (m * 3).
Proof.
  intros Hn Hret.
  apply constructor_Return_inv in Hret
    as (m & data & Hr & Hm & Hdata & _ & Hroom & ->).
  cbn [handle index] in *. injection Hdata as <-.
  rewrite byteLength_zeroed in Hroom
    by (unfold WorkerMutex.BYTES_PER_MUTEX, BYTES_PER_ELEMENT, WorkerMutex.STRIDE; lia).
  unfold WorkerMutex.BYTES_PER_MUTEX, BYTES_PER_ELEMENT, WorkerMutex.STRIDE in Hroom.
  replace (4 * 3 * n) with (3 * n * 4) in Hroom by lia.
  rewrite Z.div_mul in Hroom by lia.
  exists m, (Int32Array_new (zeroed (WorkerMutex.BYTES_PER_MUTEX * n))).
  repeat split; try assumption; lia.
Qed.

Lemma reachable_block_invariant (n : Z) (w : World) :
  0 <= n ->
  reachable (SharedArrayBuffer (zeroed (WorkerMutex.BYTES_PER_MUTEX * n))) w ->
  block_invariant n (i32 w).
Proof.
  intros Hn Hreach. induction Hreach as [data shown Hdata | w c threadId idx this fuel _ IH Hthis].
  - injection Hdata as <-. cbn [i32]. now apply block_invariant_fresh.
  - apply constructor_over_block in Hthis as (m & view & _ & Hm & ->); [| assumption].
    now apply block_invariant_call.
Qed.

(** ** Release *)

(** C6.  When the flag is not 1 or the owner is not the calling thread,
    [unlock()] throws MUTEX_IS_NOT_OWNED_BY_CURRENT_THREAD and no cell of
    the view changes: flag, owner and recursionCount are as before. *)
Theorem unlock_rejects_non_owner (threadId : Z) (this : WorkerMutex.t) (fuel : nat)
        (w : World) (s : Slot) :
  slot (i32 w) this = Some s ->
  flag s <> 1 \/ owner s <> WorkerMutex.selfId threadId ->
  fst (WorkerMutex.unlock threadId this fuel w) =
    Throw (WorkerMutexError MUTEX_IS_NOT_OWNED_BY_CURRENT_THREAD)
  /\ i32 (snd (WorkerMutex.unlock threadId this fuel w)) = i32 w
  /\ slot (i32 (snd (WorkerMutex.unlock threadId this fuel w))) this = Some s.
Proof.
  intros Hs Hnot. destruct (slot_cells _ _ _ Hs) as (Hf & Ho & _).
  rewrite (unlock_not_owned threadId this fuel w _ _ Hf Ho Hnot).
  cbn [fst snd i32 log]. auto.
Qed.

(** The events a call in world [w] added to end in world [w']. *)
Lemma unlock_events (threadId : Z) (this : WorkerMutex.t) (fuel : nat) (w : World) (c : Z) :
  slot (i32 w) this = Some (mkSlot 1 (WorkerMutex.selfId threadId) c) ->
  is_int32 c -> 0 < c ->
  let fi := WorkerMutex.lockIndex this in
  let oi := WorkerMutex.ownerIndex this in
  let ci := WorkerMutex.countIndex this in
  let w' := snd (WorkerMutex.unlock threadId this (S fuel) w) in
  fst (WorkerMutex.unlock threadId this (S fuel) w) = Return tt
  /\ slot (i32 w') this =
     Some (if c =? 1 then mkSlot 0 0 0
           else mkSlot 1 (WorkerMutex.selfId threadId) (c - 1))
  /\ same_elsewhere this (i32 w) (i32 w')
  /\ events w' =
     events w
     ++ [ELoad fi 1; ELoad oi (WorkerMutex.selfId threadId); ELoad ci c;
         ECompareExchange ci c (c - 1) c]
     ++ (if c =? 1
         then [EStore ci 0; EStore oi 0; EStore fi 0; ENotify fi 1]
         else []).
Proof.
  intros Hs H32 Hpos fi oi ci. slot_setup this Hs.
  cbn [flag owner recursionCount] in *. subst fi oi ci. cbv zeta.
  rewrite unlock_owned by assumption.
  destruct (Z.eqb_spec c 1) as [-> | Hc1].
  - erewrite unlock_loop_releases by (cell_solve || lia). cbn [fst snd].
    split; [reflexivity | split; [| split]].
    + apply slot_intro; cell_solve.
    + frame_solve.
    + cbn [events log put]. rewrite <- !app_assoc. reflexivity.
  - erewrite unlock_loop_shallower by (cell_solve || lia || assumption).
    cbn [fst snd]. split; [reflexivity | split; [| split]].
    + apply slot_intro; cell_solve.
    + frame_solve.
    + cbn [events log put]. rewrite <- !app_assoc. reflexivity.
Qed.

(** C4.  [unlock()] by the owner: a counter that is 0 or less raises
    MUTEX_RECURSION_COUNT_UNDERFLOW and nothing is written; otherwise the
    counter goes from [c] to [c - 1] by one compare-and-swap, the call
    returns, and every value the call writes to the counter cell is 0 or
    more and is the exact difference, not a wrapped one. *)
Theorem unlock_counter_guard (threadId : Z) (this : WorkerMutex.t) (fuel : nat)
        (w : World) (c : Z) :
  slot (i32 w) this = Some (mkSlot 1 (WorkerMutex.selfId threadId) c) ->
  is_int32 c ->
  let ci := WorkerMutex.countIndex this in
  let r := WorkerMutex.unlock threadId this (S fuel) w in
  (c <= 0 ->
   fst r = Throw (WorkerMutexError MUTEX_RECURSION_COUNT_UNDERFLOW)
   /\ i32 (snd r) = i32 w)
  /\ (0 < c ->
      fst r = Return tt
      /\ cell (i32 (snd r)) ci = Some (c - 1)
      /\ In (ECompareExchange ci c (c - 1) c) (events (snd r)))
  /\ (forall (evs : list Event) (e : Event) (v : Z),
        events (snd r) = events w ++ evs ->
        In e evs -> writes e = Some (ci, v) -> 0 <= v).
Proof.
  intros Hs H32 ci r. subst r.
  destruct (Z_le_gt_dec c 0) as [Hle | Hpos].
  - slot_setup this Hs. cbn [flag owner recursionCount] in *.
    rewrite unlock_owned by assumption.
    erewrite unlock_loop_underflow by (cell_solve || lia).
    cbn [fst snd i32 log events]. repeat split; try lia.
    intros evs e v Hevs Hin Hw. rewrite <- !app_assoc in Hevs.
    apply app_inv_head in Hevs. subst evs.
    cbn in Hin. destruct Hin as [<- | [<- | [<- | []]]]; discriminate.
  - destruct (unlock_events threadId this fuel w c Hs H32 ltac:(lia))
      as (Hret & Hslot & _ & Hevents).
    split; [lia | split].
    + intros _. split; [assumption | split].
      * apply slot_cells in Hslot as (_ & _ & Hc).
        fold ci in Hc. rewrite Hc. now destruct (c =? 1) eqn:E; [apply Z.eqb_eq in E; subst |].
      * rewrite Hevents. apply in_or_app. right. apply in_or_app. left.
        cbn. auto.
    + intros evs e v Hevs Hin Hw. rewrite Hevents in Hevs.
      apply app_inv_head in Hevs. subst evs.
      destruct (slot_indices_distinct this) as (Hfo & Hfc & Hoc). fold ci in Hfc, Hoc.
      assert (H1 : ToInt32 (c - 1) = c - 1)
        by (apply ToInt32_id; unfold is_int32 in *; lia).
      apply in_app_or in Hin. destruct Hin as [Hin | Hin].
      * cbn in Hin. destruct Hin as [<- | [<- | [<- | [<- | []]]]]; try discriminate.
        cbn [writes] in Hw. destruct (c =? ToInt32 c); [| discriminate].
        injection Hw; intros; subst v. lia.
      * destruct (c =? 1); [| contradiction].
        cbn in Hin. destruct Hin as [<- | [<- | [<- | [<- | []]]]];
          cbn [writes] in Hw; try discriminate; injection Hw; intros; subst v;
          change (ToInt32 0) with 0; lia.
Qed.

Lemma notifications_snoc (l : list Event) (e : Event) :
  notifications (l ++ [e]) = (notifications l + if is_notify e then 1 else 0)%nat.
Proof. rewrite notifications_app. unfold notifications. cbn. now destruct (is_notify e). Qed.

(** C10.  A returning [unlock()] that leaves a depth above 0 writes the
    counter cell only: flag and owner are as before and nothing is
    notified.  The [unlock()] that brings the depth to 0 stores 0 to the
    counter, the owner and the flag, in this order, and then notifies once on
    the flag cell.  No other [unlock()] notifies. *)
Theorem unlock_frame_and_notify (threadId : Z) (this : WorkerMutex.t) (fuel : nat)
        (w : World) (s : Slot) :
  slot (i32 w) this = Some s ->
  is_int32 (recursionCount s) ->
  let fi := WorkerMutex.lockIndex this in
  let oi := WorkerMutex.ownerIndex this in
  let ci := WorkerMutex.countIndex this in
  let r := WorkerMutex.unlock threadId this (S fuel) w in
  let owned := flag s = 1 /\ owner s = WorkerMutex.selfId threadId in
  (owned -> 1 < recursionCount s ->
   fst r = Return tt
   /\ i32 (snd r) = <[Z.to_nat ci := recursionCount s - 1]> (i32 w)
   /\ cell (i32 (snd r)) fi = Some (flag s)
   /\ cell (i32 (snd r)) oi = Some (owner s)
   /\ notifications (events (snd r)) = notifications (events w))
  /\ (owned -> recursionCount s = 1 ->
      fst r = Return tt
      /\ slot (i32 (snd r)) this = Some (mkSlot 0 0 0)
      /\ (exists pre : list Event,
            events (snd r) =
            events w ++ pre ++ [EStore ci 0; EStore oi 0; EStore fi 0; ENotify fi 1]
            /\ notifications pre = 0%nat)
      /\ notifications (events (snd r)) = S (notifications (events w)))
  /\ (forall fuel' : nat,
        ~ (owned /\ recursionCount s = 1) ->
        notifications (events (snd (WorkerMutex.unlock threadId this fuel' w))) =
        notifications (events w)).
Proof.
  intros Hs H32 fi oi ci r owned. subst r owned fi oi ci.
  destruct s as [f o c]. cbn [flag owner recursionCount] in *.
  slot_setup this Hs. cbn [flag owner recursionCount] in *.
  split; [| split].
  - intros [-> ->] Hc1.
    rewrite unlock_owned by assumption.
    erewrite unlock_loop_shallower by (cell_solve || lia || assumption).
    cbn [fst snd]. split; [reflexivity | split; [reflexivity |]].
    split; [cell_solve | split; [cell_solve |]].
    cbn [events log put]. rewrite !notifications_snoc. cbn. lia.
  - intros [-> ->] ->.
    rewrite unlock_owned by assumption.
    erewrite unlock_loop_releases by (cell_solve || lia).
    cbn [fst snd]. split; [reflexivity | split; [| split]].
    + apply slot_intro; cell_solve.
    + eexists [_; _; _; _]. cbn [events log put]. rewrite <- !app_assoc.
      split; reflexivity.
    + cbn [events log put]. rewrite !notifications_snoc. cbn. lia.
  - intros fuel' Hnot.
    destruct (Z.eq_dec f 1) as [-> | Hf1];
      [destruct (Z.eq_dec o (WorkerMutex.selfId threadId)) as [-> | Hom] |].
    + rewrite unlock_owned by assumption.
      destruct fuel' as [| fuel'].
      { cbn [WorkerMutex.unlock_loop out_of_fuel snd events log].
        rewrite !notifications_snoc. cbn. lia. }
      destruct (Z_le_gt_dec c 0) as [Hle | Hpos].
      { erewrite unlock_loop_underflow by (cell_solve || lia).
        cbn [snd events log]. rewrite !notifications_snoc. cbn. lia. }
      assert (Hc1 : c <> 1) by (intros ->; apply Hnot; auto).
      erewrite unlock_loop_shallower by (cell_solve || lia || assumption).
      cbn [snd events log put]. rewrite !notifications_snoc. cbn. lia.
    + erewrite unlock_not_owned by (eassumption || tauto).
      cbn [snd events log]. rewrite !notifications_snoc. cbn. lia.
    + erewrite unlock_not_owned by (eassumption || tauto).
      cbn [snd events log]. rewrite !notifications_snoc. cbn. lia.
Qed.

(** ** Re-entrant acquisition *)

(** C5.  [lock()] by the thread that holds the slot: a counter that is 0 or
    less raises MUTEX_RECURSION_COUNT_UNDERFLOW, a counter at
    [2^31 - 1] or above raises MUTEX_RECURSION_COUNT_OVERFLOW, both without
    a write; otherwise the counter goes from [c] to [c + 1] by one
    compare-and-swap and the call returns. *)
Theorem lock_reentrant_counter (threadId : Z) (this : WorkerMutex.t) (fuel : nat)
        (w : World) (c : Z) :
  slot (i32 w) this = Some (mkSlot 1 (WorkerMutex.selfId threadId) c) ->
  let ci := WorkerMutex.countIndex this in
  let r := WorkerMutex.lock threadId this (S fuel) w in
  (c <= 0 ->
   fst r = Throw (WorkerMutexError MUTEX_RECURSION_COUNT_UNDERFLOW)
   /\ i32 (snd r) = i32 w)
  /\ (2 ^ 31 - 1 <= c ->
      fst r = Throw (WorkerMutexError MUTEX_RECURSION_COUNT_OVERFLOW)
      /\ i32 (snd r) = i32 w)
  /\ (0 < c < 2 ^ 31 - 1 ->
      fst r = Return tt
      /\ slot (i32 (snd r)) this =
         Some (mkSlot 1 (WorkerMutex.selfId threadId) (c + 1))
      /\ same_elsewhere this (i32 w) (i32 (snd r))
      /\ In (ECompareExchange ci c (c + 1) c) (events (snd r))).
Proof.
  intros Hs ci r. subst r ci. rewrite lock_prologue.
  rewrite <- (i32_warned threadId w) in Hs |- *.
  slot_setup this Hs. cbn [flag owner recursionCount] in *.
  erewrite lock_loop_owned by eassumption.
  change (2 ^ 31 - 1) with WorkerMutex.MAX_RECURSION_COUNT.
  split; [| split].
  - intros Hle. erewrite incrementRecursionCount_underflow by (cell_solve || lia).
    split; reflexivity.
  - intros Hge. erewrite incrementRecursionCount_overflow by (cell_solve || lia).
    split; reflexivity.
  - intros Hmid. erewrite incrementRecursionCount_increments by (cell_solve || lia).
    cbn [fst snd]. split; [reflexivity | split; [| split]].
    + apply slot_intro; cell_solve.
    + frame_solve.
    + cbn [events log put]. apply in_or_app. right. cbn. auto.
Qed.

(** ** Sequences of calls by one thread *)

Lemma times_S (n : nat) (m : Exec unit) (w : World) :
  times (S n) m w = (times n m;; m) w.
Proof. reflexivity. Qed.

Lemma lock_free_slot (threadId : Z) (this : WorkerMutex.t) (fuel : nat) (w : World)
      (o c : Z) :
  slot (i32 w) this = Some (mkSlot 0 o c) ->
  exists w' : World,
    WorkerMutex.lock threadId this (S fuel) w = (Return tt, w')
    /\ slot (i32 w') this = Some (mkSlot 1 (ToInt32 (WorkerMutex.selfId threadId)) 1)
    /\ same_elsewhere this (i32 w) (i32 w').
Proof.
  intros Hs. rewrite lock_prologue. rewrite <- (i32_warned threadId w) in Hs |- *.
  slot_setup this Hs. cbn [flag owner recursionCount] in *.
  erewrite lock_loop_free by eassumption.
  eexists. split; [reflexivity | split].
  - apply slot_intro; cell_solve.
  - frame_solve.
Qed.

Lemma lock_owned_slot (threadId : Z) (this : WorkerMutex.t) (fuel : nat) (w : World)
      (c : Z) :
  slot (i32 w) this = Some (mkSlot 1 (WorkerMutex.selfId threadId) c) ->
  WorkerMutex.lock threadId this (S fuel) w =
  WorkerMutex.incrementRecursionCount (S fuel) (WorkerMutex.countIndex this)
    (log (ELoad (WorkerMutex.ownerIndex this) (WorkerMutex.selfId threadId))
       (log (ELoad (WorkerMutex.lockIndex this) 1) (warned threadId w))).
Proof.
  intros Hs. rewrite lock_prologue. rewrite <- (i32_warned threadId w) in Hs.
  slot_setup this Hs. cbn [flag owner recursionCount] in *.
  now erewrite lock_loop_owned by eassumption.
Qed.

Lemma lock_enters (threadId : Z) (this : WorkerMutex.t) (fuel : nat) (w : World) (c : Z) :
  slot (i32 w) this = Some (mkSlot 1 (WorkerMutex.selfId threadId) c) ->
  0 < c < WorkerMutex.MAX_RECURSION_COUNT ->
  exists w' : World,
    WorkerMutex.lock threadId this (S fuel) w = (Return tt, w')
    /\ slot (i32 w') this = Some (mkSlot 1 (WorkerMutex.selfId threadId) (c + 1)).
Proof.
  intros Hs Hc. rewrite (lock_owned_slot _ _ _ _ c Hs).
  rewrite <- (i32_warned threadId w) in Hs.
  slot_setup this Hs. cbn [flag owner recursionCount] in *.
  erewrite incrementRecursionCount_increments by (cell_solve || lia).
  eexists. split; [reflexivity |]. apply slot_intro; cell_solve.
Qed.

(** [n] calls of [lock()] on a free slot, [n] up to [2^31 - 1]. *)
Lemma times_lock (threadId : Z) (this : WorkerMutex.t) (fuel : nat) (w : World) (n : nat) :
  is_int32 threadId ->
  slot (i32 w) this = Some (mkSlot 0 0 0) ->
  1 <= Z.of_nat n <= WorkerMutex.MAX_RECURSION_COUNT ->
  exists w' : World,
    times n (WorkerMutex.lock threadId this (S fuel)) w = (Return tt, w')
    /\ slot (i32 w') this =
       Some (mkSlot 1 (WorkerMutex.selfId threadId) (Z.of_nat n)).
Proof.
  intros Hid Hs. induction n as [| n IH]; intros Hn; [lia |].
  rewrite times_S. destruct n as [| n].
  - destruct (lock_free_slot threadId this fuel w 0 0 Hs) as (w' & Hrun & Hs' & _).
    exists w'. cbn [times]. erewrite bind_Return by reflexivity.
    split; [assumption |]. unfold WorkerMutex.selfId in *.
    now rewrite (ToInt32_id threadId Hid) in Hs'.
  - destruct IH as (w1 & Hrun & Hs1); [lia |].
    destruct (lock_enters threadId this fuel w1 _ Hs1) as (w' & Hrun' & Hs'); [lia |].
    exists w'. erewrite bind_Return by exact Hrun.
    split; [assumption |].
    replace (Z.of_nat (S (S n))) with (Z.of_nat (S n) + 1) by lia. assumption.
Qed.

(** [k] calls of [unlock()] by the owner of a slot held [c] times over. *)
Lemma times_unlock (threadId : Z) (this : WorkerMutex.t) (fuel : nat) (w : World)
      (c : Z) (k : nat) :
  slot (i32 w) this = Some (mkSlot 1 (WorkerMutex.selfId threadId) c) ->
  is_int32 c -> 1 <= c -> Z.of_nat k <= c ->
  exists w' : World,
    times k (WorkerMutex.unlock threadId this (S fuel)) w = (Return tt, w')
    /\ slot (i32 w') this =
       Some (if Z.of_nat k <? c
             then mkSlot 1 (WorkerMutex.selfId threadId) (c - Z.of_nat k)
             else mkSlot 0 0 0).
Proof.
  intros Hs H32 Hc. induction k as [| k IH]; intros Hk.
  - exists w. split; [reflexivity |].
    destruct (Z.ltb_spec (Z.of_nat 0) c) as [Hlt | Hge]; [| cbn in Hge; lia].
    now rewrite Z.sub_0_r.
  - destruct IH as (w1 & Hrun & Hs1); [lia |].
    destruct (Z.ltb_spec (Z.of_nat k) c) as [Hlt | Hge]; [| lia].
    assert (H32' : is_int32 (c - Z.of_nat k)) by (unfold is_int32 in *; lia).
    destruct (unlock_events threadId this fuel w1 _ Hs1 H32' ltac:(lia))
      as (Hret & Hs' & _ & _).
    destruct (WorkerMutex.unlock threadId this (S fuel) w1) as [r w'] eqn:Hcall.
    cbn [fst snd] in Hret, Hs'. subst r.
    exists w'. rewrite times_S. erewrite bind_Return by exact Hrun.
    split; [assumption |]. rewrite Hs'.
    destruct (Z.eqb_spec (c - Z.of_nat k) 1) as [Hlast | Hmore],
      (Z.ltb_spec (Z.of_nat (S k)) c) as [Hlt' | Hge']; try lia; try reflexivity.
    do 2 f_equal. lia.
Qed.

(** C2, as the code has it.  For every [n] from 1 to [2^31 - 1], [n] calls
    of [lock()] by one thread on a free slot return and leave
    [flag = 1], [owner] the identifier of the thread and
    [recursionCount = n]; each of the following calls of [unlock()] by that
    thread returns and takes 1 off the counter, and the [n]-th leaves the
    three cells at 0. *)
Theorem reentrant_lock_unlock (threadId : Z) (this : WorkerMutex.t) (fuel : nat)
        (w : World) (n k : nat) :
  0 <= threadId <= 2147483647 ->
  slot (i32 w) this = Some (mkSlot 0 0 0) ->
  1 <= Z.of_nat n <= 2 ^ 31 - 1 ->
  (k <= n)%nat ->
  exists w1 w2 : World,
    times n (WorkerMutex.lock threadId this (S fuel)) w = (Return tt, w1)
    /\ slot (i32 w1) this =
       Some (mkSlot 1 (WorkerMutex.selfId threadId) (Z.of_nat n))
    /\ times k (WorkerMutex.unlock threadId this (S fuel)) w1 = (Return tt, w2)
    /\ slot (i32 w2) this =
       Some (if (k <? n)%nat
             then mkSlot 1 (WorkerMutex.selfId threadId) (Z.of_nat n - Z.of_nat k)
             else mkSlot 0 0 0).
Proof.
  intros Hid Hs Hn Hk.
  change (2 ^ 31 - 1) with WorkerMutex.MAX_RECURSION_COUNT in Hn.
  destruct (times_lock threadId this fuel w n) as (w1 & Hrun1 & Hs1);
    [unfold is_int32; lia | assumption | assumption |].
  destruct (times_unlock threadId this fuel w1 (Z.of_nat n) k Hs1) as (w2 & Hrun2 & Hs2);
    [unfold is_int32, WorkerMutex.MAX_RECURSION_COUNT in *; lia | lia | lia |].
  exists w1, w2. repeat split; try assumption.
  rewrite Hs2.
  destruct (Z.ltb_spec (Z.of_nat k) (Z.of_nat n)), (Nat.ltb_spec k n);
    try lia; reflexivity.
Qed.

Lemma reentrant_lock_unlock_witness :
  0 <= 7 <= 2147483647
  /\ slot (i32 example_world) example_mutex = Some (mkSlot 0 0 0)
  /\ 1 <= Z.of_nat 3 <= 2 ^ 31 - 1
  /\ (2 <= 3)%nat
  /\ exists w1 w2 : World,
       times 3 (WorkerMutex.lock 7 example_mutex 1) example_world = (Return tt, w1)
       /\ slot (i32 w1) example_mutex = Some (mkSlot 1 (WorkerMutex.selfId 7) (Z.of_nat 3))
       /\ times 2 (WorkerMutex.unlock 7 example_mutex 1) w1 = (Return tt, w2)
       /\ slot (i32 w2) example_mutex =
          Some (if (2 <? 3)%nat
                then mkSlot 1 (WorkerMutex.selfId 7) (Z.of_nat 3 - Z.of_nat 2)
                else mkSlot 0 0 0).
Proof.
  split; [lia | split; [reflexivity | split; [cbn; lia | split; [lia |]]]].
  apply (reentrant_lock_unlock 7 example_mutex 0 example_world 3 2).
  - lia.
  - reflexivity.
  - cbn. lia.
  - lia.
Defined.

(** One call of [lock()] more than the counter can hold. *)
Lemma times_lock_overflow (threadId : Z) (this : WorkerMutex.t) (fuel : nat) (w : World)
      (n : nat) :
  is_int32 threadId ->
  slot (i32 w) this = Some (mkSlot 0 0 0) ->
  Z.of_nat n = WorkerMutex.MAX_RECURSION_COUNT ->
  fst (times (S n) (WorkerMutex.lock threadId this (S fuel)) w) =
    Throw (WorkerMutexError MUTEX_RECURSION_COUNT_OVERFLOW)
  /\ slot (i32 (snd (times (S n) (WorkerMutex.lock threadId this (S fuel)) w))) this =
     Some (mkSlot 1 (WorkerMutex.selfId threadId) WorkerMutex.MAX_RECURSION_COUNT).
Proof.
  intros Hid Hs Hn. rewrite times_S.
  destruct (times_lock threadId this fuel w n Hid Hs) as (w1 & Hrun & Hs1);
    [rewrite Hn; unfold WorkerMutex.MAX_RECURSION_COUNT; lia |].
  rewrite Hn in Hs1.
  rewrite (bind_Return _ _ _ _ _ Hrun).
  rewrite (lock_owned_slot threadId this fuel w1 _ Hs1).
  rewrite <- (i32_warned threadId w1) in Hs1.
  destruct (slot_cells _ _ _ Hs1) as (Hf & Ho & Hc).
  cbn [flag owner recursionCount] in *.
  erewrite incrementRecursionCount_overflow by (cell_solve || lia).
  cbn [fst snd i32 log]. split; [reflexivity | exact Hs1].
Qed.

(** C2 as the specification words it, at [N = 2^31]: the last of [2^31] calls of [lock()]
    throws MUTEX_RECURSION_COUNT_OVERFLOW and the counter is [2^31 - 1],
    not [2^31]. *)
Lemma reentrant_lock_unlock_counterexample :
  fst (times (Z.to_nat 2147483648) (WorkerMutex.lock 1 example_mutex 1) example_world) =
    Throw (WorkerMutexError MUTEX_RECURSION_COUNT_OVERFLOW)
  /\ slot (i32 (snd (times (Z.to_nat 2147483648) (WorkerMutex.lock 1 example_mutex 1)
                       example_world))) example_mutex <>
     Some (mkSlot 1 (WorkerMutex.selfId 1) 2147483648).
Proof.
  replace (Z.to_nat 2147483648) with (S (Z.to_nat 2147483647)) by lia.
  destruct (times_lock_overflow 1 example_mutex 0 example_world (Z.to_nat 2147483647))
    as [Hthrow Hslot].
  - unfold is_int32. lia.
  - reflexivity.
  - unfold WorkerMutex.MAX_RECURSION_COUNT. lia.
  - split; [exact Hthrow |]. rewrite Hslot. discriminate.
Qed.

(** ** The owner identifier of the two-cell class *)

Lemma bitor0_id (z : Z) : is_int32 z -> bitor0 z = z.
Proof. intros H. unfold bitor0. rewrite Z.lor_0_r. now apply ToInt32_id. Qed.

Lemma TwoCell_selfId_value (threadId : Z) :
  0 <= threadId < 2147483647 ->
  TwoCell.selfId threadId = threadId + 1
  /\ 0 < TwoCell.selfId threadId
  /\ ToInt32 (TwoCell.selfId threadId) = TwoCell.selfId threadId.
Proof.
  intros H. unfold TwoCell.selfId.
  rewrite bitor0_id by (unfold is_int32; lia).
  repeat split; [lia |]. apply ToInt32_id. unfold is_int32. lia.
Qed.

Lemma stores_only_nil (i v : Z) : stores_only i v [].
Proof. intros e x []. Qed.

Lemma stores_only_cons (i v : Z) (e : Event) (evs : list Event) :
  (forall x : Z, writes e = Some (i, x) -> x = v) ->
  stores_only i v evs -> stores_only i v (e :: evs).
Proof.
  intros He Hevs e' x [<- | Hin] Hw; [now apply He | now apply (Hevs e')].
Qed.

Section TwoCellAcquire.

Variables (oi ci me : Z).
Hypothesis Hoc : oi <> ci.
Hypothesis Hme : me <> 0.
Hypothesis Hme32 : ToInt32 me = me.

(** The world after the acquisition of an unowned slot. *)
Let acquired (w : World) : World :=
  log (EStore ci 1) (put ci 1
    (log (ECompareExchange oi 0 me 0) (put oi me (log (ELoad oi 0) w)))).

(** The world after a re-entrant acquisition. *)
Let entered (c : Z) (w : World) : World :=
  log (EAdd ci 1 c) (put ci (ToInt32 (c + 1)) (log (ELoad oi me) w)).

Lemma TwoCell_lock_loop_unowned (fuel : nat) (w : World) (c : Z) :
  cell (i32 w) oi = Some 0 -> cell (i32 w) ci = Some c ->
  TwoCell.lock_loop (S fuel) oi ci me w = (Return tt, acquired w).
Proof.
  intros Ho Hc. pose proof (cell_Some_range _ _ _ Ho).
  cbn [TwoCell.lock_loop]. step_with Atomics_load_run.
  destruct (Z.eqb_spec 0 me) as [Heq | _]; [congruence |]. cbn [Z.eqb].
  erewrite bind_Return
    by (eapply (Atomics_compareExchange_hit oi 0 me); cell_solve).
  change (ToInt32 0) with 0. cbn [Z.eqb]. rewrite Hme32.
  step_with Atomics_store_run. reflexivity.
Qed.

Lemma TwoCell_lock_loop_owned (fuel : nat) (w : World) (c : Z) :
  cell (i32 w) oi = Some me -> cell (i32 w) ci = Some c ->
  TwoCell.lock_loop (S fuel) oi ci me w = (Return tt, entered c w).
Proof.
  intros Ho Hc. cbn [TwoCell.lock_loop]. step_with Atomics_load_run.
  rewrite Z.eqb_refl. step_with Atomics_add_run. reflexivity.
Qed.

Lemma TwoCell_lock_loop_held (fuel : nat) (w : World) (o c : Z) :
  cell (i32 w) oi = Some o -> cell (i32 w) ci = Some c ->
  o <> 0 -> o <> me -> ToInt32 o = o ->
  TwoCell.lock_loop (S fuel) oi ci me w =
  (Blocked, log (EWait oi o) (log (ELoad oi o) w)).
Proof.
  intros Ho Hc Ho0 Hom Ho32. cbn [TwoCell.lock_loop]. step_with Atomics_load_run.
  destruct (Z.eqb_spec o me) as [Heq | _]; [contradiction |].
  destruct (Z.eqb_spec o 0) as [Heq | _]; [contradiction |].
  erewrite bind_Blocked by (eapply Atomics_wait_blocks; rewrite Ho32; cell_solve).
  reflexivity.
Qed.

End TwoCellAcquire.

Section TwoCellAcquireAsync.

Variables (oi ci me : Z).
Hypothesis Hoc : oi <> ci.
Hypothesis Hme : me <> 0.
Hypothesis Hme32 : ToInt32 me = me.

Lemma TwoCell_poll_loop_held (fuel : nat) (w : World) (o c delay : Z) :
  cell (i32 w) oi = Some o -> cell (i32 w) ci = Some c ->
  o <> 0 -> o <> me ->
  exists evs : list Event,
    TwoCell.lockAsync_poll_loop fuel oi ci me delay w =
    (OutOfFuel, mkWorld (i32 w) (mainThreadWarningShown w) (events w ++ evs))
    /\ stores_only oi me evs.
Proof.
  revert w delay. induction fuel as [| fuel IH]; intros w delay Ho Hc Ho0 Hom.
  - exists []. rewrite app_nil_r. destruct w. split; [reflexivity | apply stores_only_nil].
  - cbn [TwoCell.lockAsync_poll_loop]. step_with Atomics_load_run.
    destruct (Z.eqb_spec o me) as [Heq | _]; [contradiction |].
    destruct (Z.eqb_spec o 0) as [Heq | _]; [contradiction |].
    erewrite bind_Return by reflexivity. cbv beta iota.
    erewrite bind_Return by apply sleep_run.
    edestruct (IH (log (ESleep delay) (log (ELoad oi o) w))) as (evs & Hrun & Hst);
      [cell_solve | cell_solve | exact Ho0 | exact Hom |].
    rewrite Hrun. exists (ELoad oi o :: ESleep delay :: evs).
    cbn [i32 log events mainThreadWarningShown]. rewrite <- !app_assoc.
    split; [reflexivity |].
    apply stores_only_cons; [discriminate |].
    apply stores_only_cons; [discriminate | assumption].
Qed.

Lemma TwoCell_waitAsync_loop_held (fuel : nat) (w : World) (o c : Z) :
  cell (i32 w) oi = Some o -> cell (i32 w) ci = Some c ->
  o <> 0 -> o <> me -> ToInt32 o = o ->
  exists evs : list Event,
    i32 (snd (TwoCell.lockAsync_waitAsync_loop fuel oi ci me w)) = i32 w
    /\ events (snd (TwoCell.lockAsync_waitAsync_loop fuel oi ci me w)) = events w ++ evs
    /\ stores_only oi me evs.
Proof.
  intros Ho Hc Ho0 Hom Ho32. destruct fuel as [| fuel].
  - exists []. rewrite app_nil_r. repeat split. apply stores_only_nil.
  - cbn [TwoCell.lockAsync_waitAsync_loop]. step_with Atomics_load_run.
    destruct (Z.eqb_spec o me) as [Heq | _]; [contradiction |].
    destruct (Z.eqb_spec o 0) as [Heq | _]; [contradiction |].
    erewrite bind_Return by reflexivity. cbv beta iota.
    erewrite bind_Return
      by (eapply Atomics_waitAsync_pending; rewrite Ho32; cell_solve).
    cbv beta iota. erewrite bind_Blocked by reflexivity.
    exists [ELoad oi o; EWaitAsync oi o]. cbn [snd i32 log events].
    rewrite <- !app_assoc. repeat split.
    apply stores_only_cons; [discriminate |].
    apply stores_only_cons; [discriminate | apply stores_only_nil].
Qed.

Lemma TwoCell_waitAsync_loop_unowned (fuel : nat) (w : World) (c : Z) :
  cell (i32 w) oi = Some 0 -> cell (i32 w) ci = Some c ->
  TwoCell.lockAsync_waitAsync_loop (S fuel) oi ci me w =
  (Return tt,
   log (EStore ci 1) (put ci 1
     (log (ECompareExchange oi 0 me 0) (put oi me (log (ELoad oi 0) w))))).
Proof.
  intros Ho Hc. pose proof (cell_Some_range _ _ _ Ho).
  cbn [TwoCell.lockAsync_waitAsync_loop]. step_with Atomics_load_run.
  destruct (Z.eqb_spec 0 me) as [Heq | _]; [congruence |]. cbn [Z.eqb].
  erewrite bind_Return
    by (eapply (bind_mret _ (fun old => old =? 0));
        eapply (Atomics_compareExchange_hit _ 0); cell_solve).
  change (ToInt32 0) with 0. cbn [Z.eqb]. rewrite Hme32.
  step_with Atomics_store_run. reflexivity.
Qed.

Lemma TwoCell_poll_loop_unowned (fuel : nat) (w : World) (c delay : Z) :
  cell (i32 w) oi = Some 0 -> cell (i32 w) ci = Some c ->
  TwoCell.lockAsync_poll_loop (S fuel) oi ci me delay w =
  (Return tt,
   log (EStore ci 1) (put ci 1
     (log (ECompareExchange oi 0 me 0) (put oi me (log (ELoad oi 0) w))))).
Proof.
  intros Ho Hc. pose proof (cell_Some_range _ _ _ Ho).
  cbn [TwoCell.lockAsync_poll_loop]. step_with Atomics_load_run.
  destruct (Z.eqb_spec 0 me) as [Heq | _]; [congruence |]. cbn [Z.eqb].
  erewrite bind_Return
    by (eapply (bind_mret _ (fun old => old =? 0));
        eapply (Atomics_compareExchange_hit _ 0); cell_solve).
  change (ToInt32 0) with 0. cbn [Z.eqb]. rewrite Hme32.
  step_with Atomics_store_run. reflexivity.
Qed.

Lemma TwoCell_waitAsync_loop_owned (fuel : nat) (w : World) (c : Z) :
  cell (i32 w) oi = Some me -> cell (i32 w) ci = Some c ->
  TwoCell.lockAsync_waitAsync_loop (S fuel) oi ci me w =
  (Return tt, log (EAdd ci 1 c) (put ci (ToInt32 (c + 1)) (log (ELoad oi me) w))).
Proof.
  intros Ho Hc. cbn [TwoCell.lockAsync_waitAsync_loop]. step_with Atomics_load_run.
  rewrite Z.eqb_refl. step_with Atomics_add_run. reflexivity.
Qed.

Lemma TwoCell_poll_loop_owned (fuel : nat) (w : World) (c delay : Z) :
  cell (i32 w) oi = Some me -> cell (i32 w) ci = Some c ->
  TwoCell.lockAsync_poll_loop (S fuel) oi ci me delay w =
  (Return tt, log (EAdd ci 1 c) (put ci (ToInt32 (c + 1)) (log (ELoad oi me) w))).
Proof.
  intros Ho Hc. cbn [TwoCell.lockAsync_poll_loop]. step_with Atomics_load_run.
  rewrite Z.eqb_refl. step_with Atomics_add_run. reflexivity.
Qed.

End TwoCellAcquireAsync.

Lemma TwoCell_indices_distinct (this : TwoCell.t) :
  TwoCell.ownerIndex this <> TwoCell.countIndex this.
Proof.
  unfold TwoCell.ownerIndex, TwoCell.countIndex, TwoCell.OWNER_OFFSET,
    TwoCell.COUNT_OFFSET. lia.
Qed.

Lemma TwoCell_lockAsync_unowned (hasWaitAsync : bool) (threadId : Z) (this : TwoCell.t)
      (fuel : nat) (w : World) (c : Z) :
  TwoCell.selfId threadId <> 0 ->
  ToInt32 (TwoCell.selfId threadId) = TwoCell.selfId threadId ->
  cell (i32 w) (TwoCell.ownerIndex this) = Some 0 ->
  cell (i32 w) (TwoCell.countIndex this) = Some c ->
  TwoCell.lockAsync hasWaitAsync threadId this fuel w =
  (Return tt,
   log (EStore (TwoCell.countIndex this) 1) (put (TwoCell.countIndex this) 1
     (log (ECompareExchange (TwoCell.ownerIndex this) 0 (TwoCell.selfId threadId) 0)
        (put (TwoCell.ownerIndex this) (TwoCell.selfId threadId)
           (log (ELoad (TwoCell.ownerIndex this) 0) w))))).
Proof.
  intros Hme Hme32 Ho Hc. pose proof (cell_Some_range _ _ _ Ho).
  pose proof (TwoCell_indices_distinct this).
  unfold TwoCell.lockAsync. step_with Atomics_load_run.
  destruct (Z.eqb_spec 0 (TwoCell.selfId threadId)) as [Heq | _]; [congruence |].
  cbn [Z.eqb].
  erewrite bind_Return
    by (eapply (bind_mret _ (fun old => old =? 0));
        eapply (Atomics_compareExchange_hit _ 0); cell_solve).
  change (ToInt32 0) with 0. cbn [Z.eqb]. rewrite Hme32.
  step_with Atomics_store_run. reflexivity.
Qed.

Lemma TwoCell_lockAsync_owned (hasWaitAsync : bool) (threadId : Z) (this : TwoCell.t)
      (fuel : nat) (w : World) (c : Z) :
  cell (i32 w) (TwoCell.ownerIndex this) = Some (TwoCell.selfId threadId) ->
  cell (i32 w) (TwoCell.countIndex this) = Some c ->
  TwoCell.lockAsync hasWaitAsync threadId this fuel w =
  (Return tt,
   log (EAdd (TwoCell.countIndex this) 1 c)
     (put (TwoCell.countIndex this) (ToInt32 (c + 1))
        (log (ELoad (TwoCell.ownerIndex this) (TwoCell.selfId threadId)) w))).
Proof.
  intros Ho Hc. unfold TwoCell.lockAsync.
  step_with Atomics_load_run. rewrite Z.eqb_refl.
  step_with Atomics_add_run. reflexivity.
Qed.

Lemma TwoCell_lockAsync_held (hasWaitAsync : bool) (threadId : Z) (this : TwoCell.t)
      (fuel : nat) (w : World) (o c : Z) :
  cell (i32 w) (TwoCell.ownerIndex this) = Some o ->
  cell (i32 w) (TwoCell.countIndex this) = Some c ->
  o <> 0 -> o <> TwoCell.selfId threadId ->
  TwoCell.lockAsync hasWaitAsync threadId this fuel w =
  (if hasWaitAsync
   then TwoCell.lockAsync_waitAsync_loop fuel (TwoCell.ownerIndex this)
          (TwoCell.countIndex this) (TwoCell.selfId threadId)
   else TwoCell.lockAsync_poll_loop fuel (TwoCell.ownerIndex this)
          (TwoCell.countIndex this) (TwoCell.selfId threadId) 0)
    (log (ELoad (TwoCell.ownerIndex this) o) w).
Proof.
  intros Ho Hc Ho0 Hom. unfold TwoCell.lockAsync.
  step_with Atomics_load_run.
  destruct (Z.eqb_spec o (TwoCell.selfId threadId)) as [Heq | _]; [contradiction |].
  destruct (Z.eqb_spec o 0) as [Heq | _]; [contradiction |].
  erewrite bind_Return by reflexivity. cbv beta iota.
  now destruct hasWaitAsync.
Qed.

Lemma TwoCell_unlock_last (threadId : Z) (this : TwoCell.t) (w : World) :
  cell (i32 w) (TwoCell.ownerIndex this) = Some (TwoCell.selfId threadId) ->
  cell (i32 w) (TwoCell.countIndex this) = Some 1 ->
  fst (TwoCell.unlock threadId this w) = Return tt
  /\ cell (i32 (snd (TwoCell.unlock threadId this w))) (TwoCell.ownerIndex this) = Some 0
  /\ cell (i32 (snd (TwoCell.unlock threadId this w))) (TwoCell.countIndex this) = Some 0.
Proof.
  intros Ho Hc. pose proof (TwoCell_indices_distinct this).
  pose proof (cell_Some_range _ _ _ Ho). pose proof (cell_Some_range _ _ _ Hc).
  unfold TwoCell.unlock. step_with Atomics_load_run. rewrite Z.eqb_refl. cbn [negb].
  step_with Atomics_sub_run. change (1 - 1 >? 0) with false. cbv beta iota.
  step_with Atomics_store_run. step_with Atomics_store_run.
  erewrite Atomics_notify_run by cell_solve.
  cbn [fst snd]. change (ToInt32 0) with 0. repeat split; cell_solve.
Qed.

Lemma stores_only_acquired (oi ci me : Z) :
  oi <> ci -> ToInt32 me = me ->
  stores_only oi me [ELoad oi 0; ECompareExchange oi 0 me 0; EStore ci 1].
Proof.
  intros Hoc Hme32.
  apply stores_only_cons; [discriminate |].
  apply stores_only_cons.
  { cbn [writes]. change (ToInt32 0) with 0. cbn [Z.eqb].
    intros x Hx. injection Hx as <-. exact Hme32. }
  apply stores_only_cons; [| apply stores_only_nil].
  cbn [writes]. intros x Hx. injection Hx as Hi _. congruence.
Qed.

Lemma stores_only_entered (oi ci me c : Z) :
  oi <> ci -> stores_only oi me [ELoad oi me; EAdd ci 1 c].
Proof.
  intros Hoc.
  apply stores_only_cons; [discriminate |].
  apply stores_only_cons; [| apply stores_only_nil].
  cbn [writes]. intros x Hx. injection Hx as Hi _. congruence.
Qed.

Lemma TwoCell_resume_writes (hasWaitAsync : bool) (threadId : Z) (this : TwoCell.t)
      (delay : Z) (fuel : nat) (w : World) (o c : Z) :
  0 <= threadId < 2147483647 ->
  cell (i32 w) (TwoCell.ownerIndex this) = Some o ->
  cell (i32 w) (TwoCell.countIndex this) = Some c ->
  is_int32 o ->
  let oi := TwoCell.ownerIndex this in
  let ci := TwoCell.countIndex this in
  let me := TwoCell.selfId threadId in
  let r := TwoCell_resume hasWaitAsync threadId this delay (S fuel) w in
  (exists evs : list Event,
     events (snd r) = events w ++ evs /\ stores_only oi me evs)
  /\ (o = 0 ->
      fst r = Return tt
      /\ cell (i32 (snd r)) oi = Some me
      /\ cell (i32 (snd r)) ci = Some 1
      /\ events (snd r) =
         events w ++ [ELoad oi 0; ECompareExchange oi 0 me 0; EStore ci 1]
      /\ fst (TwoCell.unlock threadId this (snd r)) = Return tt
      /\ cell (i32 (snd (TwoCell.unlock threadId this (snd r)))) oi = Some 0)
  /\ (o = me ->
      fst r = Return tt
      /\ cell (i32 (snd r)) oi = Some me
      /\ cell (i32 (snd r)) ci = Some (ToInt32 (c + 1))
      /\ events (snd r) = events w ++ [ELoad oi me; EAdd ci 1 c]).
Proof.
  intros Hid Ho Hc Ho32 oi ci me r.
  destruct (TwoCell_selfId_value threadId Hid) as (Hval & Hpos & Hme32).
  fold me in Hval, Hpos, Hme32.
  assert (Hme : me <> 0) by lia.
  pose proof (TwoCell_indices_distinct this) as Hoc. fold oi ci in Hoc, Ho, Hc.
  pose proof (cell_Some_range _ _ _ Ho). pose proof (cell_Some_range _ _ _ Hc).
  destruct (Z.eq_dec o 0) as [-> | Ho0]; [| destruct (Z.eq_dec o me) as [-> | Hom]].
  - (* the slot has been released: the thread takes it *)
    assert (Hr : r = (Return tt,
                      log (EStore ci 1) (put ci 1
                        (log (ECompareExchange oi 0 me 0) (put oi me (log (ELoad oi 0) w)))))).
    { subst r. unfold TwoCell_resume. fold oi ci me. destruct hasWaitAsync.
      - now apply TwoCell_waitAsync_loop_unowned with (c := c).
      - now apply TwoCell_poll_loop_unowned with (c := c). }
    rewrite Hr. cbn [fst snd events log put]. rewrite <- !app_assoc.
    split; [| split; [| intros; congruence]].
    + eexists. split; [reflexivity |]. now apply stores_only_acquired.
    + intros _.
      destruct (TwoCell_unlock_last threadId this
                  (log (EStore ci 1) (put ci 1
                     (log (ECompareExchange oi 0 me 0) (put oi me (log (ELoad oi 0) w))))))
        as (Hret & Hzero & _); [cell_solve | cell_solve |].
      split; [reflexivity | split; [cell_solve | split; [cell_solve |]]].
      split; [reflexivity | split; [exact Hret | exact Hzero]].
  - (* the thread holds the slot: it re-enters, the owner cell is not written *)
    assert (Hr : r = (Return tt,
                      log (EAdd ci 1 c) (put ci (ToInt32 (c + 1)) (log (ELoad oi me) w)))).
    { subst r. unfold TwoCell_resume. fold oi ci me. destruct hasWaitAsync.
      - now apply TwoCell_waitAsync_loop_owned.
      - now apply TwoCell_poll_loop_owned. }
    rewrite Hr. cbn [fst snd events log put]. rewrite <- !app_assoc.
    split; [| split; [intros; contradiction |]].
    + eexists. split; [reflexivity |]. now apply stores_only_entered.
    + intros _. split; [reflexivity | split; [cell_solve | split; [cell_solve | reflexivity]]].
  - (* another thread holds the slot: nothing is written *)
    split; [| split; intros; contradiction].
    assert (Ho32' : ToInt32 o = o) by now apply ToInt32_id.
    subst r. unfold TwoCell_resume. fold oi ci me. destruct hasWaitAsync.
    + destruct (TwoCell_waitAsync_loop_held oi ci me (S fuel) w o c)
        as (evs & _ & Hevs & Hst); try assumption.
      exists evs. now split.
    + destruct (TwoCell_poll_loop_held oi ci me (S fuel) w o c delay)
        as (evs & Hrun & Hst); try assumption.
      exists evs. rewrite Hrun. now split.
Qed.

(** C9.  The identifier a thread of the two-cell class writes into the
    owner cell is [(threadId | 0) + 1], which is [threadId + 1] and above 0,
    also for the main thread with [threadId = 0]: every write of [lock()]
    or [lockAsync()] to the owner cell stores it, in the first attempt and
    in every round of the loops a waiting [lockAsync()] resumes in.  On a
    slot whose owner cell is 0 the test [owner === me] fails and the call
    takes the compare-and-swap path: it returns with the owner cell at the
    identifier and the counter at 1, whatever the counter was, and the
    [unlock()] that follows puts the owner cell back to 0.  On a slot whose
    owner cell is the identifier the call adds 1 to the counter and leaves
    the owner cell. *)
Theorem owner_identifier_positive (async : option bool) (threadId : Z) (this : TwoCell.t)
        (fuel : nat) (w : World) (o c : Z) :
  0 <= threadId < 2147483647 ->
  cell (i32 w) (TwoCell.ownerIndex this) = Some o ->
  cell (i32 w) (TwoCell.countIndex this) = Some c ->
  is_int32 o ->
  let oi := TwoCell.ownerIndex this in
  let ci := TwoCell.countIndex this in
  let me := TwoCell.selfId threadId in
  let r := TwoCell_acquire async threadId this (S fuel) w in
  me = threadId + 1
  /\ 0 < me
  /\ OwnerFirst.selfId threadId = me
  /\ (exists evs : list Event,
        events (snd r) = events w ++ evs /\ stores_only oi me evs)
  /\ (o = 0 ->
      fst r = Return tt
      /\ cell (i32 (snd r)) oi = Some me
      /\ cell (i32 (snd r)) ci = Some 1
      /\ events (snd r) =
         events w ++ [ELoad oi 0; ECompareExchange oi 0 me 0; EStore ci 1]
      /\ fst (TwoCell.unlock threadId this (snd r)) = Return tt
      /\ cell (i32 (snd (TwoCell.unlock threadId this (snd r)))) oi = Some 0)
  /\ (o = me ->
      fst r = Return tt
      /\ cell (i32 (snd r)) oi = Some me
      /\ cell (i32 (snd r)) ci = Some (ToInt32 (c + 1))
      /\ events (snd r) = events w ++ [ELoad oi me; EAdd ci 1 c])
  /\ (forall (hasWaitAsync : bool) (delay : Z) (w' : World) (o' c' : Z),
        cell (i32 w') oi = Some o' ->
        cell (i32 w') ci = Some c' ->
        is_int32 o' ->
        let r' := TwoCell_resume hasWaitAsync threadId this delay (S fuel) w' in
        (exists evs : list Event,
           events (snd r') = events w' ++ evs /\ stores_only oi me evs)
        /\ (o' = 0 ->
            fst r' = Return tt
            /\ cell (i32 (snd r')) oi = Some me
            /\ cell (i32 (snd r')) ci = Some 1
            /\ events (snd r') =
               events w' ++ [ELoad oi 0; ECompareExchange oi 0 me 0; EStore ci 1]
            /\ fst (TwoCell.unlock threadId this (snd r')) = Return tt
            /\ cell (i32 (snd (TwoCell.unlock threadId this (snd r')))) oi = Some 0)
        /\ (o' = me ->
            fst r' = Return tt
            /\ cell (i32 (snd r')) oi = Some me
            /\ cell (i32 (snd r')) ci = Some (ToInt32 (c' + 1))
            /\ events (snd r') = events w' ++ [ELoad oi me; EAdd ci 1 c'])).
Proof.
  intros Hid Ho Hc Ho32 oi ci me r.
  destruct (TwoCell_selfId_value threadId Hid) as (Hval & Hpos & Hme32).
  fold me in Hval, Hpos, Hme32.
  assert (Hme : me <> 0) by lia.
  pose proof (TwoCell_indices_distinct this) as Hoc. fold oi ci in Hoc, Ho, Hc.
  pose proof (cell_Some_range _ _ _ Ho). pose proof (cell_Some_range _ _ _ Hc).
  split; [exact Hval | split; [exact Hpos | split; [reflexivity |]]].
  assert (Hresumed :
            forall (hasWaitAsync : bool) (delay : Z) (w' : World) (o' c' : Z),
              cell (i32 w') oi = Some o' ->
              cell (i32 w') ci = Some c' ->
              is_int32 o' ->
              let r' := TwoCell_resume hasWaitAsync threadId this delay (S fuel) w' in
              (exists evs : list Event,
                 events (snd r') = events w' ++ evs /\ stores_only oi me evs)
              /\ (o' = 0 ->
                  fst r' = Return tt
                  /\ cell (i32 (snd r')) oi = Some me
                  /\ cell (i32 (snd r')) ci = Some 1
                  /\ events (snd r') =
                     events w' ++ [ELoad oi 0; ECompareExchange oi 0 me 0; EStore ci 1]
                  /\ fst (TwoCell.unlock threadId this (snd r')) = Return tt
                  /\ cell (i32 (snd (TwoCell.unlock threadId this (snd r')))) oi = Some 0)
              /\ (o' = me ->
                  fst r' = Return tt
                  /\ cell (i32 (snd r')) oi = Some me
                  /\ cell (i32 (snd r')) ci = Some (ToInt32 (c' + 1))
                  /\ events (snd r') = events w' ++ [ELoad oi me; EAdd ci 1 c'])).
  { intros hasWaitAsync delay w' o' c' Ho' Hc' Ho32'.
    exact (TwoCell_resume_writes hasWaitAsync threadId this delay fuel w' o' c'
             Hid Ho' Hc' Ho32'). }
  assert (Hlock_unowned :
            o = 0 ->
            TwoCell.lock threadId this (S fuel) w =
            (Return tt,
             log (EStore ci 1) (put ci 1
               (log (ECompareExchange oi 0 me 0) (put oi me (log (ELoad oi 0) w)))))).
  { intros ->. now apply TwoCell_lock_loop_unowned with (c := c). }
  assert (Hlock_owned :
            o = me ->
            TwoCell.lock threadId this (S fuel) w =
            (Return tt,
             log (EAdd ci 1 c) (put ci (ToInt32 (c + 1)) (log (ELoad oi me) w)))).
  { intros ->. now apply TwoCell_lock_loop_owned. }
  destruct (Z.eq_dec o 0) as [-> | Ho0].
  - (* the slot is unowned *)
    assert (Hr : r = TwoCell.lock threadId this (S fuel) w).
    { subst r. destruct async as [hasWaitAsync |]; [| reflexivity].
      cbn [TwoCell_acquire].
      rewrite (TwoCell_lockAsync_unowned hasWaitAsync threadId this (S fuel) w c)
        by assumption.
      now rewrite Hlock_unowned. }
    rewrite Hr, Hlock_unowned by reflexivity. cbn [fst snd events log put].
    rewrite <- !app_assoc.
    split; [| split; [| split; [intros; congruence | exact Hresumed]]].
    + eexists. split; [reflexivity |]. now apply stores_only_acquired.
    + intros _.
      destruct (TwoCell_unlock_last threadId this
                  (log (EStore ci 1) (put ci 1
                     (log (ECompareExchange oi 0 me 0) (put oi me (log (ELoad oi 0) w))))))
        as (Hret & Hzero & _); [cell_solve | cell_solve |].
      split; [reflexivity | split; [cell_solve | split; [cell_solve |]]].
      split; [reflexivity | split; [exact Hret | exact Hzero]].
  - split; [| split; [intros; contradiction | split; [| exact Hresumed]]].
    + destruct (Z.eq_dec o me) as [-> | Hom].
      * (* the thread re-enters: the owner cell is not written *)
        assert (Hr : r = TwoCell.lock threadId this (S fuel) w).
        { subst r. destruct async as [hasWaitAsync |]; [| reflexivity].
          cbn [TwoCell_acquire].
          rewrite (TwoCell_lockAsync_owned hasWaitAsync threadId this (S fuel) w c)
            by assumption.
          now rewrite Hlock_owned. }
        rewrite Hr, Hlock_owned by reflexivity. cbn [snd events log put].
        rewrite <- !app_assoc. eexists. split; [reflexivity |].
        now apply stores_only_entered.
      * (* another thread holds the slot: nothing is written *)
        assert (Ho32' : ToInt32 o = o) by now apply ToInt32_id.
        subst r. destruct async as [[|] |]; cbn [TwoCell_acquire].
        -- rewrite (TwoCell_lockAsync_held true threadId this (S fuel) w o c)
             by assumption.
           fold oi ci me.
           destruct (TwoCell_waitAsync_loop_held oi ci me (S fuel)
                       (log (ELoad oi o) w) o c) as (evs & _ & Hevs & Hst);
             try assumption.
           exists (ELoad oi o :: evs). rewrite Hevs. cbn [events log].
           rewrite <- app_assoc. split; [reflexivity |].
           apply stores_only_cons; [discriminate | assumption].
        -- rewrite (TwoCell_lockAsync_held false threadId this (S fuel) w o c)
             by assumption.
           fold oi ci me.
           destruct (TwoCell_poll_loop_held oi ci me (S fuel)
                       (log (ELoad oi o) w) o c 0) as (evs & Hrun & Hst);
             try assumption.
           exists (ELoad oi o :: evs). rewrite Hrun. cbn [snd events log].
           rewrite <- app_assoc. split; [reflexivity |].
           apply stores_only_cons; [discriminate | assumption].
        -- unfold TwoCell.lock. fold oi ci me.
           rewrite (TwoCell_lock_loop_held oi ci me fuel w o c) by assumption.
           cbn [snd events log]. rewrite <- app_assoc.
           eexists. split; [reflexivity |].
           apply stores_only_cons; [discriminate |].
           apply stores_only_cons; [discriminate | apply stores_only_nil].
    + (* the thread re-enters *)
      intros ->.
      assert (Hr : r = TwoCell.lock threadId this (S fuel) w).
      { subst r. destruct async as [hasWaitAsync |]; [| reflexivity].
        cbn [TwoCell_acquire].
        rewrite (TwoCell_lockAsync_owned hasWaitAsync threadId this (S fuel) w c)
          by assumption.
        now rewrite Hlock_owned. }
      rewrite Hr, Hlock_owned by reflexivity. cbn [fst snd events log put].
      rewrite <- !app_assoc.
      split; [reflexivity | split; [cell_solve | split; [cell_solve | reflexivity]]].
Qed.

(** ** The theorems at concrete inputs *)

Lemma unlock_rejects_non_owner_witness :
  slot (i32 example_held) example_mutex = Some (mkSlot 1 7 2)
  /\ (flag (mkSlot 1 7 2) <> 1 \/ owner (mkSlot 1 7 2) <> WorkerMutex.selfId 8)
  /\ fst (WorkerMutex.unlock 8 example_mutex 1 example_held) =
     Throw (WorkerMutexError MUTEX_IS_NOT_OWNED_BY_CURRENT_THREAD)
  /\ i32 (snd (WorkerMutex.unlock 8 example_mutex 1 example_held)) = i32 example_held
  /\ slot (i32 (snd (WorkerMutex.unlock 8 example_mutex 1 example_held))) example_mutex =
     Some (mkSlot 1 7 2).
Proof.
  split; [reflexivity | split; [right; discriminate |]].
  apply (unlock_rejects_non_owner 8 example_mutex 1 example_held (mkSlot 1 7 2)).
  - reflexivity.
  - right. discriminate.
Defined.

Lemma unlock_counter_guard_witness :
  slot (i32 example_forced_zero) example_mutex = Some (mkSlot 1 (WorkerMutex.selfId 7) 0)
  /\ is_int32 0
  /\ fst (WorkerMutex.unlock 7 example_mutex 1 example_forced_zero) =
     Throw (WorkerMutexError MUTEX_RECURSION_COUNT_UNDERFLOW)
  /\ i32 (snd (WorkerMutex.unlock 7 example_mutex 1 example_forced_zero)) =
     i32 example_forced_zero.
Proof.
  split; [reflexivity | split; [unfold is_int32; lia |]].
  apply (unlock_counter_guard 7 example_mutex 0 example_forced_zero 0).
  - reflexivity.
  - unfold is_int32. lia.
  - lia.
Defined.

Lemma unlock_frame_and_notify_witness :
  slot (i32 example_held) example_mutex = Some (mkSlot 1 7 2)
  /\ is_int32 (recursionCount (mkSlot 1 7 2))
  /\ fst (WorkerMutex.unlock 7 example_mutex 1 example_held) = Return tt
  /\ i32 (snd (WorkerMutex.unlock 7 example_mutex 1 example_held)) =
     <[Z.to_nat (WorkerMutex.countIndex example_mutex) := 1]> (i32 example_held)
  /\ notifications (events (snd (WorkerMutex.unlock 7 example_mutex 1 example_held))) =
     notifications (events example_held)
  /\ slot (i32 example_held_once) example_mutex = Some (mkSlot 1 7 1)
  /\ slot (i32 (snd (WorkerMutex.unlock 7 example_mutex 1 example_held_once)))
       example_mutex = Some (mkSlot 0 0 0)
  /\ notifications
       (events (snd (WorkerMutex.unlock 7 example_mutex 1 example_held_once))) =
     S (notifications (events example_held_once)).
Proof.
  split; [reflexivity | split; [unfold is_int32; cbn; lia |]].
  destruct (unlock_frame_and_notify 7 example_mutex 0 example_held (mkSlot 1 7 2))
    as [Hdeeper _]; [reflexivity | unfold is_int32; cbn; lia |].
  destruct Hdeeper as (Hret & Hmem & _ & _ & Hnote);
    [split; reflexivity | cbn; lia |].
  destruct (unlock_frame_and_notify 7 example_mutex 0 example_held_once (mkSlot 1 7 1))
    as (_ & Hlast & _); [reflexivity | unfold is_int32; cbn; lia |].
  destruct Hlast as (_ & Hslot & _ & Hnote1); [split; reflexivity | reflexivity |].
  split; [exact Hret | split; [exact Hmem | split; [exact Hnote |]]].
  split; [reflexivity | split; [exact Hslot | exact Hnote1]].
Defined.

Lemma lock_reentrant_counter_witness :
  slot (i32 example_forced_max) example_mutex =
    Some (mkSlot 1 (WorkerMutex.selfId 7) 2147483647)
  /\ fst (WorkerMutex.lock 7 example_mutex 1 example_forced_max) =
     Throw (WorkerMutexError MUTEX_RECURSION_COUNT_OVERFLOW)
  /\ i32 (snd (WorkerMutex.lock 7 example_mutex 1 example_forced_max)) =
     i32 example_forced_max.
Proof.
  split; [reflexivity |].
  apply (lock_reentrant_counter 7 example_mutex 0 example_forced_max 2147483647).
  - reflexivity.
  - cbn. lia.
Defined.

Lemma owner_identifier_positive_witness :
  0 <= 0 < 2147483647
  /\ cell (i32 example_two_cell_world) (TwoCell.ownerIndex example_two_cell_mutex) = Some 0
  /\ cell (i32 example_two_cell_world) (TwoCell.countIndex example_two_cell_mutex) = Some 0
  /\ is_int32 0
  /\ TwoCell.selfId 0 = 0 + 1
  /\ 0 < TwoCell.selfId 0
  /\ OwnerFirst.selfId 0 = TwoCell.selfId 0
  /\ cell (i32 (snd (TwoCell.lock 0 example_two_cell_mutex 1 example_two_cell_world)))
       (TwoCell.ownerIndex example_two_cell_mutex) = Some (TwoCell.selfId 0)
  /\ (forall hasWaitAsync : bool,
        fst (TwoCell_resume hasWaitAsync 0 example_two_cell_mutex 3 1
               example_two_cell_world) = Return tt
        /\ cell (i32 (snd (TwoCell_resume hasWaitAsync 0 example_two_cell_mutex 3 1
                             example_two_cell_world)))
             (TwoCell.ownerIndex example_two_cell_mutex) = Some (TwoCell.selfId 0)).
Proof.
  split; [lia | split; [reflexivity | split; [reflexivity | split; [unfold is_int32; lia |]]]].
  destruct (owner_identifier_positive None 0 example_two_cell_mutex 0
              example_two_cell_world 0 0) as (Hval & Hpos & Hsame & _ & Hfree & _ & Hresumed).
  - lia.
  - reflexivity.
  - reflexivity.
  - unfold is_int32. lia.
  - split; [exact Hval | split; [exact Hpos | split; [exact Hsame |]]].
    split; [exact (proj1 (proj2 (Hfree eq_refl))) |].
    intros hasWaitAsync.
    destruct (Hresumed hasWaitAsync 3 example_two_cell_world 0 0) as (_ & Htaken & _).
    + reflexivity.
    + reflexivity.
    + unfold is_int32. lia.
    + destruct (Htaken eq_refl) as (Hret & Howner & _). split; assumption.
Defined.

(** ** The calls on a block that only calls have touched *)

Lemma warnings_app (l k : list Event) :
  warnings (l ++ k) = (warnings l + warnings k)%nat.
Proof. unfold warnings. now rewrite List.filter_app, length_app. Qed.

Lemma quiet_ret {A : Type} (a : A) : quiet (mret a : Exec A).
Proof. intros w. split; [reflexivity |]. exists []. now rewrite app_nil_r. Qed.

Lemma quiet_throw {A : Type} (e : Error) : quiet (throw e : Exec A).
Proof. intros w. split; [reflexivity |]. exists []. now rewrite app_nil_r. Qed.

Lemma quiet_block {A : Type} : quiet (block : Exec A).
Proof. intros w. split; [reflexivity |]. exists []. now rewrite app_nil_r. Qed.

Lemma quiet_out_of_fuel {A : Type} : quiet (out_of_fuel : Exec A).
Proof. intros w. split; [reflexivity |]. exists []. now rewrite app_nil_r. Qed.

Lemma quiet_bind {A B : Type} (m : Exec A) (f : A -> Exec B) :
  quiet m -> (forall a : A, quiet (f a)) -> quiet (m ≫= f).
Proof.
  intros Hm Hf w. unfold mbind, Exec_bind.
  destruct (Hm w) as (Hshown & evs & Hevs & Hnone).
  destruct (m w) as [[a | e | |] w1]; cbn [snd] in *;
    try (split; [assumption | exists evs; split; assumption]).
  destruct (Hf a w1) as (Hshown' & evs' & Hevs' & Hnone').
  split; [congruence |]. exists (evs ++ evs').
  rewrite Hevs', Hevs, app_assoc, warnings_app, Hnone, Hnone'. split; reflexivity.
Qed.

Lemma quiet_emit (e : Event) : is_warning e = false -> quiet (emit e).
Proof.
  intros He w. split; [reflexivity |]. exists [e]. split; [reflexivity |].
  unfold warnings. cbn. now rewrite He.
Qed.

Lemma quiet_set_cell (i v : Z) : quiet (set_cell i v).
Proof. intros w. split; [reflexivity |]. exists []. now rewrite app_nil_r. Qed.

Lemma quiet_read_cell (i : Z) : quiet (read_cell i).
Proof.
  intros w. unfold read_cell. destruct (cell (i32 w) i);
    (split; [reflexivity |]; exists []; now rewrite app_nil_r).
Qed.

(** Splits a computation built from the atomic operations into its parts. *)
Ltac quiet_solve :=
  repeat first
    [ assumption
    | apply quiet_ret | apply quiet_throw | apply quiet_block | apply quiet_out_of_fuel
    | apply quiet_set_cell | apply quiet_read_cell
    | apply quiet_emit; reflexivity
    | apply quiet_bind; [| intros ?]
    | match goal with
      | |- quiet (if ?b then _ else _) => destruct b
      | |- quiet (match ?b with _ => _ end) => destruct b
      end ].

Lemma quiet_Atomics_load (i : Z) : quiet (Atomics_load i).
Proof. unfold Atomics_load. quiet_solve. Qed.

Lemma quiet_Atomics_store (i v : Z) : quiet (Atomics_store i v).
Proof. unfold Atomics_store. quiet_solve. Qed.

Lemma quiet_Atomics_compareExchange (i e r : Z) : quiet (Atomics_compareExchange i e r).
Proof. unfold Atomics_compareExchange. quiet_solve. Qed.

Lemma quiet_Atomics_wait (i v : Z) : quiet (Atomics_wait i v).
Proof. unfold Atomics_wait. quiet_solve. Qed.

Lemma quiet_Atomics_waitAsync (i v : Z) : quiet (Atomics_waitAsync i v).
Proof. unfold Atomics_waitAsync. quiet_solve. Qed.

Lemma quiet_Atomics_notify (i n : Z) : quiet (Atomics_notify i n).
Proof. unfold Atomics_notify. quiet_solve. Qed.

Lemma quiet_sleep (delay : Z) : quiet (sleep delay).
Proof. unfold sleep. quiet_solve. Qed.

Lemma quiet_awaitWaitAsync : quiet WorkerMutex.awaitWaitAsync.
Proof. unfold WorkerMutex.awaitWaitAsync. quiet_solve. Qed.

Ltac quiet_ops :=
  repeat first
    [ assumption
    | apply quiet_Atomics_load | apply quiet_Atomics_store
    | apply quiet_Atomics_compareExchange | apply quiet_Atomics_wait
    | apply quiet_Atomics_waitAsync | apply quiet_Atomics_notify
    | apply quiet_sleep | apply quiet_awaitWaitAsync
    | apply quiet_ret | apply quiet_throw | apply quiet_block | apply quiet_out_of_fuel
    | apply quiet_bind; [| intros ?]
    | match goal with
      | |- quiet (if ?b then _ else _) => destruct b
      end ].

Lemma quiet_incrementRecursionCount (fuel : nat) (ci : Z) :
  quiet (WorkerMutex.incrementRecursionCount fuel ci).
Proof.
  induction fuel as [| fuel IH]; cbn [WorkerMutex.incrementRecursionCount]; quiet_ops.
Qed.

Lemma quiet_lock_loop (fuel : nat) (fi oi ci me : Z) :
  quiet (WorkerMutex.lock_loop fuel fi oi ci me).
Proof.
  induction fuel as [| fuel IH]; cbn [WorkerMutex.lock_loop]; quiet_ops.
  apply quiet_incrementRecursionCount.
Qed.

Lemma quiet_lockAsync_waitAsync_loop (fuel : nat) (fi oi ci me delay : Z) :
  quiet (WorkerMutex.lockAsync_waitAsync_loop fuel fi oi ci me delay).
Proof.
  revert delay.
  induction fuel as [| fuel IH]; intros delay;
    cbn [WorkerMutex.lockAsync_waitAsync_loop]; quiet_ops;
    try apply quiet_incrementRecursionCount; apply IH.
Qed.

Lemma quiet_lockAsync_poll_loop (fuel : nat) (fi oi ci me delay : Z) :
  quiet (WorkerMutex.lockAsync_poll_loop fuel fi oi ci me delay).
Proof.
  revert delay.
  induction fuel as [| fuel IH]; intros delay;
    cbn [WorkerMutex.lockAsync_poll_loop]; quiet_ops;
    try apply quiet_incrementRecursionCount; apply IH.
Qed.

Lemma quiet_unlock_loop (fuel : nat) (fi oi ci : Z) :
  quiet (WorkerMutex.unlock_loop fuel fi oi ci).
Proof.
  induction fuel as [| fuel IH]; cbn [WorkerMutex.unlock_loop]; quiet_ops.
Qed.

Lemma quiet_lockAsync (hasWaitAsync : bool) (threadId : Z) (this : WorkerMutex.t)
      (fuel : nat) :
  quiet (WorkerMutex.lockAsync hasWaitAsync threadId this fuel).
Proof.
  unfold WorkerMutex.lockAsync. destruct hasWaitAsync;
    [apply quiet_lockAsync_waitAsync_loop | apply quiet_lockAsync_poll_loop].
Qed.

Lemma quiet_unlock (threadId : Z) (this : WorkerMutex.t) (fuel : nat) :
  quiet (WorkerMutex.unlock threadId this fuel).
Proof. unfold WorkerMutex.unlock. quiet_ops. apply quiet_unlock_loop. Qed.

Lemma events_warned (threadId : Z) (w : World) :
  events (warned threadId w) =
  events w ++ (if (threadId =? 0) && negb (mainThreadWarningShown w) then [EWarning] else []).
Proof.
  unfold warned. destruct ((threadId =? 0) && negb (mainThreadWarningShown w)).
  - reflexivity.
  - now rewrite app_nil_r.
Qed.

Lemma shown_warned (threadId : Z) (w : World) :
  mainThreadWarningShown (warned threadId w) =
  mainThreadWarningShown w || ((threadId =? 0) && negb (mainThreadWarningShown w)).
Proof.
  unfold warned. destruct ((threadId =? 0) && negb (mainThreadWarningShown w)); cbn.
  - now rewrite orb_true_r.
  - now rewrite orb_false_r.
Qed.

(** What one call adds to the warnings. *)
Lemma call_warning (c : Call) (threadId : Z) (this : WorkerMutex.t) (fuel : nat) (w : World) :
  let first :=
    match c with
    | CallLock => (threadId =? 0) && negb (mainThreadWarningShown w)
    | _ => false
    end in
  warnings (events (snd (call c threadId this fuel w))) =
    (warnings (events w) + if first then 1 else 0)%nat
  /\ mainThreadWarningShown (snd (call c threadId this fuel w)) =
     mainThreadWarningShown w || first.
Proof.
  destruct c as [| hasWaitAsync |]; cbn [call]; cbv zeta.
  - rewrite lock_prologue.
    destruct (quiet_lock_loop fuel (WorkerMutex.lockIndex this) (WorkerMutex.ownerIndex this)
                (WorkerMutex.countIndex this) (WorkerMutex.selfId threadId)
                (warned threadId w)) as (Hshown & evs & Hevs & Hnone).
    rewrite Hshown, Hevs, warnings_app, Hnone, events_warned, warnings_app, shown_warned.
    split; [| reflexivity].
    destruct ((threadId =? 0) && negb (mainThreadWarningShown w)); cbn; lia.
  - destruct (quiet_lockAsync hasWaitAsync threadId this fuel w)
      as (Hshown & evs & Hevs & Hnone).
    rewrite Hshown, Hevs, warnings_app, Hnone, orb_false_r. split; [lia | reflexivity].
  - destruct (quiet_unlock threadId this fuel w) as (Hshown & evs & Hevs & Hnone).
    rewrite Hshown, Hevs, warnings_app, Hnone, orb_false_r. split; [lia | reflexivity].
Qed.

(** The warning WORKER_MUTEX_LOCK_ON_MAIN_THREAD_BLOCKS_EVENT_LOOP is
    emitted at most once, whatever the calls: by [lock()] on the main thread
    ([threadId] 0) while [mainThreadWarningShown] is false, which the call
    sets.  [lockAsync()], [unlock()] and the workers never emit it. *)
Theorem main_thread_warning_once (block : Handle) (w : World) :
  reachable block w ->
  (warnings (events w) <= 1)%nat
  /\ (warnings (events w) = 1%nat -> mainThreadWarningShown w = true)
  /\ forall (c : Call) (threadId : Z) (this : WorkerMutex.t) (fuel : nat),
       let first :=
         match c with
         | CallLock => (threadId =? 0) && negb (mainThreadWarningShown w)
         | _ => false
         end in
       warnings (events (snd (call c threadId this fuel w))) =
         (warnings (events w) + if first then 1 else 0)%nat
       /\ mainThreadWarningShown (snd (call c threadId this fuel w)) =
          mainThreadWarningShown w || first.
Proof.
  intros Hreach.
  assert (Hinv : (warnings (events w) <= 1)%nat
                 /\ (mainThreadWarningShown w = false -> warnings (events w) = 0%nat)).
  { induction Hreach as [data shown Hdata | w c threadId idx this fuel _ [IH1 IH2] _].
    - cbn. split; [lia | reflexivity].
    - destruct (call_warning c threadId this fuel w) as [Hcount Hshown].
      cbv zeta in Hcount, Hshown. rewrite Hcount, Hshown.
      destruct c; try (rewrite orb_false_r, Nat.add_0_r; split; assumption).
      destruct (mainThreadWarningShown w); cbn [negb orb].
      + rewrite andb_false_r, Nat.add_0_r. split; [assumption | discriminate].
      + rewrite IH2 by reflexivity. rewrite andb_true_r.
        destruct (threadId =? 0); cbn; split; (lia || discriminate || reflexivity). }
  destruct Hinv as [Hle Hzero]. split; [assumption | split].
  - intros Hone. destruct (mainThreadWarningShown w); [reflexivity |].
    rewrite Hzero in Hone by reflexivity. discriminate.
  - intros c threadId this fuel. apply call_warning.
Qed.

Lemma main_thread_warning_once_witness :
  reachable example_block example_world
  /\ warnings (events (snd (call CallLock 0 example_mutex 1 example_world))) = 1%nat
  /\ mainThreadWarningShown (snd (call CallLock 0 example_mutex 1 example_world)) = true.
Proof.
  assert (Hreach : reachable example_block example_world)
    by (apply (reachable_fresh example_block (zeroed 24) false); reflexivity).
  split; [exact Hreach |].
  destruct (main_thread_warning_once example_block example_world Hreach) as (_ & _ & Hcall).
  exact (Hcall CallLock 0 example_mutex 1%nat).
Defined.

Lemma flat_map_map {A B C : Type} (f : B -> list C) (g : A -> B) (l : list A) :
  flat_map f (map g l) = flat_map (fun a => f (g a)) l.
Proof. induction l as [| a l IH]; [reflexivity |]. cbn. now rewrite IH. Qed.

Section Held.

Variables (fi oi ci me : Z).

Lemma lock_loop_parks (fuel : nat) (w : World) (o : Z) :
  cell (i32 w) fi = Some 1 -> cell (i32 w) oi = Some o -> o <> me ->
  WorkerMutex.lock_loop (S fuel) fi oi ci me w =
  (Blocked, logs [ELoad fi 1; ELoad oi o; EWait fi 1] w).
Proof.
  intros Hf Ho Hom. cbn [WorkerMutex.lock_loop].
  step_with Atomics_load_run. step_with Atomics_load_run.
  destruct (Z.eqb_spec o me) as [Heq | _]; [contradiction |].
  cbn [Z.eqb Pos.eqb andb].
  erewrite bind_Blocked by (eapply Atomics_wait_blocks; cell_solve).
  unfold logs, log. cbn [i32 mainThreadWarningShown events].
  now rewrite <- !app_assoc.
Qed.

Lemma lockAsync_waitAsync_loop_parks (fuel : nat) (w : World) (o delay : Z) :
  cell (i32 w) fi = Some 1 -> cell (i32 w) oi = Some o -> o <> me ->
  WorkerMutex.lockAsync_waitAsync_loop (S fuel) fi oi ci me delay w =
  (Blocked,
   logs [ELoad fi 1; ELoad oi o; EWaitAsync fi 1;
          EKeepAliveTimer WorkerMutex.KEEP_ALIVE_TIMEOUT_MS] w).
Proof.
  intros Hf Ho Hom. cbn [WorkerMutex.lockAsync_waitAsync_loop].
  step_with Atomics_load_run. step_with Atomics_load_run.
  destruct (Z.eqb_spec o me) as [Heq | _]; [contradiction |].
  cbn [Z.eqb Pos.eqb andb].
  erewrite bind_Return by (eapply Atomics_waitAsync_pending; cell_solve).
  cbv beta iota. erewrite bind_Blocked by apply awaitWaitAsync_run.
  unfold logs, log. cbn [i32 mainThreadWarningShown events].
  now rewrite <- !app_assoc.
Qed.

Lemma next_delay_min (d : Z) : d <= 8 -> WorkerMutex.next_delay d = Z.min (d + 1) 8.
Proof. intros H. unfold WorkerMutex.next_delay. destruct (Z.ltb_spec d 8); lia. Qed.

Lemma lockAsync_poll_loop_polls (fuel : nat) (w : World) (o d : Z) :
  cell (i32 w) fi = Some 1 -> cell (i32 w) oi = Some o -> o <> me -> 0 <= d <= 8 ->
  WorkerMutex.lockAsync_poll_loop fuel fi oi ci me d w =
  (OutOfFuel,
   logs (flat_map (fun k : nat => [ELoad fi 1; ELoad oi o; ESleep (Z.min (d + Z.of_nat k) 8)])
            (seq 0 fuel)) w).
Proof.
  revert w d. induction fuel as [| fuel IH]; intros w d Hf Ho Hom Hd.
  - cbn. unfold logs. rewrite app_nil_r. now destruct w.
  - cbn [WorkerMutex.lockAsync_poll_loop].
    step_with Atomics_load_run. step_with Atomics_load_run.
    destruct (Z.eqb_spec o me) as [Heq | _]; [contradiction |].
    cbn [Z.eqb Pos.eqb andb].
    erewrite bind_Return by apply sleep_run.
    rewrite IH; [| cell_solve | cell_solve | assumption | rewrite next_delay_min; lia].
    f_equal. unfold logs, log. cbn [i32 mainThreadWarningShown events].
    f_equal. rewrite <- !app_assoc. f_equal.
    cbn [seq flat_map]. rewrite <- seq_shift, flat_map_map.
    cbn [app]. rewrite Z.add_0_r, (Z.min_l d 8) by lia.
    do 3 f_equal. apply flat_map_ext. intros k.
    rewrite next_delay_min by lia. do 4 f_equal. lia.
Qed.

End Held.

(** A handle constructed over a block as allocated reads its slot, and the
    slot satisfies the invariant. *)
Lemma reachable_slot (host : Host) (count idx : option number) (block : Handle) (w : World)
      (this : WorkerMutex.t) :
  WorkerMutex.createSharedBuffer host count = Return block ->
  reachable block w ->
  WorkerMutex.constructor (mkOptions block idx) = Return this ->
  exists s : Slot, slot (i32 w) this = Some s /\ slot_invariant s.
Proof.
  intros Hblock Hreach Hthis.
  apply createSharedBuffer_Return_inv in Hblock as (n & _ & Hn & ->).
  assert (Hn0 : 0 <= n) by lia.
  pose proof (reachable_block_invariant n w Hn0 Hreach) as [_ Hslots].
  destruct (constructor_over_block n idx this Hn0 Hthis) as (m & view & _ & Hm & ->).
  exact (Hslots m view Hm).
Qed.

Lemma lockAsync_free_slot (hasWaitAsync : bool) (threadId : Z) (this : WorkerMutex.t)
      (fuel : nat) (w : World) (o c : Z) :
  slot (i32 w) this = Some (mkSlot 0 o c) ->
  WorkerMutex.lockAsync hasWaitAsync threadId this (S fuel) w =
  WorkerMutex.lock_loop (S fuel) (WorkerMutex.lockIndex this) (WorkerMutex.ownerIndex this)
    (WorkerMutex.countIndex this) (WorkerMutex.selfId threadId) w.
Proof.
  intros Hs. slot_setup this Hs. cbn [flag owner recursionCount] in *.
  unfold WorkerMutex.lockAsync. destruct hasWaitAsync.
  - now apply lockAsync_waitAsync_loop_free with (o := o) (c := c).
  - now apply lockAsync_poll_loop_free with (o := o) (c := c).
Qed.

Lemma lockAsync_owned_slot (hasWaitAsync : bool) (threadId : Z) (this : WorkerMutex.t)
      (fuel : nat) (w : World) (c : Z) :
  slot (i32 w) this = Some (mkSlot 1 (WorkerMutex.selfId threadId) c) ->
  WorkerMutex.lockAsync hasWaitAsync threadId this (S fuel) w =
  WorkerMutex.lock_loop (S fuel) (WorkerMutex.lockIndex this) (WorkerMutex.ownerIndex this)
    (WorkerMutex.countIndex this) (WorkerMutex.selfId threadId) w.
Proof.
  intros Hs. slot_setup this Hs. cbn [flag owner recursionCount] in *.
  rewrite (lock_loop_owned _ _ _ _ fuel w c) by assumption.
  unfold WorkerMutex.lockAsync. destruct hasWaitAsync.
  - now apply lockAsync_waitAsync_loop_owned with (c := c).
  - now apply lockAsync_poll_loop_owned with (c := c).
Qed.

(** Where [lockAsync()] does not have to wait it is [lock()] without the
    warning: on a slot that is free or held by the caller, [lock()] is the
    prologue of the main thread followed by exactly what [lockAsync()] does,
    with the same result, the same cells and the same [Atomics] calls, no
    timer and no [Atomics.waitAsync], whether [Atomics.waitAsync] exists or
    not. *)
Theorem lock_as_lockAsync (hasWaitAsync : bool) (threadId : Z) (this : WorkerMutex.t)
        (fuel : nat) (w : World) (s : Slot) :
  slot (i32 w) this = Some s ->
  flag s = 0 \/ (flag s = 1 /\ owner s = WorkerMutex.selfId threadId) ->
  WorkerMutex.lock threadId this (S fuel) w =
  WorkerMutex.lockAsync hasWaitAsync threadId this (S fuel) (warned threadId w).
Proof.
  intros Hs Hcase. rewrite lock_prologue.
  rewrite <- (i32_warned threadId w) in Hs.
  destruct s as [f o c]. cbn [flag owner] in Hcase.
  destruct Hcase as [-> | [-> ->]].
  - now rewrite (lockAsync_free_slot hasWaitAsync threadId this fuel _ o c Hs).
  - now rewrite (lockAsync_owned_slot hasWaitAsync threadId this fuel _ c Hs).
Qed.

Lemma lock_as_lockAsync_witness :
  slot (i32 example_held) example_mutex = Some (mkSlot 1 7 2)
  /\ WorkerMutex.lock 7 example_mutex 1 example_held =
     WorkerMutex.lockAsync false 7 example_mutex 1 (warned 7 example_held).
Proof.
  split; [reflexivity |].
  apply (lock_as_lockAsync false 7 example_mutex 0 example_held (mkSlot 1 7 2)).
  - reflexivity.
  - right. split; reflexivity.
Defined.

(** A slot held by another thread.  [lock()] reads flag and owner and parks
    in [Atomics.wait] on the flag cell; [lockAsync()] with
    [Atomics.waitAsync] arms the keep-alive timer of [2^31 - 1] ms and awaits
    the promise; [lockAsync()] without it polls for ever, sleeping 0, 1, ...,
    8, 8, 8, ... ms between the rounds.  None of them writes a cell. *)
Theorem acquire_waits_while_held (threadId : Z) (this : WorkerMutex.t) (fuel : nat)
        (w : World) (o c : Z) :
  slot (i32 w) this = Some (mkSlot 1 o c) ->
  o <> WorkerMutex.selfId threadId ->
  let fi := WorkerMutex.lockIndex this in
  let oi := WorkerMutex.ownerIndex this in
  WorkerMutex.lock threadId this (S fuel) w =
    (Blocked, logs [ELoad fi 1; ELoad oi o; EWait fi 1] (warned threadId w))
  /\ WorkerMutex.lockAsync true threadId this (S fuel) w =
     (Blocked, logs [ELoad fi 1; ELoad oi o; EWaitAsync fi 1; EKeepAliveTimer 2147483647] w)
  /\ WorkerMutex.lockAsync false threadId this fuel w =
     (OutOfFuel,
      logs (flat_map
              (fun k : nat => [ELoad fi 1; ELoad oi o; ESleep (Z.min (Z.of_nat k) 8)])
              (seq 0 fuel)) w).
Proof.
  intros Hs Hom fi oi. subst fi oi.
  pose proof Hs as Hs'. rewrite <- (i32_warned threadId w) in Hs'.
  apply slot_cells in Hs as (Hf & Ho & _). apply slot_cells in Hs' as (Hf' & Ho' & _).
  cbn [flag owner] in *. split; [| split].
  - rewrite lock_prologue. now apply lock_loop_parks.
  - unfold WorkerMutex.lockAsync. now apply lockAsync_waitAsync_loop_parks.
  - unfold WorkerMutex.lockAsync.
    rewrite (lockAsync_poll_loop_polls _ _ _ _ fuel w o 0) by (assumption || lia).
    reflexivity.
Qed.

Lemma acquire_waits_while_held_witness :
  slot (i32 example_held) example_mutex = Some (mkSlot 1 7 2)
  /\ 7 <> WorkerMutex.selfId 8
  /\ WorkerMutex.lockAsync false 8 example_mutex 3 example_held =
     (OutOfFuel,
      logs [ELoad 3 1; ELoad 4 7; ESleep 0; ELoad 3 1; ELoad 4 7; ESleep 1;
            ELoad 3 1; ELoad 4 7; ESleep 2] example_held).
Proof.
  split; [reflexivity | split; [discriminate |]].
  apply (acquire_waits_while_held 8 example_mutex 3 example_held 7 2).
  - reflexivity.
  - discriminate.
Defined.

(** The result of a call on a block that only calls have touched, read off
    the slot: [unlock()] returns for the holder and throws
    MUTEX_IS_NOT_OWNED_BY_CURRENT_THREAD for everyone else; [lock()] and
    [lockAsync()] return on a free slot and for the holder below [2^31 - 1]
    holds, throw MUTEX_RECURSION_COUNT_OVERFLOW for the holder at
    [2^31 - 1], and wait otherwise.  No call ends in a [RangeError] or in
    MUTEX_RECURSION_COUNT_UNDERFLOW, and one round of each loop is enough. *)
Theorem reachable_call_outcome (host : Host) (count idx : option number) (block : Handle)
        (w : World) (this : WorkerMutex.t) (c : Call) (threadId : Z) (fuel : nat) :
  WorkerMutex.createSharedBuffer host count = Return block ->
  reachable block w ->
  WorkerMutex.constructor (mkOptions block idx) = Return this ->
  exists s : Slot,
    slot (i32 w) this = Some s
    /\ let mine := (flag s =? 1) && (owner s =? WorkerMutex.selfId threadId) in
       fst (call c threadId this (S fuel) w) =
       match c with
       | CallUnlock =>
           if mine then Return tt
           else Throw (WorkerMutexError MUTEX_IS_NOT_OWNED_BY_CURRENT_THREAD)
       | _ =>
           if flag s =? 0 then Return tt
           else if mine
           then if recursionCount s <? 2147483647 then Return tt
                else Throw (WorkerMutexError MUTEX_RECURSION_COUNT_OVERFLOW)
           else match c with
                | CallLockAsync false => OutOfFuel
                | _ => Blocked
                end
       end.
Proof.
  intros Hblock Hreach Hthis.
  destruct (reachable_slot host count idx block w this Hblock Hreach Hthis) as (s & Hs & Hinv).
  exists s. split; [assumption |]. cbv zeta.
  destruct s as [f o n]. unfold slot_invariant in Hinv. cbn [flag owner recursionCount] in *.
  unfold WorkerMutex.MAX_RECURSION_COUNT in Hinv.
  destruct Hinv as [(-> & -> & ->) | (-> & Ho32 & Hn)].
  - (* the slot is free *)
    cbn [Z.eqb andb]. destruct c as [| hasWaitAsync |]; cbn [call].
    + destruct (lock_free_slot threadId this fuel w 0 0 Hs) as (w' & -> & _). reflexivity.
    + rewrite (lockAsync_free_slot hasWaitAsync threadId this fuel w 0 0 Hs).
      slot_setup this Hs. cbn [flag owner recursionCount] in *.
      now erewrite lock_loop_free by eassumption.
    + apply slot_cells in Hs as (Hf & Ho & _). cbn [flag owner] in *.
      now erewrite unlock_not_owned by (eassumption || (left; discriminate)).
  - cbn [Z.eqb Pos.eqb andb].
    destruct (Z.eqb_spec o (WorkerMutex.selfId threadId)) as [-> | Hom].
    + (* the caller holds the slot *)
      assert (Hinc : forall w0 : World,
                 i32 w0 = i32 w ->
                 fst (WorkerMutex.incrementRecursionCount (S fuel)
                        (WorkerMutex.countIndex this) w0) =
                 if n <? 2147483647 then Return tt
                 else Throw (WorkerMutexError MUTEX_RECURSION_COUNT_OVERFLOW)).
      { intros w0 Hw0. rewrite <- Hw0 in Hs.
        apply slot_cells in Hs as (_ & _ & Hc). cbn [recursionCount] in Hc.
        destruct (Z.ltb_spec n 2147483647).
        - now rewrite (incrementRecursionCount_increments _ n w0 Hc fuel)
            by (unfold WorkerMutex.MAX_RECURSION_COUNT; lia).
        - now rewrite (incrementRecursionCount_overflow _ n w0 Hc fuel)
            by (unfold WorkerMutex.MAX_RECURSION_COUNT; lia). }
      destruct c as [| hasWaitAsync |]; cbn [call].
      * rewrite (lock_owned_slot threadId this fuel w n Hs). apply Hinc.
        cbn [i32 log]. apply i32_warned.
      * rewrite (lockAsync_owned_slot hasWaitAsync threadId this fuel w n Hs).
        pose proof Hs as Hs'. slot_setup this Hs'. cbn [flag owner recursionCount] in *.
        rewrite (lock_loop_owned _ _ _ _ fuel w n) by assumption.
        now apply Hinc.
      * destruct (unlock_events threadId this fuel w n Hs) as (Hret & _);
          [unfold is_int32; lia | lia |]. exact Hret.
    + (* another thread holds the slot *)
      pose proof Hs as Hs'. rewrite <- (i32_warned threadId w) in Hs'.
      apply slot_cells in Hs as (Hf & Ho & _). apply slot_cells in Hs' as (Hf' & Ho' & _).
      cbn [flag owner] in *.
      destruct c as [| [|] |]; cbn [call].
      * rewrite lock_prologue. now erewrite lock_loop_parks by eassumption.
      * unfold WorkerMutex.lockAsync.
        now erewrite lockAsync_waitAsync_loop_parks by eassumption.
      * unfold WorkerMutex.lockAsync.
        now erewrite lockAsync_poll_loop_polls by (eassumption || lia).
      * now erewrite unlock_not_owned by (eassumption || (right; assumption)).
Qed.

Lemma reachable_call_outcome_witness :
  WorkerMutex.createSharedBuffer example_host (Some (of_Z 2)) = Return example_block
  /\ reachable example_block example_world
  /\ WorkerMutex.constructor (mkOptions example_block (Some (of_Z 1))) = Return example_mutex
  /\ exists s : Slot,
       slot (i32 example_world) example_mutex = Some s
       /\ fst (call CallUnlock 7 example_mutex 1 example_world) =
          if (flag s =? 1) && (owner s =? WorkerMutex.selfId 7) then Return tt
          else Throw (WorkerMutexError MUTEX_IS_NOT_OWNED_BY_CURRENT_THREAD).
Proof.
  assert (Hreach : reachable example_block example_world)
    by (apply (reachable_fresh example_block (zeroed 24) false); reflexivity).
  split; [reflexivity | split; [exact Hreach | split; [reflexivity |]]].
  apply (reachable_call_outcome example_host (Some (of_Z 2)) (Some (of_Z 1)) example_block
           example_world example_mutex CallUnlock 7 0).
  - reflexivity.
  - exact Hreach.
  - reflexivity.
Defined.

(** [assertUnsignedInteger(value)] returns for the integers from 0 to
    [2^53 - 1] and for nothing else: NaN, the infinities, fractions and
    negative integers end in VALUE_MUST_BE_AN_UNSIGNED_INTEGER. *)
Theorem assertUnsignedInteger_exactly (value : number) :
  (assertUnsignedInteger value = Return tt <-> non_negative_safe_integer value)
  /\ (assertUnsignedInteger value = Return tt
      \/ assertUnsignedInteger value =
         Throw (WorkerMutexError VALUE_MUST_BE_AN_UNSIGNED_INTEGER))
  /\ (forall n : Z,
        represents value n -> n < 0 ->
        assertUnsignedInteger value =
        Throw (WorkerMutexError VALUE_MUST_BE_AN_UNSIGNED_INTEGER))
  /\ (forall q : Q,
        value = Finite q -> is_integral q = false ->
        assertUnsignedInteger value =
        Throw (WorkerMutexError VALUE_MUST_BE_AN_UNSIGNED_INTEGER))
  /\ (value = NaN \/ value = Infinity \/ value = NegInfinity ->
      assertUnsignedInteger value =
      Throw (WorkerMutexError VALUE_MUST_BE_AN_UNSIGNED_INTEGER)).
Proof.
  assert (Hiff : assertUnsignedInteger value = Return tt <->
                 non_negative_safe_integer value).
  { split.
    - intros Hret.
      destruct (isSafeInteger value) eqn:Hsafe;
        [| unfold assertUnsignedInteger in Hret; rewrite Hsafe in Hret; discriminate].
      apply isSafeInteger_iff in Hsafe as (n & Hr & Hn).
      exists n. split; [assumption |].
      unfold assertUnsignedInteger in Hret.
      rewrite (number_lt_represents value n 0 Hr) in Hret.
      destruct (Z.ltb_spec n 0); [| lia].
      rewrite orb_true_r in Hret. discriminate.
    - intros (n & Hr & Hn). exact (assertUnsignedInteger_accepts value n Hr Hn). }
  split; [exact Hiff | split; [| split; [| split]]].
  - unfold assertUnsignedInteger.
    destruct (negb (isSafeInteger value) || number_lt value 0); auto.
  - intros n Hr Hneg. apply assertUnsignedInteger_rejects.
    intros (m & Hm & Hrange). pose proof (represents_unique _ _ _ Hr Hm). lia.
  - intros q -> Hq. apply assertUnsignedInteger_rejects.
    intros (m & Hm & _). cbn [represents] in Hm. apply represents_iff in Hm as [Hi _].
    congruence.
  - intros [-> | [-> | ->]]; reflexivity.
Qed.

(** A constructed handle keeps its index: the getter [index], which divides
    the base by 3, gives back the index the constructor was given (0 when
    left out), the division is exact, and flag, owner and counter are the
    cells [3 * index], [3 * index + 1] and [3 * index + 2], all of them
    inside the view. *)
Theorem constructor_index_round_trip (options : WorkerMutexOptions) (this : WorkerMutex.t) :
  WorkerMutex.constructor options = Return this ->
  let n := WorkerMutex.index_of this in
  represents (default (of_Z 0) (index options)) n
  /\ WorkerMutex.base this = n * 3
  /\ WorkerMutex.lockIndex this = 3 * n
  /\ WorkerMutex.ownerIndex this = 3 * n + 1
  /\ WorkerMutex.countIndex this = 3 * n + 2
  /\ 0 <= WorkerMutex.lockIndex this
  /\ WorkerMutex.countIndex this < Z.of_nat (length (WorkerMutex.view this)).
Proof.
  intros Hret n. subst n.
  apply constructor_Return_inv in Hret as (m & data & Hr & Hm & _ & _ & Hroom & ->).
  unfold WorkerMutex.index_of, WorkerMutex.lockIndex, WorkerMutex.ownerIndex,
    WorkerMutex.countIndex, WorkerMutex.LOCK_OFFSET, WorkerMutex.OWNER_OFFSET,
    WorkerMutex.COUNT_OFFSET, WorkerMutex.STRIDE.
  cbn [WorkerMutex.base WorkerMutex.view].
  rewrite Z.div_mul by lia. rewrite Int32Array_new_length. unfold BYTES_PER_ELEMENT.
  repeat split; try assumption; lia.
Qed.

Lemma constructor_index_round_trip_witness :
  WorkerMutex.constructor (mkOptions example_block (Some (of_Z 1))) = Return example_mutex
  /\ represents (of_Z 1) (WorkerMutex.index_of example_mutex)
  /\ WorkerMutex.base example_mutex = WorkerMutex.index_of example_mutex * 3.
Proof.
  split; [reflexivity |].
  destruct (constructor_index_round_trip (mkOptions example_block (Some (of_Z 1)))
              example_mutex) as (Hr & Hb & _).
  - reflexivity.
  - split; [exact Hr | exact Hb].
Defined.

(** Over the block [createSharedBuffer(count)] returns, the constructor
    accepts an index that is a non-negative safe integer when it is below
    [count], and ends in MUTEX_INDEX_OUT_OF_RANGE when it is [count] or
    above.  The view of an accepted handle is [count * 3] cells of 0. *)
Theorem constructor_over_createSharedBuffer (host : Host) (count idx : option number)
        (block : Handle) (n m : Z) :
  WorkerMutex.createSharedBuffer host count = Return block ->
  represents (default (of_Z 1) count) n ->
  represents (default (of_Z 0) idx) m ->
  0 <= m <= MAX_SAFE_INTEGER ->
  WorkerMutex.constructor (mkOptions block idx) =
  if m <? n
  then Return (WorkerMutex.mkMutex (replicate (Z.to_nat (n * 3)) 0) (m * 3))
  else Throw (WorkerMutexError MUTEX_INDEX_OUT_OF_RANGE).
Proof.
  intros Hblock Hn Hm Hrange.
  apply createSharedBuffer_Return_inv in Hblock as (n' & Hn' & Hsize & ->).
  pose proof (represents_unique _ _ _ Hn Hn'). subst n'.
  rewrite (constructor_accepts_index (mkOptions _ idx) m Hm Hrange). cbn [handle].
  assert (Hbytes : byteLength (zeroed (WorkerMutex.BYTES_PER_MUTEX * n)) = n * 3 * 4).
  { rewrite byteLength_zeroed;
      unfold WorkerMutex.BYTES_PER_MUTEX, BYTES_PER_ELEMENT, WorkerMutex.STRIDE; lia. }
  rewrite Hbytes. unfold BYTES_PER_ELEMENT. rewrite Z.mod_mul, Z.div_mul by lia.
  cbn [Z.eqb negb]. rewrite view_of_zeroed by lia. unfold WorkerMutex.STRIDE.
  destruct (Z.ltb_spec (m * 3 + 2) (n * 3)), (Z.ltb_spec m n); try lia; reflexivity.
Qed.

Lemma constructor_over_createSharedBuffer_witness :
  WorkerMutex.createSharedBuffer example_host (Some (of_Z 2)) = Return example_block
  /\ represents (of_Z 2) 2 /\ represents (of_Z 2) 2 /\ 0 <= 2 <= MAX_SAFE_INTEGER
  /\ WorkerMutex.constructor (mkOptions example_block (Some (of_Z 2))) =
     Throw (WorkerMutexError MUTEX_INDEX_OUT_OF_RANGE).
Proof.
  split; [reflexivity | split; [reflexivity | split; [reflexivity | split; [vm_compute; split; discriminate |]]]].
  apply (constructor_over_createSharedBuffer example_host (Some (of_Z 2)) (Some (of_Z 2))
           example_block 2 2).
  - reflexivity.
  - reflexivity.
  - reflexivity.
  - vm_compute. split; discriminate.
Defined.

Lemma index_of_base (view : list Z) (m : Z) :
  WorkerMutex.index_of (WorkerMutex.mkMutex view (m * 3)) = m.
Proof.
  unfold WorkerMutex.index_of, WorkerMutex.STRIDE. cbn [WorkerMutex.base].
  apply Z.div_mul. lia.
Qed.

(** The mutexes of a block are independent: a call through a handle,
    however it ends, keeps the length of the view, changes no cell outside
    the three cells of its slot, and leaves the slot of every handle on
    another index as it was. *)
Theorem calls_keep_other_mutexes (host : Host) (count idx : option number) (block : Handle)
        (w : World) (this : WorkerMutex.t) (c : Call) (threadId : Z) (fuel : nat) :
  WorkerMutex.createSharedBuffer host count = Return block ->
  reachable block w ->
  WorkerMutex.constructor (mkOptions block idx) = Return this ->
  let w' := snd (call c threadId this fuel w) in
  length (i32 w') = length (i32 w)
  /\ (forall j : Z,
        j <> WorkerMutex.lockIndex this ->
        j <> WorkerMutex.ownerIndex this ->
        j <> WorkerMutex.countIndex this ->
        cell (i32 w') j = cell (i32 w) j)
  /\ forall (idx' : option number) (other : WorkerMutex.t),
       WorkerMutex.constructor (mkOptions block idx') = Return other ->
       WorkerMutex.index_of other <> WorkerMutex.index_of this ->
       slot (i32 w') other = slot (i32 w) other.
Proof.
  intros Hblock Hreach Hthis w'. subst w'.
  destruct (reachable_slot host count idx block w this Hblock Hreach Hthis) as (s & Hs & Hinv).
  destruct (call_refines c threadId this fuel w s Hs (slot_invariant_int32 s Hinv))
    as (s' & _ & _ & Hframe).
  split; [apply Hframe | split; [apply Hframe |]].
  intros idx' other Hother Hne.
  apply createSharedBuffer_Return_inv in Hblock as (n & _ & Hn & ->).
  apply constructor_over_block in Hthis as (m & view & _ & _ & ->); [| lia].
  apply constructor_over_block in Hother as (m' & view' & _ & _ & ->); [| lia].
  rewrite !index_of_base in Hne.
  apply (slot_same_elsewhere _ _ _ _ Hframe). cbn [WorkerMutex.base]. lia.
Qed.

Lemma calls_keep_other_mutexes_witness :
  WorkerMutex.createSharedBuffer example_host (Some (of_Z 2)) = Return example_block
  /\ reachable example_block example_world
  /\ WorkerMutex.constructor (mkOptions example_block (Some (of_Z 1))) = Return example_mutex
  /\ length (i32 (snd (call CallLock 7 example_mutex 1 example_world))) =
     length (i32 example_world).
Proof.
  assert (Hreach : reachable example_block example_world)
    by (apply (reachable_fresh example_block (zeroed 24) false); reflexivity).
  split; [reflexivity | split; [exact Hreach | split; [reflexivity |]]].
  apply (calls_keep_other_mutexes example_host (Some (of_Z 2)) (Some (of_Z 1)) example_block
           example_world example_mutex CallLock 7 1).
  - reflexivity.
  - exact Hreach.
  - reflexivity.
Defined.

(** ** The two-cell class: allocation and construction *)

Lemma view_of_zeroed_bytes (k : Z) :
  0 <= k -> Int32Array_new (zeroed (4 * k)) = replicate (Z.to_nat k) 0.
Proof.
  intros Hk. unfold zeroed.
  replace (Z.to_nat (4 * k)) with (4 * Z.to_nat k)%nat by lia.
  apply Int32Array_new_zeroed.
Qed.

(** [createSharedBuffer(count)] of the two-cell class.  A count that is not
    a positive safe integer ends in COUNT_MUST_BE_A_POSITIVE_INTEGER.  Every
    other count is passed on to the allocation: the block has
    [count * 2 * 4] zero bytes, a view of [count * 2] cells of 0; this
    revision has no limit of its own on the count, so a count whose byte
    length is above [2^53 - 1] ends in the [RangeError] of
    [new SharedArrayBuffer], as does a count the host has no memory for. *)
Theorem TwoCell_createSharedBuffer_allocates (host : Host) (count : option number) :
  let given := default (of_Z 1) count in
  (~ positive_safe_integer given ->
   TwoCell.createSharedBuffer host count =
   Throw (WorkerMutexError COUNT_MUST_BE_A_POSITIVE_INTEGER))
  /\ forall n : Z,
       represents given n -> 1 <= n <= MAX_SAFE_INTEGER ->
       TwoCell.createSharedBuffer host count =
         (if (n * 2 * 4 <=? MAX_SAFE_INTEGER) && allocates host (n * 2 * 4)
          then Return (SharedArrayBuffer (zeroed (n * 2 * 4)))
          else Throw RangeError)
       /\ byteLength (zeroed (n * 2 * 4)) = n * 2 * 4
       /\ Int32Array_new (zeroed (n * 2 * 4)) = replicate (Z.to_nat (n * 2)) 0.
Proof.
  intros given. subst given. split.
  - intros Hnot. unfold TwoCell.createSharedBuffer.
    set (given := default (of_Z 1) count) in *.
    destruct (isSafeInteger given) eqn:Hsafe; [| reflexivity].
    apply isSafeInteger_iff in Hsafe as (n & Hr & Hn).
    rewrite (number_le_represents given n 0 Hr). cbn [negb orb].
    destruct (Z.leb_spec n 0) as [Hle | Hgt]; [reflexivity |].
    exfalso. apply Hnot. exists n. split; [assumption | lia].
  - intros n Hr Hn. split; [| split].
    + unfold TwoCell.createSharedBuffer.
      set (given := default (of_Z 1) count) in *.
      assert (Hsafe : isSafeInteger given = true).
      { apply isSafeInteger_iff. exists n. split; [assumption | lia]. }
      rewrite Hsafe, (number_le_represents given n 0 Hr),
        (represents_integer_of given n Hr).
      destruct (Z.leb_spec n 0) as [Hle | _]; [lia |]. cbn [negb orb].
      unfold SharedArrayBuffer_construct, BYTES_PER_ELEMENT, TwoCell.STRIDE,
        SharedArrayBuffer_new, zeroed.
      replace (4 * n * 2) with (n * 2 * 4) by lia.
      destruct (Z.ltb_spec (n * 2 * 4) 0) as [Hneg | _]; [lia |]. cbn [orb].
      destruct (Z.ltb_spec MAX_SAFE_INTEGER (n * 2 * 4)),
        (Z.leb_spec (n * 2 * 4) MAX_SAFE_INTEGER); try lia;
        cbn [orb andb]; [reflexivity |].
      now destruct (allocates host (n * 2 * 4)).
    + apply byteLength_zeroed. lia.
    + replace (n * 2 * 4) with (4 * (n * 2)) by lia.
      apply view_of_zeroed_bytes. lia.
Qed.

Lemma TwoCell_createSharedBuffer_allocates_witness :
  ~ positive_safe_integer (of_Z 0)
  /\ TwoCell.createSharedBuffer example_host (Some (of_Z 0)) =
     Throw (WorkerMutexError COUNT_MUST_BE_A_POSITIVE_INTEGER)
  /\ TwoCell.createSharedBuffer example_host (Some (of_Z MAX_SAFE_INTEGER)) = Throw RangeError
  /\ TwoCell.createSharedBuffer example_host (Some (of_Z 4294967296)) = Throw RangeError
  /\ TwoCell.createSharedBuffer example_host None = Return (SharedArrayBuffer (zeroed 8)).
Proof.
  split; [exact not_positive_safe_integer_zero |].
  split; [| split; [| split]].
  - apply (TwoCell_createSharedBuffer_allocates example_host (Some (of_Z 0))).
    exact not_positive_safe_integer_zero.
  - apply (proj2 (TwoCell_createSharedBuffer_allocates example_host
                    (Some (of_Z MAX_SAFE_INTEGER)))
             MAX_SAFE_INTEGER).
    + apply represents_of_Z.
    + unfold MAX_SAFE_INTEGER. lia.
  - apply (proj2 (TwoCell_createSharedBuffer_allocates example_host
                    (Some (of_Z 4294967296)))
             4294967296).
    + apply represents_of_Z.
    + unfold MAX_SAFE_INTEGER. lia.
  - apply (proj2 (TwoCell_createSharedBuffer_allocates example_host None) 1).
    + apply represents_of_Z.
    + unfold MAX_SAFE_INTEGER. lia.
Defined.

Lemma TwoCell_constructor_accepts_index (options : WorkerMutexOptions) (n : Z) :
  represents (default (of_Z 0) (index options)) n ->
  0 <= n <= MAX_SAFE_INTEGER ->
  TwoCell.constructor options =
  match handle options with
  | SharedArrayBuffer data =>
      if byteLength data mod 4 =? 0
      then if n * 2 + 1 <? byteLength data / 4
           then Return (TwoCell.mkMutex (Int32Array_new data) (n * 2))
           else Throw (WorkerMutexError MUTEX_INDEX_OUT_OF_RANGE)
      else Throw RangeError
  | _ => Throw (WorkerMutexError HANDLE_MUST_BE_A_SHARED_ARRAY_BUFFER)
  end.
Proof.
  intros Hr Hn. unfold TwoCell.constructor.
  rewrite (assertUnsignedInteger_accepts _ n Hr Hn).
  destruct (handle options) as [data | data |]; try reflexivity.
  unfold Int32Array_construct, BYTES_PER_ELEMENT.
  destruct (byteLength data mod 4 =? 0); [| reflexivity].
  rewrite (number_lt_represents _ n 0 Hr), (represents_integer_of _ n Hr).
  rewrite Int32Array_new_length. unfold TwoCell.STRIDE, BYTES_PER_ELEMENT.
  destruct (Z.ltb_spec n 0) as [Hneg | _]; [lia |]. cbn [orb].
  destruct (Z.geb_spec (n * 2 + (2 - 1)) (byteLength data / 4)),
    (Z.ltb_spec (n * 2 + 1) (byteLength data / 4)); try lia; reflexivity.
Qed.

(** The constructor of the two-cell class checks, in this order: the index
    (0 when left out) is a non-negative safe integer, else
    VALUE_MUST_BE_AN_UNSIGNED_INTEGER; the handle is a [SharedArrayBuffer],
    else HANDLE_MUST_BE_A_SHARED_ARRAY_BUFFER; [index * 2 + 1] is below the
    number of cells, else MUTEX_INDEX_OUT_OF_RANGE.  It has no check of the
    byte length: a shared buffer whose byte length is not a multiple of 4
    ends in the [RangeError] of [new Int32Array].  A constructed handle
    gives its index back through the getter [index], and its two cells are
    [2 * index] and [2 * index + 1], inside the view. *)
Theorem TwoCell_constructor_validation (options : WorkerMutexOptions) :
  let given := default (of_Z 0) (index options) in
  (~ non_negative_safe_integer given ->
   TwoCell.constructor options =
   Throw (WorkerMutexError VALUE_MUST_BE_AN_UNSIGNED_INTEGER))
  /\ (forall n : Z,
        represents given n -> 0 <= n <= MAX_SAFE_INTEGER ->
        TwoCell.constructor options =
        match handle options with
        | SharedArrayBuffer data =>
            if byteLength data mod 4 =? 0
            then if n * 2 + 1 <? byteLength data / 4
                 then Return (TwoCell.mkMutex (Int32Array_new data) (n * 2))
                 else Throw (WorkerMutexError MUTEX_INDEX_OUT_OF_RANGE)
            else Throw RangeError
        | _ => Throw (WorkerMutexError HANDLE_MUST_BE_A_SHARED_ARRAY_BUFFER)
        end)
  /\ (forall this : TwoCell.t,
        TwoCell.constructor options = Return this ->
        represents given (TwoCell.index_of this)
        /\ TwoCell.ownerIndex this = 2 * TwoCell.index_of this
        /\ TwoCell.countIndex this = 2 * TwoCell.index_of this + 1
        /\ 0 <= TwoCell.ownerIndex this
        /\ TwoCell.countIndex this < Z.of_nat (length (TwoCell.view this))).
Proof.
  intros given. subst given. split; [| split].
  - intros Hnot. unfold TwoCell.constructor.
    now rewrite (assertUnsignedInteger_rejects _ Hnot).
  - apply TwoCell_constructor_accepts_index.
  - intros this Hret.
    destruct (isSafeInteger (default (of_Z 0) (index options))) eqn:Hsafe;
      [| unfold TwoCell.constructor, assertUnsignedInteger in Hret;
         rewrite Hsafe in Hret; discriminate].
    apply isSafeInteger_iff in Hsafe as (n & Hr & Hn).
    destruct (Z.ltb_spec n 0) as [Hneg | Hpos].
    { unfold TwoCell.constructor, assertUnsignedInteger in Hret.
      rewrite (number_lt_represents _ n 0 Hr) in Hret.
      destruct (Z.ltb_spec n 0); [| lia].
      rewrite orb_true_r in Hret. discriminate. }
    rewrite (TwoCell_constructor_accepts_index options n Hr) in Hret by lia.
    destruct (handle options) as [data | data |]; try discriminate.
    destruct (byteLength data mod 4 =? 0); [| discriminate].
    destruct (Z.ltb_spec (n * 2 + 1) (byteLength data / 4)); [| discriminate].
    injection Hret as <-.
    unfold TwoCell.index_of, TwoCell.ownerIndex, TwoCell.countIndex,
      TwoCell.OWNER_OFFSET, TwoCell.COUNT_OFFSET, TwoCell.STRIDE.
    cbn [TwoCell.base TwoCell.view]. rewrite Z.div_mul by lia.
    rewrite Int32Array_new_length. unfold BYTES_PER_ELEMENT.
    repeat split; try assumption; lia.
Qed.

Lemma TwoCell_constructor_validation_witness :
  ~ non_negative_safe_integer (Finite (3 # 2))
  /\ TwoCell.constructor (mkOptions (SharedArrayBuffer_new 8) (Some (Finite (3 # 2)))) =
     Throw (WorkerMutexError VALUE_MUST_BE_AN_UNSIGNED_INTEGER)
  /\ TwoCell.constructor (mkOptions (SharedArrayBuffer_new 10) None) = Throw RangeError
  /\ TwoCell.constructor (mkOptions (SharedArrayBuffer_new 8) (Some (of_Z 1))) =
     Throw (WorkerMutexError MUTEX_INDEX_OUT_OF_RANGE)
  /\ TwoCell.constructor (mkOptions (SharedArrayBuffer_new 8) None) =
     Return example_two_cell_mutex.
Proof.
  split; [exact not_non_negative_safe_integer_fraction |].
  split; [| split; [| split]].
  - apply (TwoCell_constructor_validation
             (mkOptions (SharedArrayBuffer_new 8) (Some (Finite (3 # 2))))).
    exact not_non_negative_safe_integer_fraction.
  - apply (proj1 (proj2 (TwoCell_constructor_validation
                           (mkOptions (SharedArrayBuffer_new 10) None))) 0).
    + apply represents_of_Z.
    + unfold MAX_SAFE_INTEGER. lia.
  - apply (proj1 (proj2 (TwoCell_constructor_validation
                           (mkOptions (SharedArrayBuffer_new 8) (Some (of_Z 1))))) 1).
    + apply represents_of_Z.
    + unfold MAX_SAFE_INTEGER. lia.
  - apply (proj1 (proj2 (TwoCell_constructor_validation
                           (mkOptions (SharedArrayBuffer_new 8) None))) 0).
    + apply represents_of_Z.
    + unfold MAX_SAFE_INTEGER. lia.
Defined.

(** ** The two-cell class: the counter *)

Lemma TwoCell_unlock_not_owned (threadId : Z) (this : TwoCell.t) (w : World) (o : Z) :
  cell (i32 w) (TwoCell.ownerIndex this) = Some o ->
  o <> TwoCell.selfId threadId ->
  TwoCell.unlock threadId this w =
  (Throw (WorkerMutexError MUTEX_IS_NOT_OWNED_BY_CURRENT_THREAD),
   log (ELoad (TwoCell.ownerIndex this) o) w).
Proof.
  intros Ho Hom. unfold TwoCell.unlock. step_with Atomics_load_run.
  destruct (Z.eqb_spec o (TwoCell.selfId threadId)); [contradiction | reflexivity].
Qed.

Lemma TwoCell_unlock_shallower (threadId : Z) (this : TwoCell.t) (w : World) (c : Z) :
  cell (i32 w) (TwoCell.ownerIndex this) = Some (TwoCell.selfId threadId) ->
  cell (i32 w) (TwoCell.countIndex this) = Some c ->
  1 < c ->
  TwoCell.unlock threadId this w =
  (Return tt,
   log (ESub (TwoCell.countIndex this) 1 c)
     (put (TwoCell.countIndex this) (ToInt32 (c - 1))
        (log (ELoad (TwoCell.ownerIndex this) (TwoCell.selfId threadId)) w))).
Proof.
  intros Ho Hc Hgt. unfold TwoCell.unlock.
  step_with Atomics_load_run. rewrite Z.eqb_refl. cbn [negb].
  step_with Atomics_sub_run.
  destruct (Z.gtb_spec (c - 1) 0); [reflexivity | lia].
Qed.

Lemma TwoCell_unlock_releases (threadId : Z) (this : TwoCell.t) (w : World) (c : Z) :
  cell (i32 w) (TwoCell.ownerIndex this) = Some (TwoCell.selfId threadId) ->
  cell (i32 w) (TwoCell.countIndex this) = Some c ->
  c <= 1 ->
  TwoCell.unlock threadId this w =
  (Return tt,
   log (ENotify (TwoCell.ownerIndex this) 1)
     (log (EStore (TwoCell.ownerIndex this) 0) (put (TwoCell.ownerIndex this) 0
        (log (EStore (TwoCell.countIndex this) 0) (put (TwoCell.countIndex this) 0
           (log (ESub (TwoCell.countIndex this) 1 c)
              (put (TwoCell.countIndex this) (ToInt32 (c - 1))
                 (log (ELoad (TwoCell.ownerIndex this) (TwoCell.selfId threadId)) w)))))))).
Proof.
  intros Ho Hc Hle. pose proof (TwoCell_indices_distinct this).
  pose proof (cell_Some_range _ _ _ Ho). pose proof (cell_Some_range _ _ _ Hc).
  unfold TwoCell.unlock.
  step_with Atomics_load_run. rewrite Z.eqb_refl. cbn [negb].
  step_with Atomics_sub_run.
  destruct (Z.gtb_spec (c - 1) 0); [lia |].
  step_with Atomics_store_run. step_with Atomics_store_run.
  erewrite Atomics_notify_run by cell_solve.
  reflexivity.
Qed.

(** [unlock()] of the two-cell class.  A thread that is not the owner gets
    MUTEX_IS_NOT_OWNED_BY_CURRENT_THREAD and nothing is written.  For the
    owner the call always returns: it takes 1 off the counter with
    [Atomics.sub], and when what is left is not above 0 it stores 0 to the
    counter and to the owner and notifies once on the owner cell.  There is
    no check for an underflow: a counter at 0 or below releases the mutex
    like a counter at 1. *)
Theorem TwoCell_unlock_behaviour (threadId : Z) (this : TwoCell.t) (w : World) (o c : Z) :
  cell (i32 w) (TwoCell.ownerIndex this) = Some o ->
  cell (i32 w) (TwoCell.countIndex this) = Some c ->
  let oi := TwoCell.ownerIndex this in
  let ci := TwoCell.countIndex this in
  let me := TwoCell.selfId threadId in
  let r := TwoCell.unlock threadId this w in
  (o <> me ->
   fst r = Throw (WorkerMutexError MUTEX_IS_NOT_OWNED_BY_CURRENT_THREAD)
   /\ i32 (snd r) = i32 w)
  /\ (o = me -> 1 < c ->
      fst r = Return tt
      /\ i32 (snd r) = <[Z.to_nat ci := ToInt32 (c - 1)]> (i32 w)
      /\ events (snd r) = events w ++ [ELoad oi me; ESub ci 1 c])
  /\ (o = me -> c <= 1 ->
      fst r = Return tt
      /\ cell (i32 (snd r)) oi = Some 0
      /\ cell (i32 (snd r)) ci = Some 0
      /\ events (snd r) =
         events w ++ [ELoad oi me; ESub ci 1 c; EStore ci 0; EStore oi 0; ENotify oi 1]).
Proof.
  intros Ho Hc oi ci me r. subst oi ci me r.
  pose proof (TwoCell_indices_distinct this).
  pose proof (cell_Some_range _ _ _ Ho). pose proof (cell_Some_range _ _ _ Hc).
  split; [| split].
  - intros Hom. rewrite (TwoCell_unlock_not_owned threadId this w o Ho Hom).
    split; reflexivity.
  - intros -> Hgt. rewrite (TwoCell_unlock_shallower threadId this w c Ho Hc Hgt).
    cbn [fst snd i32 events log put]. rewrite <- !app_assoc.
    repeat split.
  - intros -> Hle. rewrite (TwoCell_unlock_releases threadId this w c Ho Hc Hle).
    cbn [fst snd events log put]. rewrite <- !app_assoc.
    change (ToInt32 0) with 0.
    split; [reflexivity | split; [cell_solve | split; [cell_solve | reflexivity]]].
Qed.

Lemma TwoCell_unlock_behaviour_witness :
  cell (i32 example_two_cell_held) (TwoCell.ownerIndex example_two_cell_mutex) = Some 1
  /\ cell (i32 example_two_cell_held) (TwoCell.countIndex example_two_cell_mutex) = Some 0
  /\ fst (TwoCell.unlock 0 example_two_cell_mutex example_two_cell_held) = Return tt
  /\ cell (i32 (snd (TwoCell.unlock 0 example_two_cell_mutex example_two_cell_held)))
       (TwoCell.ownerIndex example_two_cell_mutex) = Some 0.
Proof.
  split; [reflexivity | split; [reflexivity |]].
  destruct (TwoCell_unlock_behaviour 0 example_two_cell_mutex example_two_cell_held 1 0)
    as (_ & _ & Hrelease); [reflexivity | reflexivity |].
  destruct Hrelease as (Hret & Ho & _); [reflexivity | lia |].
  split; [exact Hret | exact Ho].
Defined.

(** Re-entry in the two-cell class has no guard against an overflow.  The
    [lock()] or [lockAsync()] of the owner at [2^31 - 1] holds returns and
    leaves the counter at [-2^31]; the [unlock()] that follows finds nothing
    above 0 and releases the mutex, owner and counter at 0, though the
    thread has taken [2^31] holds and given up one. *)
Theorem TwoCell_counter_wraps (async : option bool) (threadId : Z) (this : TwoCell.t)
        (fuel : nat) (w : World) :
  cell (i32 w) (TwoCell.ownerIndex this) = Some (TwoCell.selfId threadId) ->
  cell (i32 w) (TwoCell.countIndex this) = Some 2147483647 ->
  let oi := TwoCell.ownerIndex this in
  let ci := TwoCell.countIndex this in
  let r := TwoCell_acquire async threadId this (S fuel) w in
  fst r = Return tt
  /\ cell (i32 (snd r)) oi = Some (TwoCell.selfId threadId)
  /\ cell (i32 (snd r)) ci = Some (-2147483648)
  /\ fst (TwoCell.unlock threadId this (snd r)) = Return tt
  /\ cell (i32 (snd (TwoCell.unlock threadId this (snd r)))) oi = Some 0
  /\ cell (i32 (snd (TwoCell.unlock threadId this (snd r)))) ci = Some 0.
Proof.
  intros Ho Hc oi ci r. subst oi ci r.
  pose proof (TwoCell_indices_distinct this).
  pose proof (cell_Some_range _ _ _ Ho). pose proof (cell_Some_range _ _ _ Hc).
  assert (Hrun : TwoCell_acquire async threadId this (S fuel) w =
                 (Return tt,
                  log (EAdd (TwoCell.countIndex this) 1 2147483647)
                    (put (TwoCell.countIndex this) (-2147483648)
                       (log (ELoad (TwoCell.ownerIndex this) (TwoCell.selfId threadId)) w)))).
  { destruct async as [hasWaitAsync |]; cbn [TwoCell_acquire].
    - now rewrite (TwoCell_lockAsync_owned hasWaitAsync threadId this (S fuel) w _ Ho Hc).
    - unfold TwoCell.lock. cbn [TwoCell.lock_loop].
      step_with Atomics_load_run. rewrite Z.eqb_refl.
      step_with Atomics_add_run. reflexivity. }
  rewrite Hrun. cbn [fst snd].
  split; [reflexivity | split; [cell_solve | split; [cell_solve |]]].
  erewrite TwoCell_unlock_releases; [| cell_solve | cell_solve | lia].
  cbn [fst snd]. change (ToInt32 0) with 0.
  split; [reflexivity | split; cell_solve].
Qed.

Lemma TwoCell_counter_wraps_witness :
  cell (i32 example_two_cell_full) (TwoCell.ownerIndex example_two_cell_mutex) =
    Some (TwoCell.selfId 0)
  /\ cell (i32 example_two_cell_full) (TwoCell.countIndex example_two_cell_mutex) =
     Some 2147483647
  /\ fst (TwoCell.lock 0 example_two_cell_mutex 1 example_two_cell_full) = Return tt
  /\ cell (i32 (snd (TwoCell.lock 0 example_two_cell_mutex 1 example_two_cell_full)))
       (TwoCell.countIndex example_two_cell_mutex) = Some (-2147483648).
Proof.
  split; [reflexivity | split; [reflexivity |]].
  destruct (TwoCell_counter_wraps None 0 example_two_cell_mutex 0 example_two_cell_full)
    as (Hret & _ & Hc & _); [reflexivity | reflexivity |].
  split; [exact Hret | exact Hc].
Defined.

Lemma TwoCell_times_lock (threadId : Z) (this : TwoCell.t) (fuel : nat) (w : World)
      (c0 : Z) (n : nat) :
  0 <= threadId < 2147483647 ->
  cell (i32 w) (TwoCell.ownerIndex this) = Some 0 ->
  cell (i32 w) (TwoCell.countIndex this) = Some c0 ->
  1 <= Z.of_nat n <= 2147483647 ->
  exists w' : World,
    times n (TwoCell.lock threadId this (S fuel)) w = (Return tt, w')
    /\ cell (i32 w') (TwoCell.ownerIndex this) = Some (TwoCell.selfId threadId)
    /\ cell (i32 w') (TwoCell.countIndex this) = Some (Z.of_nat n).
Proof.
  intros Hid Ho Hc.
  destruct (TwoCell_selfId_value threadId Hid) as (_ & Hpos & Hme32).
  pose proof (TwoCell_indices_distinct this) as Hoc.
  pose proof (cell_Some_range _ _ _ Ho). pose proof (cell_Some_range _ _ _ Hc).
  induction n as [| n IH]; intros Hn; [lia |].
  rewrite times_S. destruct n as [| n].
  - cbn [times]. erewrite bind_Return by reflexivity. unfold TwoCell.lock.
    assert (Hme0 : TwoCell.selfId threadId <> 0) by lia.
    rewrite (TwoCell_lock_loop_unowned _ _ _ Hoc Hme0 Hme32 fuel w c0 Ho Hc).
    eexists. split; [reflexivity | split; cell_solve].
  - destruct IH as (w1 & Hrun & Ho1 & Hc1); [lia |].
    pose proof (cell_Some_range _ _ _ Ho1). pose proof (cell_Some_range _ _ _ Hc1).
    erewrite bind_Return by exact Hrun. unfold TwoCell.lock.
    rewrite (TwoCell_lock_loop_owned _ _ _ fuel w1 _ Ho1 Hc1).
    eexists. split; [reflexivity | split; [cell_solve |]].
    rewrite ToInt32_id by (unfold is_int32; lia).
    replace (Z.of_nat (S (S n))) with (Z.of_nat (S n) + 1) by lia. cell_solve.
Qed.

Lemma TwoCell_times_unlock (threadId : Z) (this : TwoCell.t) (w : World) (c : Z) (k : nat) :
  cell (i32 w) (TwoCell.ownerIndex this) = Some (TwoCell.selfId threadId) ->
  cell (i32 w) (TwoCell.countIndex this) = Some c ->
  1 <= c <= 2147483647 -> Z.of_nat k <= c ->
  exists w' : World,
    times k (TwoCell.unlock threadId this) w = (Return tt, w')
    /\ cell (i32 w') (TwoCell.ownerIndex this) =
       Some (if Z.of_nat k <? c then TwoCell.selfId threadId else 0)
    /\ cell (i32 w') (TwoCell.countIndex this) = Some (c - Z.of_nat k).
Proof.
  intros Ho Hc Hrange.
  pose proof (TwoCell_indices_distinct this) as Hoc.
  induction k as [| k IH]; intros Hk.
  - exists w. split; [reflexivity |].
    destruct (Z.ltb_spec (Z.of_nat 0) c); [| lia].
    now rewrite Z.sub_0_r.
  - destruct IH as (w1 & Hrun & Ho1 & Hc1); [lia |].
    destruct (Z.ltb_spec (Z.of_nat k) c) as [Hlt | Hge]; [| lia].
    pose proof (cell_Some_range _ _ _ Ho1). pose proof (cell_Some_range _ _ _ Hc1).
    rewrite times_S. erewrite bind_Return by exact Hrun.
    destruct (Z.ltb_spec (Z.of_nat (S k)) c) as [Hlt' | Hge'].
    + rewrite (TwoCell_unlock_shallower threadId this w1 _ Ho1 Hc1) by lia.
      eexists. split; [reflexivity | split; [cell_solve |]].
      rewrite ToInt32_id by (unfold is_int32; lia).
      replace (c - Z.of_nat (S k)) with (c - Z.of_nat k - 1) by lia. cell_solve.
    + rewrite (TwoCell_unlock_releases threadId this w1 _ Ho1 Hc1) by lia.
      eexists. split; [reflexivity |]. change (ToInt32 0) with 0.
      replace (c - Z.of_nat (S k)) with 0 by lia. split; cell_solve.
Qed.

(** Re-entrancy in the two-cell class.  For every [n] from 1 to [2^31 - 1],
    [n] calls of [lock()] by one thread on an unowned slot, whatever its
    counter cell holds, return and leave the owner cell at the identifier of
    the thread and the counter at [n]; each of the following calls of
    [unlock()] returns and takes 1 off the counter, and the [n]-th puts the
    owner cell back to 0. *)
Theorem TwoCell_reentrant_lock_unlock (threadId : Z) (this : TwoCell.t) (fuel : nat)
        (w : World) (c0 : Z) (n k : nat) :
  0 <= threadId < 2147483647 ->
  cell (i32 w) (TwoCell.ownerIndex this) = Some 0 ->
  cell (i32 w) (TwoCell.countIndex this) = Some c0 ->
  1 <= Z.of_nat n <= 2147483647 ->
  (k <= n)%nat ->
  exists w1 w2 : World,
    times n (TwoCell.lock threadId this (S fuel)) w = (Return tt, w1)
    /\ cell (i32 w1) (TwoCell.ownerIndex this) = Some (threadId + 1)
    /\ cell (i32 w1) (TwoCell.countIndex this) = Some (Z.of_nat n)
    /\ times k (TwoCell.unlock threadId this) w1 = (Return tt, w2)
    /\ cell (i32 w2) (TwoCell.ownerIndex this) =
       Some (if (k <? n)%nat then threadId + 1 else 0)
    /\ cell (i32 w2) (TwoCell.countIndex this) = Some (Z.of_nat n - Z.of_nat k).
Proof.
  intros Hid Ho Hc Hn Hk.
  destruct (TwoCell_selfId_value threadId Hid) as (Hval & Hpos & _).
  destruct (TwoCell_times_lock threadId this fuel w c0 n Hid Ho Hc Hn)
    as (w1 & Hrun1 & Ho1 & Hc1).
  destruct (TwoCell_times_unlock threadId this w1 (Z.of_nat n) k Ho1 Hc1)
    as (w2 & Hrun2 & Ho2 & Hc2); [lia | lia |].
  exists w1, w2. rewrite <- Hval.
  split; [assumption | split; [assumption | split; [assumption |]]].
  split; [assumption | split; [| assumption]].
  rewrite Ho2.
  destruct (Z.ltb_spec (Z.of_nat k) (Z.of_nat n)), (Nat.ltb_spec k n);
    try lia; reflexivity.
Qed.

Lemma TwoCell_reentrant_lock_unlock_witness :
  0 <= 0 < 2147483647
  /\ cell (i32 example_two_cell_world) (TwoCell.ownerIndex example_two_cell_mutex) = Some 0
  /\ cell (i32 example_two_cell_world) (TwoCell.countIndex example_two_cell_mutex) = Some 0
  /\ 1 <= Z.of_nat 2 <= 2147483647
  /\ (2 <= 2)%nat
  /\ exists w1 w2 : World,
       times 2 (TwoCell.lock 0 example_two_cell_mutex 1) example_two_cell_world =
         (Return tt, w1)
       /\ cell (i32 w1) (TwoCell.ownerIndex example_two_cell_mutex) = Some (0 + 1)
       /\ cell (i32 w1) (TwoCell.countIndex example_two_cell_mutex) = Some (Z.of_nat 2)
       /\ times 2 (TwoCell.unlock 0 example_two_cell_mutex) w1 = (Return tt, w2)
       /\ cell (i32 w2) (TwoCell.ownerIndex example_two_cell_mutex) =
          Some (if (2 <? 2)%nat then 0 + 1 else 0)
       /\ cell (i32 w2) (TwoCell.countIndex example_two_cell_mutex) =
          Some (Z.of_nat 2 - Z.of_nat 2).
Proof.
  split; [lia | split; [reflexivity | split; [reflexivity | split; [cbn; lia | split; [lia |]]]]].
  apply (TwoCell_reentrant_lock_unlock 0 example_two_cell_mutex 0 example_two_cell_world 0 2 2).
  - lia.
  - reflexivity.
  - reflexivity.
  - cbn. lia.
  - lia.
Defined.

Lemma TwoCell_poll_loop_polls (oi ci me : Z) (fuel : nat) (w : World) (o d : Z) :
  cell (i32 w) oi = Some o -> o <> 0 -> o <> me -> 0 <= d <= 8 ->
  TwoCell.lockAsync_poll_loop fuel oi ci me d w =
  (OutOfFuel,
   logs (flat_map (fun k : nat => [ELoad oi o; ESleep (Z.min (d + Z.of_nat k) 8)])
           (seq 0 fuel)) w).
Proof.
  revert w d. induction fuel as [| fuel IH]; intros w d Ho Ho0 Hom Hd.
  - cbn. unfold logs. rewrite app_nil_r. now destruct w.
  - cbn [TwoCell.lockAsync_poll_loop]. step_with Atomics_load_run.
    destruct (Z.eqb_spec o me) as [Heq | _]; [contradiction |].
    destruct (Z.eqb_spec o 0) as [Heq | _]; [contradiction |].
    erewrite bind_Return by reflexivity. cbv beta iota.
    erewrite bind_Return by apply sleep_run.
    rewrite IH; [| cell_solve | assumption | assumption | destruct (Z.ltb_spec d 8); lia].
    f_equal. unfold logs, log. cbn [i32 mainThreadWarningShown events].
    f_equal. rewrite <- !app_assoc. f_equal.
    cbn [seq flat_map]. rewrite <- seq_shift, flat_map_map.
    cbn [app]. rewrite Z.add_0_r, (Z.min_l d 8) by lia.
    do 2 f_equal. apply flat_map_ext. intros k.
    do 3 f_equal. destruct (Z.ltb_spec d 8); lia.
Qed.

(** A two-cell slot owned by another thread.  [lock()] reads the owner and
    parks in [Atomics.wait] on the owner cell; [lockAsync()] reads the owner
    once before its loop and then, with [Atomics.waitAsync], awaits the
    promise of a wait on the owner cell, and without it polls for ever,
    sleeping 0, 1, ..., 8, 8, 8, ... ms between the rounds.  None of them
    writes a cell or tries the compare-and-swap. *)
Theorem TwoCell_acquire_waits_while_owned (threadId : Z) (this : TwoCell.t) (fuel : nat)
        (w : World) (o c : Z) :
  cell (i32 w) (TwoCell.ownerIndex this) = Some o ->
  cell (i32 w) (TwoCell.countIndex this) = Some c ->
  is_int32 o -> o <> 0 -> o <> TwoCell.selfId threadId ->
  let oi := TwoCell.ownerIndex this in
  TwoCell.lock threadId this (S fuel) w = (Blocked, logs [ELoad oi o; EWait oi o] w)
  /\ TwoCell.lockAsync true threadId this (S fuel) w =
     (Blocked, logs [ELoad oi o; ELoad oi o; EWaitAsync oi o] w)
  /\ TwoCell.lockAsync false threadId this fuel w =
     (OutOfFuel,
      logs (ELoad oi o
            :: flat_map (fun k : nat => [ELoad oi o; ESleep (Z.min (Z.of_nat k) 8)])
                 (seq 0 fuel)) w).
Proof.
  intros Ho Hc Ho32 Ho0 Hom oi. subst oi.
  assert (Ho32' : ToInt32 o = o) by now apply ToInt32_id.
  split; [| split].
  - unfold TwoCell.lock. cbn [TwoCell.lock_loop]. step_with Atomics_load_run.
    destruct (Z.eqb_spec o (TwoCell.selfId threadId)) as [Heq | _]; [contradiction |].
    destruct (Z.eqb_spec o 0) as [Heq | _]; [contradiction |].
    erewrite bind_Blocked by (eapply Atomics_wait_blocks; rewrite Ho32'; cell_solve).
    unfold logs, log. cbn [i32 mainThreadWarningShown events].
    now rewrite <- !app_assoc.
  - rewrite (TwoCell_lockAsync_held true threadId this (S fuel) w o c) by assumption.
    cbn [TwoCell.lockAsync_waitAsync_loop]. step_with Atomics_load_run.
    destruct (Z.eqb_spec o (TwoCell.selfId threadId)) as [Heq | _]; [contradiction |].
    destruct (Z.eqb_spec o 0) as [Heq | _]; [contradiction |].
    erewrite bind_Return by reflexivity. cbv beta iota.
    erewrite bind_Return
      by (eapply Atomics_waitAsync_pending; rewrite Ho32'; cell_solve).
    cbv beta iota. erewrite bind_Blocked by reflexivity.
    unfold logs, log. cbn [i32 mainThreadWarningShown events].
    now rewrite <- !app_assoc.
  - rewrite (TwoCell_lockAsync_held false threadId this fuel w o c) by assumption.
    rewrite (TwoCell_poll_loop_polls _ _ _ fuel _ o 0) by (cell_solve || assumption || lia).
    unfold logs, log. cbn [i32 mainThreadWarningShown events].
    now rewrite <- !app_assoc.
Qed.

Lemma TwoCell_acquire_waits_while_owned_witness :
  cell (i32 example_two_cell_held) (TwoCell.ownerIndex example_two_cell_mutex) = Some 1
  /\ cell (i32 example_two_cell_held) (TwoCell.countIndex example_two_cell_mutex) = Some 0
  /\ is_int32 1 /\ 1 <> 0 /\ 1 <> TwoCell.selfId 5
  /\ TwoCell.lock 5 example_two_cell_mutex 1 example_two_cell_held =
     (Blocked, logs [ELoad 0 1; EWait 0 1] example_two_cell_held).
Proof.
  split; [reflexivity | split; [reflexivity |]].
  split; [unfold is_int32; lia | split; [lia | split; [discriminate |]]].
  apply (TwoCell_acquire_waits_while_owned 5 example_two_cell_mutex 0
           example_two_cell_held 1 0).
  - reflexivity.
  - reflexivity.
  - unfold is_int32. lia.
  - lia.
  - discriminate.
Defined.

(** ** The intermediate three-cell class *)

Lemma OwnerFirst_selfId_value (threadId : Z) :
  0 <= threadId < 2147483647 ->
  OwnerFirst.selfId threadId = threadId + 1
  /\ 0 < OwnerFirst.selfId threadId
  /\ ToInt32 (OwnerFirst.selfId threadId) = OwnerFirst.selfId threadId.
Proof. exact (TwoCell_selfId_value threadId). Qed.

Lemma OwnerFirst_acquire_owned (async : option bool) (threadId : Z) (this : WorkerMutex.t)
      (fuel : nat) (w : World) (c : Z) :
  cell (i32 w) (WorkerMutex.ownerIndex this) = Some (OwnerFirst.selfId threadId) ->
  cell (i32 w) (WorkerMutex.countIndex this) = Some c ->
  OwnerFirst_acquire async threadId this (S fuel) w =
  (Return tt,
   log (EAdd (WorkerMutex.countIndex this) 1 c)
     (put (WorkerMutex.countIndex this) (ToInt32 (c + 1))
        (log (ELoad (WorkerMutex.ownerIndex this) (OwnerFirst.selfId threadId)) w))).
Proof.
  intros Ho Hc.
  destruct async as [[|] |]; cbn [OwnerFirst_acquire];
    unfold OwnerFirst.lockAsync, OwnerFirst.lock;
    cbn [OwnerFirst.lock_loop OwnerFirst.lockAsync_waitAsync_loop
           OwnerFirst.lockAsync_poll_loop];
    step_with Atomics_load_run; rewrite Z.eqb_refl;
    step_with Atomics_add_run; reflexivity.
Qed.

Lemma OwnerFirst_acquire_free (async : option bool) (threadId : Z) (this : WorkerMutex.t)
      (fuel : nat) (w : World) (o c : Z) :
  slot (i32 w) this = Some (mkSlot 0 o c) ->
  o <> OwnerFirst.selfId threadId ->
  OwnerFirst_acquire async threadId this (S fuel) w =
  (Return tt,
   logs [ELoad (WorkerMutex.ownerIndex this) o; ELoad (WorkerMutex.lockIndex this) 0;
         ECompareExchange (WorkerMutex.lockIndex this) 0 1 0;
         EStore (WorkerMutex.ownerIndex this) (OwnerFirst.selfId threadId);
         EStore (WorkerMutex.countIndex this) 1]
     (put (WorkerMutex.countIndex this) 1
        (put (WorkerMutex.ownerIndex this) (ToInt32 (OwnerFirst.selfId threadId))
           (put (WorkerMutex.lockIndex this) 1 w)))).
Proof.
  intros Hs Hom. slot_setup this Hs. cbn [flag owner recursionCount] in *.
  destruct async as [[|] |]; cbn [OwnerFirst_acquire];
    unfold OwnerFirst.lockAsync, OwnerFirst.lock;
    cbn [OwnerFirst.lock_loop OwnerFirst.lockAsync_waitAsync_loop
           OwnerFirst.lockAsync_poll_loop];
    step_with Atomics_load_run;
    (destruct (Z.eqb_spec o (OwnerFirst.selfId threadId)) as [Heq | _];
     [contradiction |]);
    step_with Atomics_load_run; cbn [Z.eqb];
    (erewrite bind_Return
       by (eapply (Atomics_compareExchange_hit (WorkerMutex.lockIndex this) 0 1);
           cell_solve));
    change (ToInt32 0) with 0; change (ToInt32 1) with 1; cbn [Z.eqb];
    step_with Atomics_store_run; step_with Atomics_store_run;
    unfold logs, log, put; cbn [i32 mainThreadWarningShown events];
    rewrite <- !app_assoc; reflexivity.
Qed.

Lemma OwnerFirst_acquire_held (async : option bool) (threadId : Z) (this : WorkerMutex.t)
      (fuel : nat) (w : World) (o c : Z) :
  slot (i32 w) this = Some (mkSlot 1 o c) ->
  o <> OwnerFirst.selfId threadId ->
  i32 (snd (OwnerFirst_acquire async threadId this fuel w)) = i32 w
  /\ forall u : unit, fst (OwnerFirst_acquire async threadId this fuel w) <> Return u.
Proof.
  intros Hs Hom. apply slot_cells in Hs as (Hf & Ho & _). cbn [flag owner] in *.
  destruct async as [[|] |]; cbn [OwnerFirst_acquire];
    unfold OwnerFirst.lockAsync, OwnerFirst.lock.
  - destruct fuel as [| fuel]; [split; [reflexivity | discriminate] |].
    cbn [OwnerFirst.lockAsync_waitAsync_loop].
    step_with Atomics_load_run.
    destruct (Z.eqb_spec o (OwnerFirst.selfId threadId)) as [Heq | _]; [contradiction |].
    step_with Atomics_load_run. cbn [Z.eqb].
    erewrite bind_Return by (eapply Atomics_waitAsync_pending; cell_solve).
    cbv beta iota. erewrite bind_Blocked by reflexivity.
    split; [reflexivity | discriminate].
  - set (oi := WorkerMutex.ownerIndex this) in *.
    set (fi := WorkerMutex.lockIndex this) in *.
    generalize 0 as delay. revert w Hf Ho.
    induction fuel as [| fuel IH]; intros w Hf Ho delay.
    + split; [reflexivity | discriminate].
    + cbn [OwnerFirst.lockAsync_poll_loop].
      step_with Atomics_load_run.
      destruct (Z.eqb_spec o (OwnerFirst.selfId threadId)) as [Heq | _]; [contradiction |].
      step_with Atomics_load_run. cbn [Z.eqb].
      erewrite bind_Return by apply sleep_run.
      edestruct IH as (Hmem & Hret); [| | rewrite Hmem; split; [reflexivity | exact Hret]];
        cell_solve.
  - destruct fuel as [| fuel]; [split; [reflexivity | discriminate] |].
    cbn [OwnerFirst.lock_loop].
    step_with Atomics_load_run.
    destruct (Z.eqb_spec o (OwnerFirst.selfId threadId)) as [Heq | _]; [contradiction |].
    step_with Atomics_load_run. cbn [Z.eqb].
    erewrite bind_Blocked by (eapply Atomics_wait_blocks; cell_solve).
    split; [reflexivity | discriminate].
Qed.

(** [lock()] and [lockAsync()] of the intermediate class, by the cells of
    the slot.  The owner is tested first and alone: the thread whose
    identifier is in the owner cell adds 1 to the counter, with the
    wrap-around of [Atomics.add] and whatever the flag is.  Any other thread
    takes a slot whose flag is 0 with one compare-and-swap on the flag and
    the stores of owner and counter, and neither returns nor writes while
    the flag is 1. *)
Theorem OwnerFirst_acquire_behaviour (async : option bool) (threadId : Z)
        (this : WorkerMutex.t) (fuel : nat) (w : World) (s : Slot) :
  slot (i32 w) this = Some s ->
  let me := OwnerFirst.selfId threadId in
  let r := OwnerFirst_acquire async threadId this (S fuel) w in
  (owner s = me ->
   fst r = Return tt
   /\ slot (i32 (snd r)) this = Some (mkSlot (flag s) me (ToInt32 (recursionCount s + 1))))
  /\ (owner s <> me -> flag s = 0 ->
      fst r = Return tt
      /\ slot (i32 (snd r)) this = Some (mkSlot 1 (ToInt32 me) 1)
      /\ same_elsewhere this (i32 w) (i32 (snd r)))
  /\ (owner s <> me -> flag s = 1 ->
      i32 (snd r) = i32 w /\ forall u : unit, fst r <> Return u).
Proof.
  intros Hs me r. subst me r. destruct s as [f o c].
  cbn [flag owner recursionCount]. pose proof Hs as Hs'.
  slot_setup this Hs'. cbn [flag owner recursionCount] in *.
  split; [| split].
  - intros ->. rewrite (OwnerFirst_acquire_owned async threadId this fuel w c) by assumption.
    cbn [fst snd]. split; [reflexivity |]. apply slot_intro; cell_solve.
  - intros Hom ->. rewrite (OwnerFirst_acquire_free async threadId this fuel w o c Hs Hom).
    cbn [fst snd]. split; [reflexivity | split].
    + apply slot_intro; unfold logs; cell_solve.
    + unfold logs, put. split.
      * cbn [i32]. now rewrite !length_insert.
      * intros j Hj1 Hj2 Hj3. cbn [i32]. now rewrite !cell_insert_ne by lia.
  - intros Hom ->. exact (OwnerFirst_acquire_held async threadId this (S fuel) w o c Hs Hom).
Qed.

Lemma OwnerFirst_acquire_behaviour_witness :
  slot (i32 example_world) example_mutex = Some (mkSlot 0 0 0)
  /\ owner (mkSlot 0 0 0) <> OwnerFirst.selfId 0
  /\ fst (OwnerFirst.lock 0 example_mutex 1 example_world) = Return tt
  /\ slot (i32 (snd (OwnerFirst.lock 0 example_mutex 1 example_world))) example_mutex =
     Some (mkSlot 1 1 1).
Proof.
  split; [reflexivity | split; [discriminate |]].
  destruct (OwnerFirst_acquire_behaviour None 0 example_mutex 0 example_world (mkSlot 0 0 0))
    as (_ & Hfree & _); [reflexivity |].
  destruct Hfree as (Hret & Hslot & _); [discriminate | reflexivity |].
  split; [exact Hret | exact Hslot].
Defined.

Lemma OwnerFirst_unlock_not_owned (threadId : Z) (this : WorkerMutex.t) (fuel : nat)
      (w : World) (o : Z) :
  cell (i32 w) (WorkerMutex.ownerIndex this) = Some o ->
  o <> OwnerFirst.selfId threadId ->
  OwnerFirst.unlock threadId this fuel w =
  (Throw (WorkerMutexError MUTEX_IS_NOT_OWNED_BY_CURRENT_THREAD),
   log (ELoad (WorkerMutex.ownerIndex this) o) w).
Proof.
  intros Ho Hom. unfold OwnerFirst.unlock. step_with Atomics_load_run.
  destruct (Z.eqb_spec o (OwnerFirst.selfId threadId)); [contradiction | reflexivity].
Qed.

Lemma OwnerFirst_unlock_underflow (threadId : Z) (this : WorkerMutex.t) (fuel : nat)
      (w : World) (c : Z) :
  cell (i32 w) (WorkerMutex.ownerIndex this) = Some (OwnerFirst.selfId threadId) ->
  cell (i32 w) (WorkerMutex.countIndex this) = Some c ->
  c <= 0 ->
  OwnerFirst.unlock threadId this (S fuel) w =
  (Throw (WorkerMutexError MUTEX_RECURSION_COUNT_UNDERFLOW),
   log (ELoad (WorkerMutex.countIndex this) c)
     (log (ELoad (WorkerMutex.ownerIndex this) (OwnerFirst.selfId threadId)) w)).
Proof.
  intros Ho Hc Hle. unfold OwnerFirst.unlock. step_with Atomics_load_run.
  rewrite Z.eqb_refl. cbn [negb OwnerFirst.unlock_loop].
  step_with Atomics_load_run.
  destruct (Z.leb_spec c 0); [reflexivity | lia].
Qed.

Lemma OwnerFirst_unlock_shallower (threadId : Z) (this : WorkerMutex.t) (fuel : nat)
      (w : World) (c : Z) :
  cell (i32 w) (WorkerMutex.ownerIndex this) = Some (OwnerFirst.selfId threadId) ->
  cell (i32 w) (WorkerMutex.countIndex this) = Some c ->
  1 < c -> is_int32 c ->
  OwnerFirst.unlock threadId this (S fuel) w =
  (Return tt,
   log (ECompareExchange (WorkerMutex.countIndex this) c (c - 1) c)
     (put (WorkerMutex.countIndex this) (c - 1)
        (log (ELoad (WorkerMutex.countIndex this) c)
           (log (ELoad (WorkerMutex.ownerIndex this) (OwnerFirst.selfId threadId)) w)))).
Proof.
  intros Ho Hc Hgt H32. unfold OwnerFirst.unlock. step_with Atomics_load_run.
  rewrite Z.eqb_refl. cbn [negb OwnerFirst.unlock_loop].
  step_with Atomics_load_run.
  destruct (Z.leb_spec c 0); [lia |].
  assert (Hc32 : ToInt32 c = c) by now apply ToInt32_id.
  assert (Hc32' : ToInt32 (c - 1) = c - 1)
    by (apply ToInt32_id; unfold is_int32 in *; lia).
  erewrite bind_Return
    by (eapply Atomics_compareExchange_hit; rewrite Hc32; cell_solve).
  rewrite Hc32, Hc32', Z.eqb_refl. cbn [negb].
  destruct (Z.gtb_spec (c - 1) 0); [reflexivity | lia].
Qed.

Lemma OwnerFirst_unlock_releases (threadId : Z) (this : WorkerMutex.t) (fuel : nat)
      (w : World) (f : Z) :
  slot (i32 w) this = Some (mkSlot f (OwnerFirst.selfId threadId) 1) ->
  OwnerFirst.unlock threadId this (S fuel) w =
  (Return tt,
   logs [ELoad (WorkerMutex.ownerIndex this) (OwnerFirst.selfId threadId);
         ELoad (WorkerMutex.countIndex this) 1;
         ECompareExchange (WorkerMutex.countIndex this) 1 0 1;
         EStore (WorkerMutex.countIndex this) 0; EStore (WorkerMutex.ownerIndex this) 0;
         EStore (WorkerMutex.lockIndex this) 0; ENotify (WorkerMutex.lockIndex this) 1]
     (put (WorkerMutex.lockIndex this) 0
        (put (WorkerMutex.ownerIndex this) 0
           (put (WorkerMutex.countIndex this) 0 (put (WorkerMutex.countIndex this) 0 w))))).
Proof.
  intros Hs. slot_setup this Hs. cbn [flag owner recursionCount] in *.
  unfold OwnerFirst.unlock. step_with Atomics_load_run.
  rewrite Z.eqb_refl. cbn [negb OwnerFirst.unlock_loop].
  step_with Atomics_load_run. cbn [Z.leb Z.compare].
  erewrite bind_Return
    by (eapply (Atomics_compareExchange_hit (WorkerMutex.countIndex this) 1 (1 - 1));
        cell_solve).
  change (ToInt32 1) with 1. change (ToInt32 (1 - 1)) with 0.
  cbn [Z.eqb Pos.eqb negb]. change (1 - 1 >? 0) with false. cbv beta iota.
  step_with Atomics_store_run. step_with Atomics_store_run.
  step_with Atomics_store_run. step_with Atomics_notify_run.
  unfold logs, log, put. cbn [i32 mainThreadWarningShown events].
  rewrite <- !app_assoc. reflexivity.
Qed.

(** In the intermediate class the counter can get stuck.  Re-entry adds to
    the counter with no guard against an overflow, [unlock()] guards
    against an underflow: the [lock()] or [lockAsync()] of the owner at
    [2^31 - 1] holds returns and leaves the counter at [-2^31], and from
    then on [unlock()] throws MUTEX_RECURSION_COUNT_UNDERFLOW and writes
    nothing, so that the owner cannot release the mutex. *)
Theorem OwnerFirst_counter_sticks (async : option bool) (threadId : Z)
        (this : WorkerMutex.t) (fuel : nat) (w : World) (f : Z) :
  slot (i32 w) this = Some (mkSlot f (OwnerFirst.selfId threadId) 2147483647) ->
  let r := OwnerFirst_acquire async threadId this (S fuel) w in
  fst r = Return tt
  /\ slot (i32 (snd r)) this = Some (mkSlot f (OwnerFirst.selfId threadId) (-2147483648))
  /\ forall w' : World,
       i32 w' = i32 (snd r) ->
       fst (OwnerFirst.unlock threadId this (S fuel) w') =
         Throw (WorkerMutexError MUTEX_RECURSION_COUNT_UNDERFLOW)
       /\ i32 (snd (OwnerFirst.unlock threadId this (S fuel) w')) = i32 w'.
Proof.
  intros Hs r. subst r. pose proof Hs as Hs'.
  slot_setup this Hs'. cbn [flag owner recursionCount] in *.
  rewrite (OwnerFirst_acquire_owned async threadId this fuel w 2147483647) by assumption.
  cbn [fst snd]. change (ToInt32 (2147483647 + 1)) with (-2147483648).
  split; [reflexivity | split; [apply slot_intro; cell_solve |]].
  intros w' Hw'.
  rewrite (OwnerFirst_unlock_underflow threadId this fuel w' (-2147483648)).
  - split; reflexivity.
  - rewrite Hw'. cell_solve.
  - rewrite Hw'. cell_solve.
  - lia.
Qed.

Lemma OwnerFirst_counter_sticks_witness :
  slot (i32 example_owner_first_full) example_mutex =
    Some (mkSlot 1 (OwnerFirst.selfId 0) 2147483647)
  /\ fst (OwnerFirst.lock 0 example_mutex 1 example_owner_first_full) = Return tt
  /\ slot (i32 (snd (OwnerFirst.lock 0 example_mutex 1 example_owner_first_full)))
       example_mutex = Some (mkSlot 1 (OwnerFirst.selfId 0) (-2147483648)).
Proof.
  split; [reflexivity |].
  destruct (OwnerFirst_counter_sticks None 0 example_mutex 0 example_owner_first_full 1)
    as (Hret & Hslot & _); [reflexivity |].
  split; [exact Hret | exact Hslot].
Defined.

Lemma OwnerFirst_times_lock (threadId : Z) (this : WorkerMutex.t) (fuel : nat) (w : World)
      (n : nat) :
  0 <= threadId < 2147483647 ->
  slot (i32 w) this = Some (mkSlot 0 0 0) ->
  1 <= Z.of_nat n <= 2147483647 ->
  exists w' : World,
    times n (OwnerFirst.lock threadId this (S fuel)) w = (Return tt, w')
    /\ slot (i32 w') this = Some (mkSlot 1 (OwnerFirst.selfId threadId) (Z.of_nat n)).
Proof.
  intros Hid Hs.
  destruct (OwnerFirst_selfId_value threadId Hid) as (_ & Hpos & Hme32).
  induction n as [| n IH]; intros Hn; [lia |].
  rewrite times_S. destruct n as [| n].
  - cbn [times]. erewrite bind_Return by reflexivity.
    pose proof (OwnerFirst_acquire_free None threadId this fuel w 0 0 Hs ltac:(lia)) as Hrun.
    cbn [OwnerFirst_acquire] in Hrun. rewrite Hrun, Hme32.
    slot_setup this Hs. cbn [flag owner recursionCount] in *.
    eexists. split; [reflexivity |]. apply slot_intro; unfold logs; cell_solve.
  - destruct IH as (w1 & Hrun & Hs1); [lia |].
    erewrite bind_Return by exact Hrun.
    pose proof Hs1 as Hs1'. slot_setup this Hs1'. cbn [flag owner recursionCount] in *.
    pose proof (OwnerFirst_acquire_owned None threadId this fuel w1 _ Ho Hc) as Hrun'.
    cbn [OwnerFirst_acquire] in Hrun'. rewrite Hrun'.
    rewrite ToInt32_id by (unfold is_int32; lia).
    eexists. split; [reflexivity |].
    replace (Z.of_nat (S (S n))) with (Z.of_nat (S n) + 1) by lia.
    apply slot_intro; cell_solve.
Qed.

Lemma OwnerFirst_times_unlock (threadId : Z) (this : WorkerMutex.t) (fuel : nat)
      (w : World) (c : Z) (k : nat) :
  slot (i32 w) this = Some (mkSlot 1 (OwnerFirst.selfId threadId) c) ->
  1 <= c <= 2147483647 -> Z.of_nat k <= c ->
  exists w' : World,
    times k (OwnerFirst.unlock threadId this (S fuel)) w = (Return tt, w')
    /\ slot (i32 w') this =
       Some (if Z.of_nat k <? c
             then mkSlot 1 (OwnerFirst.selfId threadId) (c - Z.of_nat k)
             else mkSlot 0 0 0).
Proof.
  intros Hs Hc. induction k as [| k IH]; intros Hk.
  - exists w. split; [reflexivity |].
    destruct (Z.ltb_spec (Z.of_nat 0) c) as [Hlt | Hge]; [| cbn in Hge; lia].
    now rewrite Z.sub_0_r.
  - destruct IH as (w1 & Hrun & Hs1); [lia |].
    destruct (Z.ltb_spec (Z.of_nat k) c) as [Hlt | Hge]; [| lia].
    rewrite times_S. erewrite bind_Return by exact Hrun.
    destruct (Z.ltb_spec (Z.of_nat (S k)) c) as [Hlt' | Hge'].
    + pose proof Hs1 as Hs1'. slot_setup this Hs1'. cbn [flag owner recursionCount] in *.
      rewrite (OwnerFirst_unlock_shallower threadId this fuel w1 (c - Z.of_nat k))
        by (assumption || lia || (unfold is_int32; lia)).
      eexists. split; [reflexivity |].
      replace (c - Z.of_nat (S k)) with (c - Z.of_nat k - 1) by lia.
      apply slot_intro; cell_solve.
    + replace (c - Z.of_nat k) with 1 in Hs1 by lia.
      rewrite (OwnerFirst_unlock_releases threadId this fuel w1 1 Hs1).
      slot_setup this Hs1. cbn [flag owner recursionCount] in *.
      eexists. split; [reflexivity |]. apply slot_intro; unfold logs; cell_solve.
Qed.

(** Re-entrancy in the intermediate class.  For every [n] from 1 to
    [2^31 - 1], [n] calls of [lock()] by one thread on a slot as allocated
    return and leave [flag = 1], the owner cell at [threadId + 1] and the
    counter at [n]; each of the following calls of [unlock()] returns and
    takes 1 off the counter, and the [n]-th leaves the three cells at 0. *)
Theorem OwnerFirst_reentrant_lock_unlock (threadId : Z) (this : WorkerMutex.t)
        (fuel : nat) (w : World) (n k : nat) :
  0 <= threadId < 2147483647 ->
  slot (i32 w) this = Some (mkSlot 0 0 0) ->
  1 <= Z.of_nat n <= 2147483647 ->
  (k <= n)%nat ->
  exists w1 w2 : World,
    times n (OwnerFirst.lock threadId this (S fuel)) w = (Return tt, w1)
    /\ slot (i32 w1) this = Some (mkSlot 1 (threadId + 1) (Z.of_nat n))
    /\ times k (OwnerFirst.unlock threadId this (S fuel)) w1 = (Return tt, w2)
    /\ slot (i32 w2) this =
       Some (if (k <? n)%nat
             then mkSlot 1 (threadId + 1) (Z.of_nat n - Z.of_nat k)
             else mkSlot 0 0 0).
Proof.
  intros Hid Hs Hn Hk.
  destruct (OwnerFirst_selfId_value threadId Hid) as (Hval & _).
  destruct (OwnerFirst_times_lock threadId this fuel w n Hid Hs Hn) as (w1 & Hrun1 & Hs1).
  destruct (OwnerFirst_times_unlock threadId this fuel w1 (Z.of_nat n) k Hs1)
    as (w2 & Hrun2 & Hs2); [lia | lia |].
  exists w1, w2. rewrite <- Hval.
  split; [assumption | split; [assumption | split; [assumption |]]].
  rewrite Hs2.
  destruct (Z.ltb_spec (Z.of_nat k) (Z.of_nat n)), (Nat.ltb_spec k n);
    try lia; reflexivity.
Qed.

Lemma OwnerFirst_reentrant_lock_unlock_witness :
  0 <= 0 < 2147483647
  /\ slot (i32 example_world) example_mutex = Some (mkSlot 0 0 0)
  /\ 1 <= Z.of_nat 2 <= 2147483647
  /\ (1 <= 2)%nat
  /\ exists w1 w2 : World,
       times 2 (OwnerFirst.lock 0 example_mutex 1) example_world = (Return tt, w1)
       /\ slot (i32 w1) example_mutex = Some (mkSlot 1 (0 + 1) (Z.of_nat 2))
       /\ times 1 (OwnerFirst.unlock 0 example_mutex 1) w1 = (Return tt, w2)
       /\ slot (i32 w2) example_mutex =
          Some (if (1 <? 2)%nat
                then mkSlot 1 (0 + 1) (Z.of_nat 2 - Z.of_nat 1)
                else mkSlot 0 0 0).
Proof.
  split; [lia | split; [reflexivity | split; [cbn; lia | split; [lia |]]]].
  apply (OwnerFirst_reentrant_lock_unlock 0 example_mutex 0 example_world 2 1).
  - lia.
  - reflexivity.
  - cbn. lia.
  - lia.
Defined.

(** ** Interleavings *)

Import Interleaving.

(** Splits the tests of [next] in the hypothesis [H]. *)
Ltac split_tests H :=
  repeat match type of H with
    | context [if ?b then _ else _] =>
        let E := fresh "E" in destruct b eqn:E
    end.

Ltac tests_to_Z :=
  repeat match goal with
    | E : (_ && _) = true |- _ => apply andb_true_iff in E as [? ?]
    | E : (_ || _) = false |- _ => apply orb_false_iff in E as [? ?]
    | E : negb _ = false |- _ => apply negb_false_iff in E
    | E : negb _ = true |- _ => apply negb_true_iff in E
    | E : (_ =? _) = true |- _ => apply Z.eqb_eq in E
    | E : (_ =? _) = false |- _ => apply Z.eqb_neq in E
    | E : (_ <=? _) = true |- _ => apply Z.leb_le in E
    | E : (_ <=? _) = false |- _ => apply Z.leb_gt in E
    | E : (_ >=? _) = true |- _ => apply Z.geb_le in E
    | E : (_ >=? _) = false |- _ => rewrite Z.geb_leb in E; apply Z.leb_gt in E
    | E : (_ >? _) = true |- _ => rewrite Z.gtb_ltb in E; apply Z.ltb_lt in E
    | E : (_ >? _) = false |- _ => rewrite Z.gtb_ltb in E; apply Z.ltb_ge in E
    end.

Lemma ToInt32_small (z : Z) :
  -2147483648 <= z <= 2147483647 -> ToInt32 z = z.
Proof. apply ToInt32_id. Qed.

Lemma point_invariant_elsewhere (p : Pc) (s s' : Slot) :
  in_sequence p = false -> point_invariant p s -> point_invariant p s'.
Proof. destruct p; cbn; intros; try discriminate; assumption. Qed.

(** While a thread is inside a sequence the flag is 1 and the counter is 0,
    and no other thread writes or enters a sequence. *)
Lemma thread_step_busy (me : Z) (p p' : Pc) (s s' : Slot) (l : Label) :
  in_sequence p = false -> point_invariant p s ->
  flag s = 1 -> recursionCount s = 0 ->
  thread_step me p s l p' s' ->
  s' = s /\ in_sequence p' = false /\ point_invariant p' s'.
Proof.
  intros Hseq Hpoint Hflag Hcount Hstep.
  destruct Hstep as [s | s | p p' s s' l Hidle Hnext]; [cbn; auto | cbn; auto |].
  unfold WorkerMutex.MAX_RECURSION_COUNT in *.
  destruct p; cbn in Hnext, Hpoint, Hseq; try discriminate; try contradiction;
    change (ToInt32 0) with 0 in Hnext;
    split_tests Hnext; injection Hnext as <- <- <-; tests_to_Z;
    cbn; try (repeat split; congruence || lia || auto).
  all: exfalso; unfold WorkerMutex.MAX_RECURSION_COUNT in *;
    rewrite (ToInt32_small count) in * by lia; lia.
Qed.

(** The thread inside a sequence goes on with its stores and leaves the
    slot settled. *)
Lemma thread_step_in_sequence (me : Z) (p p' : Pc) (s s' : Slot) (l : Label) :
  in_sequence p = true -> point_invariant p s ->
  thread_step me p s l p' s' ->
  point_invariant p' s'
  /\ (in_sequence p' = true \/ (in_sequence p' = false /\ settled s')).
Proof.
  intros Hseq Hpoint Hstep.
  destruct Hstep as [s | s | p p' s s' l Hidle Hnext]; [discriminate | discriminate |].
  unfold settled, WorkerMutex.MAX_RECURSION_COUNT.
  destruct p; cbn in Hnext, Hpoint, Hseq; try discriminate;
    injection Hnext as <- <- <-; cbn;
    change (ToInt32 0) with 0; change (ToInt32 1) with 1.
  - split; [tauto | left; reflexivity].
  - split; [exact I | right; split; [reflexivity | right; lia]].
  - split; [tauto | left; reflexivity].
  - split; [tauto | left; reflexivity].
  - split; [exact I | right; split; [reflexivity | left; tauto]].
Qed.

(** A thread outside every sequence, on a settled slot. *)
Lemma thread_step_settled (me : Z) (p p' : Pc) (s s' : Slot) (l : Label) :
  in_sequence p = false -> point_invariant p s -> settled s ->
  thread_step me p s l p' s' ->
  point_invariant p' s' /\ (in_sequence p' = true \/ settled s').
Proof.
  intros Hseq Hpoint Hsettled Hstep.
  destruct Hstep as [s | s | p p' s s' l Hidle Hnext];
    [cbn; auto | cbn; auto |].
  unfold settled, WorkerMutex.MAX_RECURSION_COUNT in *.
  destruct p; cbn in Hnext, Hpoint, Hseq; try discriminate; try contradiction;
    change (ToInt32 0) with 0 in Hnext; change (ToInt32 1) with 1 in Hnext;
    split_tests Hnext; injection Hnext as <- <- <-; tests_to_Z;
    cbn; try (split; [exact I || lia | right; assumption]).
  all: unfold WorkerMutex.MAX_RECURSION_COUNT in *.
  - (* the compare-and-swap on the flag wins *)
    split; [lia | left; reflexivity].
  - (* the counter goes up *)
    rewrite (ToInt32_small count) in * by lia.
    rewrite (ToInt32_small (count + 1)) by lia.
    split; [exact I | right; right; lia].
  - (* the counter is read for the decrement *)
    split; [lia | right; assumption].
  - (* the counter goes down and stays above 0 *)
    rewrite (ToInt32_small count) in * by lia.
    rewrite (ToInt32_small (count - 1)) by lia.
    split; [exact I | right; right; lia].
  - (* the counter goes down to 0 *)
    rewrite (ToInt32_small count) in * by lia.
    rewrite (ToInt32_small (count - 1)) by lia.
    split; [lia | left; reflexivity].
Qed.

Lemma update_same {A : Type} (f : nat -> A) (i : nat) (p : A) : update f i p i = p.
Proof. unfold update. now rewrite Nat.eqb_refl. Qed.

Lemma update_other {A : Type} (f : nat -> A) (i j : nat) (p : A) :
  j <> i -> update f i p j = f j.
Proof. intros H. unfold update. now destruct (Nat.eqb_spec j i). Qed.

Lemma settled_no_sequence (c : Config) :
  (forall i : nat, point_invariant (pcs c i) (cells c)) ->
  settled (cells c) ->
  forall i : nat, in_sequence (pcs c i) = false.
Proof.
  intros Hpoints Hsettled i. specialize (Hpoints i).
  unfold settled in Hsettled.
  destruct (pcs c i); cbn in *; try reflexivity; exfalso; lia.
Qed.

Lemma in_sequence_busy (p : Pc) (s : Slot) :
  in_sequence p = true -> point_invariant p s ->
  flag s = 1 /\ recursionCount s = 0.
Proof. destruct p; cbn; intros; try discriminate; tauto. Qed.

Lemma invariant_step (ident : nat -> Z) (c c' : Config) (i : nat) (l : Label) :
  invariant c -> step ident c i l c' -> invariant c'.
Proof.
  intros (Hpoints & Hunique & Hstate) Hstep.
  destruct Hstep as [c i l p' s' Hthread]. unfold invariant. cbn [cells pcs].
  destruct (in_sequence (pcs c i)) eqn:Hi.
  - (* thread [i] is the one inside a sequence *)
    destruct (thread_step_in_sequence _ _ _ _ _ _ Hi (Hpoints i) Hthread)
      as (Hpoint' & Hnext).
    assert (Hothers : forall j : nat, j <> i -> in_sequence (pcs c j) = false).
    { intros j Hj. destruct (in_sequence (pcs c j)) eqn:E; [| reflexivity].
      exfalso. apply Hj. now apply Hunique. }
    split; [| split].
    + intros j. destruct (Nat.eq_dec j i) as [-> | Hj].
      * now rewrite update_same.
      * rewrite update_other by assumption.
        apply (point_invariant_elsewhere _ (cells c)); auto.
    + intros j k Hj Hk.
      destruct (Nat.eq_dec j i) as [-> | Hji], (Nat.eq_dec k i) as [-> | Hki];
        try reflexivity.
      * rewrite update_other in Hk by assumption. rewrite Hothers in Hk; discriminate || auto.
      * rewrite update_other in Hj by assumption. rewrite Hothers in Hj; discriminate || auto.
      * rewrite update_other in Hj by assumption. rewrite Hothers in Hj; discriminate || auto.
    + destruct Hnext as [Hin | [_ Hsettled]]; [left | right; assumption].
      exists i. now rewrite update_same.
  - destruct Hstate as [(k & Hk) | Hsettled].
    + (* another thread is inside a sequence *)
      destruct (in_sequence_busy _ _ Hk (Hpoints k)) as (Hflag & Hcount).
      destruct (thread_step_busy _ _ _ _ _ _ Hi (Hpoints i) Hflag Hcount Hthread)
        as (-> & Hi' & Hpoint').
      assert (Hki : k <> i) by (intros ->; congruence).
      split; [| split].
      * intros j. destruct (Nat.eq_dec j i) as [-> | Hj].
        -- now rewrite update_same.
        -- rewrite update_other by assumption. apply Hpoints.
      * intros j j' Hj Hj'.
        destruct (Nat.eq_dec j i) as [-> | Hji];
          [rewrite update_same in Hj; congruence |].
        destruct (Nat.eq_dec j' i) as [-> | Hji'];
          [rewrite update_same in Hj'; congruence |].
        rewrite update_other in Hj, Hj' by assumption. now apply Hunique.
      * left. exists k. now rewrite update_other.
    + (* the slot is settled *)
      pose proof (settled_no_sequence c Hpoints Hsettled) as Hnone.
      destruct (thread_step_settled _ _ _ _ _ _ Hi (Hpoints i) Hsettled Hthread)
        as (Hpoint' & Hnext).
      split; [| split].
      * intros j. destruct (Nat.eq_dec j i) as [-> | Hj].
        -- now rewrite update_same.
        -- rewrite update_other by assumption.
           apply (point_invariant_elsewhere _ (cells c)); auto.
      * intros j j' Hj Hj'.
        destruct (Nat.eq_dec j i) as [-> | Hji], (Nat.eq_dec j' i) as [-> | Hji'];
          try reflexivity.
        -- rewrite update_other in Hj' by assumption. rewrite Hnone in Hj'. discriminate.
        -- rewrite update_other in Hj by assumption. rewrite Hnone in Hj. discriminate.
        -- rewrite update_other in Hj by assumption. rewrite Hnone in Hj. discriminate.
      * destruct Hnext as [Hin | Hs]; [left | right; assumption].
        exists i. now rewrite update_same.
Qed.

Lemma invariant_initial : invariant initial.
Proof.
  unfold invariant, initial. cbn. split; [auto | split; [discriminate |]].
  right. left. auto.
Qed.

Lemma reaches_invariant (ident : nat -> Z) (c : Config) :
  reaches ident c -> invariant c.
Proof.
  induction 1 as [| c c' i l _ IH Hstep]; [apply invariant_initial |].
  exact (invariant_step ident c c' i l IH Hstep).
Qed.

(** *** Mutual exclusion among workers *)

Lemma among_reaches (ident : nat -> Z) (n : nat) (c : Config) :
  reaches_among ident n c -> reaches ident c.
Proof.
  induction 1 as [| c c' i l _ IH _ Hstep]; [constructor |].
  exact (reaches_step ident c c' i l IH Hstep).
Qed.

Ltac others_facts Hid Hpoints Hunique J1 J3 J4 J5 J7 J8 Hothers k Hkn Hk :=
  pose proof (Hid k Hkn); pose proof (Hpoints k); pose proof (J1 k);
  pose proof (J3 k Hkn); pose proof (J4 k Hkn); pose proof (J5 k Hkn);
  pose proof (J7 k Hkn); pose proof (J8 k Hkn); pose proof (Hothers k Hkn Hk);
  pose proof (fun A B => Hk (Hunique k _ A B)).

Lemma ownership_step (ident : nat -> Z) (n : nat) (c c' : Config) (i : nat) (l : Label) :
  worker_identifiers n ident -> invariant c -> ownership ident n c ->
  (i < n)%nat -> step ident c i l c' -> ownership ident n c'.
Proof.
  intros [Hinj Hid] (Hpoints & Hunique & _) (J1 & J0 & J3 & J4 & J5 & J7 & J8) Hin Hstep.
  destruct Hstep as [c i l p' s' Hthread].
  destruct c as [s P H]. cbn [cells pcs held] in *.
  pose proof (Hpoints i) as Pi. pose proof (J1 i) as J1i. pose proof (J3 i Hin) as J3i.
  pose proof (J4 i Hin) as J4i. pose proof (J5 i Hin) as J5i. pose proof (J7 i Hin) as J7i.
  pose proof (J8 i Hin) as J8i. pose proof (Hid i Hin) as Hidi.
  assert (Hothers : forall k : nat, (k < n)%nat -> k <> i -> ident k <> ident i)
    by (intros k Hkn Hk E; apply Hk; now apply Hinj).
  assert (Hme : ToInt32 (ident i) = ident i) by (apply ToInt32_small; lia).
  unfold ownership. cbn [cells pcs held].
  assert (Hquiet : forall k : nat, (n <= k)%nat ->
                     update H i (account l (H i)) k = 0).
  { intros k Hk. rewrite update_other by lia. now apply J0. }
  split; [| split; [exact Hquiet |]].
  - (* no thread gives up more than it took *)
    intros k. destruct (Nat.eq_dec k i) as [-> | Hk];
      [rewrite update_same | rewrite update_other by assumption; apply J1].
    destruct l; cbn [account]; try lia.
    inversion Hthread as [| | p0 p0' s0 s0' l0 Hidle Hnext]; subst.
    destruct (P i); cbn [next] in Hnext; try contradiction;
      split_tests Hnext; try discriminate;
      cbn [past_owner_test] in J5i; specialize (J5i eq_refl); lia.
  - remember (P i) as p eqn:Ep.
    destruct Hthread as [s | s | p p' s s' l Hidle Hnext].
    + (split; [| split; [| split; [| split]]]);
        intros k Hkn; destruct (Nat.eq_dec k i) as [-> | Hk];
        rewrite ?update_same, ?update_other by assumption; cbn [account];
        try (rewrite <- Ep in *); cbn in *; auto; try discriminate.
    + (split; [| split; [| split; [| split]]]);
        intros k Hkn; destruct (Nat.eq_dec k i) as [-> | Hk];
        rewrite ?update_same, ?update_other by assumption; cbn [account];
        try (rewrite <- Ep in *); cbn in *; auto; try discriminate.
    + unfold WorkerMutex.MAX_RECURSION_COUNT in *.
      destruct p; cbn [next] in Hnext; try contradiction;
        change (ToInt32 0) with 0 in Hnext; change (ToInt32 1) with 1 in Hnext;
        split_tests Hnext; injection Hnext as <- <- <-; tests_to_Z;
        cbn [point_invariant past_owner_test owner_written in_sequence account holder_point] in *;
        (split; [| split; [| split; [| split]]]);
        intros k Hkn; (destruct (Nat.eq_dec k i) as [-> | Hk];
         [ rewrite ?update_same
         | rewrite ?update_other by assumption;
           others_facts Hid Hpoints Hunique J1 J3 J4 J5 J7 J8 Hothers k Hkn Hk ]);
        cbn [flag owner recursionCount set_flag set_owner set_count
             past_owner_test owner_written in_sequence account holder_point] in *;
        rewrite <- ?Ep in *;
        cbn [flag owner recursionCount set_flag set_owner set_count
             past_owner_test owner_written in_sequence account holder_point] in *;
        try (intuition (try lia; try congruence; try discriminate)).
      all: unfold WorkerMutex.MAX_RECURSION_COUNT in *;
        try (rewrite (ToInt32_small count) in * by lia);
        try (rewrite (ToInt32_small (count + 1)) by lia);
        try (rewrite (ToInt32_small (count - 1)) by lia); try lia.
      all: try match goal with
        | E : _ = LockStoreCount |- _ => rewrite E in *; cbn [in_sequence point_invariant] in *
        end; try (intuition (try lia; try congruence; try discriminate)).
Qed.

Lemma ownership_initial (ident : nat -> Z) (n : nat) :
  worker_identifiers n ident -> ownership ident n initial.
Proof.
  intros [_ Hid]. unfold ownership, initial. cbn.
  repeat split; try lia; try discriminate.
  intros i Hi _ E. specialize (Hid i Hi). lia.
Qed.

Lemma reaches_ownership (ident : nat -> Z) (n : nat) (c : Config) :
  worker_identifiers n ident -> reaches_among ident n c -> ownership ident n c.
Proof.
  intros Hid. induction 1 as [| c c' i l Hreach IH Hin Hstep].
  - now apply ownership_initial.
  - exact (ownership_step ident n c c' i l Hid
             (reaches_invariant ident c (among_reaches ident n c Hreach)) IH Hin Hstep).
Qed.

(** In every interleaving of calls by workers at most one thread holds the
    slot, the owner cell names it and the counter is its number of holds. *)
Theorem workers_mutual_exclusion (ident : nat -> Z) (n : nat) (c : Config) :
  worker_identifiers n ident -> reaches_among ident n c ->
  (forall i j : nat, 0 < held c i -> 0 < held c j -> i = j)
  /\ forall i : nat,
       0 < held c i ->
       flag (cells c) = 1 /\ owner (cells c) = ident i
       /\ recursionCount (cells c) = held c i.
Proof.
  intros Hid Hreach.
  destruct (reaches_ownership ident n c Hid Hreach) as (_ & J0 & J3 & _).
  assert (Hactive : forall i : nat, 0 < held c i -> (i < n)%nat).
  { intros i Hi. destruct (Nat.lt_ge_cases i n) as [Hlt | Hge]; [assumption |].
    rewrite (J0 i Hge) in Hi. lia. }
  split.
  - intros i j Hi Hj. destruct Hid as [Hinj _].
    apply Hinj; [now apply Hactive | now apply Hactive |].
    destruct (J3 i (Hactive i Hi) Hi) as (_ & <- & _).
    destruct (J3 j (Hactive j Hj) Hj) as (_ & <- & _). reflexivity.
  - intros i Hi. exact (J3 i (Hactive i Hi) Hi).
Qed.

(** *** Schedules *)

Lemma perform_step (ident : nat -> Z) (c : Config) (i : nat) (choice : Choice) :
  exists l : Label, step ident c i l (perform ident c (i, choice)).
Proof.
  unfold perform. destruct (pcs c i) eqn:Ep;
    try (destruct (next (ident i) (pcs c i) (cells c)) as [[p' s'] l] eqn:Hnext;
         rewrite Ep in Hnext; rewrite Hnext;
         exists l; apply step_thread; rewrite Ep;
         apply call_next; [discriminate | exact Hnext]).
  exists Tau. apply step_thread. rewrite Ep. destruct choice; constructor.
Qed.

Lemma fold_perform_reaches (ident : nat -> Z) (moves : list (nat * Choice)) (c : Config) :
  reaches ident c -> reaches ident (fold_left (perform ident) moves c).
Proof.
  revert c. induction moves as [| [i choice] moves IH]; intros c Hc; [exact Hc |].
  cbn [fold_left]. apply IH.
  destruct (perform_step ident c i choice) as [l Hstep].
  exact (reaches_step ident c _ i l Hc Hstep).
Qed.

Lemma schedule_reaches (ident : nat -> Z) (moves : list (nat * Choice)) :
  reaches ident (schedule ident moves).
Proof. apply fold_perform_reaches. constructor. Qed.

Lemma fold_perform_among (ident : nat -> Z) (n : nat) (moves : list (nat * Choice))
      (c : Config) :
  Forall (fun move => (fst move < n)%nat) moves ->
  reaches_among ident n c -> reaches_among ident n (fold_left (perform ident) moves c).
Proof.
  revert c. induction moves as [| [i choice] moves IH]; intros c Hall Hc; [exact Hc |].
  apply Forall_cons_1 in Hall as [Hi Hall]. cbn [fst] in Hi.
  cbn [fold_left]. apply IH; [assumption |].
  destruct (perform_step ident c i choice) as [l Hstep].
  exact (among_step ident n c _ i l Hc Hi Hstep).
Qed.

Lemma schedule_among (ident : nat -> Z) (n : nat) (moves : list (nat * Choice)) :
  Forall (fun move => (fst move < n)%nat) moves ->
  reaches_among ident n (schedule ident moves).
Proof. intros Hall. apply fold_perform_among; [assumption | constructor]. Qed.

Lemma workers_identifiers (n : nat) :
  Z.of_nat n <= 2147483647 -> worker_identifiers n workers.
Proof.
  intros Hn. unfold workers. split.
  - intros i j _ _ E. lia.
  - intros i Hi. lia.
Qed.

Lemma workers_mutual_exclusion_witness :
  worker_identifiers 2 workers
  /\ reaches_among workers 2 (schedule workers worker_holds)
  /\ held (schedule workers worker_holds) 0 = 1
  /\ forall j : nat, 0 < held (schedule workers worker_holds) j -> 0%nat = j.
Proof.
  assert (Hid : worker_identifiers 2 workers) by (apply workers_identifiers; lia).
  assert (Hreach : reaches_among workers 2 (schedule workers worker_holds)).
  { apply schedule_among. unfold worker_holds. repeat constructor. }
  split; [exact Hid | split; [exact Hreach | split; [reflexivity |]]].
  intros j Hj.
  destruct (workers_mutual_exclusion workers 2 (schedule workers worker_holds) Hid Hreach)
    as [Hone _].
  apply Hone; [reflexivity | exact Hj].
Defined.

(** With the main thread the three-cell class does not exclude: its
    identifier is 0, the value of an owner cell that is not yet written.
    After the schedule [main_thread_race] the main thread and worker 1 have
    both returned from [lock()] and none has called [unlock()]. *)
Theorem main_thread_race_holds_twice :
  reaches main_and_workers (schedule main_and_workers main_thread_race)
  /\ held (schedule main_and_workers main_thread_race) 0 = 1
  /\ held (schedule main_and_workers main_thread_race) 1 = 1
  /\ pcs (schedule main_and_workers main_thread_race) 0 = Idle
  /\ pcs (schedule main_and_workers main_thread_race) 1 = Idle
  /\ cells (schedule main_and_workers main_thread_race) = mkSlot 1 1 2.
Proof.
  split; [apply schedule_reaches |]. vm_compute. repeat split.
Qed.

(** *** The slot between the sequences of stores *)

(** In every interleaving the counter is within [0, 2^31 - 1] and is above 0
    only under [flag = 1]; while no thread is between its decisive
    compare-and-swap and its last store (so whenever no call is running),
    [recursionCount > 0] exactly when [flag = 1]. *)
Theorem interleaved_slot_invariant (ident : nat -> Z) (c : Config) :
  reaches ident c ->
  0 <= recursionCount (cells c) <= 2 ^ 31 - 1
  /\ (recursionCount (cells c) > 0 -> flag (cells c) = 1)
  /\ ((forall i : nat, in_sequence (pcs c i) = false) ->
      (recursionCount (cells c) > 0 <-> flag (cells c) = 1))
  /\ ((forall i : nat, pcs c i = Idle) ->
      (recursionCount (cells c) > 0 <-> flag (cells c) = 1)).
Proof.
  intros Hreach. destruct (reaches_invariant ident c Hreach) as (Hpoints & _ & Hstate).
  change (2 ^ 31 - 1) with WorkerMutex.MAX_RECURSION_COUNT.
  assert (Hsettled : settled (cells c) ->
                     0 <= recursionCount (cells c) <= WorkerMutex.MAX_RECURSION_COUNT
                     /\ (recursionCount (cells c) > 0 <-> flag (cells c) = 1)).
  { unfold settled, WorkerMutex.MAX_RECURSION_COUNT.
    intros [(Hf & _ & Hc) | (Hf & Hc)]; rewrite Hf; lia. }
  assert (Hbusy : forall i : nat,
             in_sequence (pcs c i) = true ->
             flag (cells c) = 1 /\ recursionCount (cells c) = 0).
  { intros i Hi. exact (in_sequence_busy _ _ Hi (Hpoints i)). }
  assert (Hnone : (forall i : nat, in_sequence (pcs c i) = false) -> settled (cells c)).
  { intros Hall. destruct Hstate as [(i & Hi) | Hs]; [| assumption].
    rewrite Hall in Hi. discriminate. }
  split; [| split; [| split]].
  - destruct Hstate as [(i & Hi) | Hs].
    + destruct (Hbusy i Hi) as (_ & ->). unfold WorkerMutex.MAX_RECURSION_COUNT. lia.
    + now apply Hsettled.
  - destruct Hstate as [(i & Hi) | Hs].
    + destruct (Hbusy i Hi) as (Hf & _). auto.
    + apply Hsettled in Hs. tauto.
  - intros Hall. now apply Hsettled, Hnone.
  - intros Hidle. apply Hsettled, Hnone. intros i. now rewrite Hidle.
Qed.

(** Inside a sequence the equivalence does not hold: after the
    compare-and-swap of [lock()] on the flag and before its stores the flag
    is 1 and the counter is 0. *)
Lemma interleaved_transient :
  reaches main_and_workers
    (schedule main_and_workers
       [(1%nat, ChooseLock); (1%nat, ChooseLock); (1%nat, ChooseLock); (1%nat, ChooseLock)])
  /\ cells (schedule main_and_workers
              [(1%nat, ChooseLock); (1%nat, ChooseLock); (1%nat, ChooseLock);
               (1%nat, ChooseLock)]) = mkSlot 1 0 0.
Proof. split; [apply schedule_reaches | reflexivity]. Qed.

(** Among workers an error is never spurious.  [unlock()] throws
    MUTEX_IS_NOT_OWNED_BY_CURRENT_THREAD only for a thread that holds
    nothing, [lock()] and [lockAsync()] throw MUTEX_RECURSION_COUNT_OVERFLOW
    only for the thread that holds the slot [2^31 - 1] times, no call throws
    MUTEX_RECURSION_COUNT_UNDERFLOW, and the step that throws changes no
    cell and ends the call. *)
Theorem workers_errors (ident : nat -> Z) (n : nat) (c c' : Config) (i : nat)
        (code : ErrorCode) :
  worker_identifiers n ident -> reaches_among ident n c -> (i < n)%nat ->
  step ident c i (Threw code) c' ->
  cells c' = cells c
  /\ pcs c' i = Idle
  /\ ((code = MUTEX_IS_NOT_OWNED_BY_CURRENT_THREAD /\ held c i = 0)
      \/ (code = MUTEX_RECURSION_COUNT_OVERFLOW /\ held c i = 2147483647)).
Proof.
  intros Hid Hreach Hin Hstep.
  destruct (reaches_ownership ident n c Hid Hreach) as (J1 & _ & J3 & _ & J5 & _ & J8).
  pose proof (interleaved_slot_invariant ident c (among_reaches ident n c Hreach))
    as (Hrange & _).
  change (2 ^ 31 - 1) with 2147483647 in Hrange.
  specialize (J1 i). specialize (J3 i Hin). specialize (J5 i Hin). specialize (J8 i Hin).
  inversion Hstep as [c0 i0 l0 p' s' Hthread]; subst. cbn [cells pcs].
  rewrite update_same.
  inversion Hthread as [| | p0 p0' s0 s0' l0 Hidle Hnext]; subst.
  unfold WorkerMutex.MAX_RECURSION_COUNT in *.
  destruct (pcs c i); cbn [next] in Hnext; try contradiction;
    split_tests Hnext; try discriminate; injection Hnext as <- <- <-; tests_to_Z;
    cbn [past_owner_test holder_point] in *;
    unfold WorkerMutex.MAX_RECURSION_COUNT in *;
    (split; [reflexivity | split; [reflexivity |]]).
  - (* the counter read by the increment is 0 or less *)
    exfalso. destruct (J3 (J5 eq_refl)) as (_ & _ & Hc). lia.
  - right. split; [reflexivity |].
    destruct (J3 (J5 eq_refl)) as (_ & _ & Hc). lia.
  - left. split; [reflexivity |].
    destruct (Z_le_gt_dec (held c i) 0) as [Hle | Hpos]; [lia |].
    exfalso. destruct (J3 ltac:(lia)) as (_ & Ho & _). specialize (J8 ltac:(lia)).
    match goal with
    | E : _ || _ = true |- _ =>
        apply orb_true_iff in E as [E | E]; apply negb_true_iff in E;
        [apply Z.eqb_neq in E | apply Z.eqb_neq in E]; congruence
    end.
  - (* the counter read by the decrement is 0 or less *)
    exfalso. destruct (J3 (J5 eq_refl)) as (_ & _ & Hc). lia.
Qed.

Lemma workers_errors_witness :
  worker_identifiers 2 workers
  /\ reaches_among workers 2 (schedule workers unlock_unheld)
  /\ (0 < 2)%nat
  /\ step workers (schedule workers unlock_unheld) 0
       (Threw MUTEX_IS_NOT_OWNED_BY_CURRENT_THREAD)
       (perform workers (schedule workers unlock_unheld) (0%nat, ChooseUnlock))
  /\ cells (perform workers (schedule workers unlock_unheld) (0%nat, ChooseUnlock)) =
     cells (schedule workers unlock_unheld).
Proof.
  assert (Hid : worker_identifiers 2 workers) by (apply workers_identifiers; lia).
  assert (Hreach : reaches_among workers 2 (schedule workers unlock_unheld)).
  { apply schedule_among. unfold unlock_unheld. repeat constructor. }
  assert (Hstep : step workers (schedule workers unlock_unheld) 0
                    (Threw MUTEX_IS_NOT_OWNED_BY_CURRENT_THREAD)
                    (perform workers (schedule workers unlock_unheld) (0%nat, ChooseUnlock))).
  { apply (step_thread workers (schedule workers unlock_unheld) 0
             (Threw MUTEX_IS_NOT_OWNED_BY_CURRENT_THREAD) Idle (mkSlot 0 0 0)).
    apply call_next; [discriminate | reflexivity]. }
  split; [exact Hid | split; [exact Hreach | split; [lia | split; [exact Hstep |]]]].
  exact (proj1 (workers_errors workers 2 _ _ 0 _ Hid Hreach ltac:(lia) Hstep)).
Defined.

(** Among workers the counter is the holder's alone.  At the
    compare-and-swap of [incrementRecursionCount] and of [unlock()] the
    counter cell still has the value the thread read, its number of holds,
    so the swap succeeds and the loop does not go round again; and a thread
    that holds the slot never gets to the compare-and-swap on the flag or to
    a wait. *)
Theorem workers_counter_uncontended (ident : nat -> Z) (n : nat) (c : Config) (i : nat) :
  worker_identifiers n ident -> reaches_among ident n c -> (i < n)%nat ->
  (forall count : Z,
     pcs c i = IncCas count \/ pcs c i = UnlockCas count ->
     count = held c i /\ recursionCount (cells c) = ToInt32 count)
  /\ (0 < held c i ->
      pcs c i <> LockCas /\ forall lock : Z, pcs c i <> LockWait lock).
Proof.
  intros Hid Hreach Hin.
  destruct (reaches_ownership ident n c Hid Hreach) as (_ & _ & J3 & _ & J5 & _ & J8).
  pose proof (interleaved_slot_invariant ident c (among_reaches ident n c Hreach))
    as (Hrange & _).
  change (2 ^ 31 - 1) with 2147483647 in Hrange.
  specialize (J3 i Hin). specialize (J5 i Hin). specialize (J8 i Hin).
  split.
  - intros count [Hp | Hp]; rewrite Hp in J5, J8; cbn in J5, J8;
      destruct (J3 (J5 eq_refl)) as (_ & _ & Hc);
      (split; [assumption |]); rewrite ToInt32_small by lia; lia.
  - intros Hheld. split; [| intros lock]; intros Hp; rewrite Hp in J8; cbn in J8; lia.
Qed.

Lemma workers_counter_uncontended_witness :
  worker_identifiers 2 workers
  /\ reaches_among workers 2 (schedule workers worker_holds)
  /\ (0 < 2)%nat
  /\ 0 < held (schedule workers worker_holds) 0
  /\ pcs (schedule workers worker_holds) 0 <> LockCas.
Proof.
  assert (Hid : worker_identifiers 2 workers) by (apply workers_identifiers; lia).
  assert (Hreach : reaches_among workers 2 (schedule workers worker_holds)).
  { apply schedule_among. unfold worker_holds. repeat constructor. }
  split; [exact Hid | split; [exact Hreach | split; [lia | split; [reflexivity |]]]].
  destruct (workers_counter_uncontended workers 2 (schedule workers worker_holds) 0
              Hid Hreach ltac:(lia)) as [_ Hholder].
  apply Hholder. reflexivity.
Defined.

(** With the main thread the three-cell class does not exclude.  The
    identifier of the main thread is its [threadId] 0, the value of an owner
    cell that is not yet written: while a worker is between its
    compare-and-swap on the flag and its store of the owner, the test
    [lock === 1 && owner === me] of the main thread passes.  There is an
    interleaving after which the main thread and a worker have both
    returned from [lock()], and one in which [lock()] of the main thread
    throws MUTEX_RECURSION_COUNT_UNDERFLOW though no thread holds the slot
    and no cell was written from outside. *)
Theorem main_thread_breaks_exclusion :
  (exists c : Config,
     reaches main_and_workers c
     /\ (forall i : nat, pcs c i = Idle)
     /\ 0 < held c 0 /\ 0 < held c 1)
  /\ (exists c c' : Config,
        reaches main_and_workers c
        /\ (forall i : nat, held c i = 0)
        /\ step main_and_workers c 0 (Threw MUTEX_RECURSION_COUNT_UNDERFLOW) c').
Proof.
  split.
  - exists (schedule main_and_workers main_thread_race).
    split; [apply schedule_reaches | split; [| split; reflexivity]].
    intros [| [| i]]; reflexivity.
  - exists (schedule main_and_workers main_thread_underflow),
      (perform main_and_workers (schedule main_and_workers main_thread_underflow)
         (0%nat, ChooseLock)).
    split; [apply schedule_reaches | split].
    + intros [| [| i]]; reflexivity.
    + apply (step_thread main_and_workers (schedule main_and_workers main_thread_underflow) 0
               (Threw MUTEX_RECURSION_COUNT_UNDERFLOW) Idle (mkSlot 1 0 0)).
      apply call_next; [discriminate | reflexivity].
Qed.

(** In every interleaving, whatever the identifiers of the threads, the
    counter stays within [0, 2^31 - 1], the flag is 0 or 1, the counter is
    above 0 only under [flag = 1], and at most one thread is between the
    compare-and-swap that takes or gives up the slot and the last store
    that goes with it. *)
Theorem interleaved_counter_in_range (ident : nat -> Z) (c : Config) :
  reaches ident c ->
  0 <= recursionCount (cells c) <= 2147483647
  /\ (flag (cells c) = 0 \/ flag (cells c) = 1)
  /\ (0 < recursionCount (cells c) -> flag (cells c) = 1)
  /\ forall i j : nat,
       in_sequence (pcs c i) = true -> in_sequence (pcs c j) = true -> i = j.
Proof.
  intros Hreach.
  destruct (reaches_invariant ident c Hreach) as (Hpoints & Hunique & Hstate).
  destruct (interleaved_slot_invariant ident c Hreach) as (Hrange & Hflag & _).
  change (2 ^ 31 - 1) with 2147483647 in Hrange.
  split; [exact Hrange | split; [| split; [| exact Hunique]]].
  - destruct Hstate as [(i & Hi) | Hs].
    + right. exact (proj1 (in_sequence_busy _ _ Hi (Hpoints i))).
    + unfold settled in Hs. tauto.
  - intros Hpos. apply Hflag. lia.
Qed.

Lemma interleaved_counter_in_range_witness :
  reaches main_and_workers (schedule main_and_workers main_thread_race)
  /\ 0 <= recursionCount (cells (schedule main_and_workers main_thread_race)) <= 2147483647.
Proof.
  split; [apply schedule_reaches |].
  apply (interleaved_counter_in_range main_and_workers
           (schedule main_and_workers main_thread_race)).
  apply schedule_reaches.
Defined.

(** *** The machine against the calls *)

(** Every step of the slot state machine is a run of one thread of the
    interleaving machine through a call. *)
Lemma slot_step_solo (me : Z) (s s' : Slot) :
  slot_step me s s' ->
  s' = s
  \/ exists (n : nat) (p : Pc),
       (p = LockLoadFlag \/ p = UnlockLoadFlag) /\ solo me n p s = (Idle, s').
Proof.
  intros Hstep. destruct Hstep as [s | o c | c Hc | c Hc H32 |].
  - now left.
  - right. exists 5%nat, LockLoadFlag. split; [now left |]. reflexivity.
  - right. exists 4%nat, LockLoadFlag. split; [now left |].
    unfold WorkerMutex.MAX_RECURSION_COUNT in *.
    cbn [solo next flag owner recursionCount]. rewrite !Z.eqb_refl.
    cbn [andb solo next flag owner recursionCount].
    unfold WorkerMutex.MAX_RECURSION_COUNT.
    destruct (Z.leb_spec c 0); [lia |].
    destruct (Z.geb_spec c 2147483647); [lia |].
    cbn [solo next flag owner recursionCount].
    rewrite (ToInt32_small c), (ToInt32_small (c + 1)), Z.eqb_refl by lia.
    reflexivity.
  - right. exists 4%nat, UnlockLoadFlag. split; [now right |].
    unfold is_int32 in H32.
    cbn [solo next flag owner recursionCount]. rewrite !Z.eqb_refl.
    cbn [negb orb solo next flag owner recursionCount].
    destruct (Z.leb_spec c 0); [lia |].
    cbn [solo next flag owner recursionCount].
    rewrite (ToInt32_small c), (ToInt32_small (c - 1)), Z.eqb_refl by lia.
    cbn [negb]. destruct (Z.gtb_spec (c - 1) 0); [reflexivity | lia].
  - right. exists 8%nat, UnlockLoadFlag. split; [now right |].
    cbn [solo next flag owner recursionCount]. rewrite !Z.eqb_refl. reflexivity.
Qed.

(** Every change a call of the class makes to its slot is made by one
    thread of the machine running alone. *)
Lemma call_matches_machine (c : Call) (threadId : Z) (this : WorkerMutex.t) (fuel : nat)
      (w : World) (s : Slot) :
  slot (i32 w) this = Some s -> is_int32 (recursionCount s) ->
  exists s' : Slot,
    slot (i32 (snd (call c threadId this fuel w))) this = Some s'
    /\ (s' = s
        \/ exists (n : nat) (p : Pc),
             (p = LockLoadFlag \/ p = UnlockLoadFlag)
             /\ solo (WorkerMutex.selfId threadId) n p s = (Idle, s')).
Proof.
  intros Hs H32.
  destruct (call_refines c threadId this fuel w s Hs H32) as (s' & Hs' & Hstep & _).
  exists s'. split; [assumption |]. now apply slot_step_solo.
Qed.

(** ** Mutual exclusion in the two-cell class *)

Section TwoCellInterleavings.

Import Interleaving.
Import TwoCellThreads.

Ltac two_cell_facts Hid K2 K3 K4 K5 Hothers k Hkn Hk :=
  pose proof (Hid k Hkn); pose proof (K2 k Hkn); pose proof (K3 k Hkn);
  pose proof (K4 k Hkn); pose proof (K5 k Hkn); pose proof (Hothers k Hkn Hk).

Lemma TwoCell_identifiers (n : nat) (threadId : nat -> Z) :
  thread_identifiers n threadId ->
  (forall i j : nat,
     (i < n)%nat -> (j < n)%nat ->
     TwoCell.selfId (threadId i) = TwoCell.selfId (threadId j) -> i = j)
  /\ forall i : nat, (i < n)%nat -> 0 < TwoCell.selfId (threadId i) <= 2147483647.
Proof.
  intros [Hinj Hid]. split.
  - intros i j Hi Hj E. apply Hinj; try assumption.
    destruct (TwoCell_selfId_value _ (Hid i Hi)) as (Vi & _).
    destruct (TwoCell_selfId_value _ (Hid j Hj)) as (Vj & _). lia.
  - intros i Hi. destruct (TwoCell_selfId_value _ (Hid i Hi)) as (Vi & _).
    specialize (Hid i Hi). lia.
Qed.

Lemma TwoCell_ownership_step (threadId : nat -> Z) (n : nat) (c c' : Config) (i : nat)
      (l : Label) :
  thread_identifiers n threadId -> ownership threadId n c ->
  (i < n)%nat -> step threadId c i l c' -> held c' i <= 2147483647 ->
  ownership threadId n c'.
Proof.
  intros Hids (K1 & K0 & K2 & K3 & K4 & K5) Hin Hstep Hshallow.
  destruct (TwoCell_identifiers n threadId Hids) as [Hinj Hid].
  destruct Hstep as [c i l p' s' Hthread].
  destruct c as [s P H]. cbn [cells pcs held] in *.
  rewrite update_same in Hshallow.
  pose proof (K1 i) as K1i. pose proof (K2 i Hin) as K2i. pose proof (K3 i Hin) as K3i.
  pose proof (K4 i Hin) as K4i. pose proof (K5 i Hin) as K5i. pose proof (Hid i Hin) as Hidi.
  assert (Hothers : forall k : nat,
             (k < n)%nat -> k <> i ->
             TwoCell.selfId (threadId k) <> TwoCell.selfId (threadId i))
    by (intros k Hkn Hk E; apply Hk; now apply Hinj).
  assert (Hme : ToInt32 (TwoCell.selfId (threadId i)) = TwoCell.selfId (threadId i))
    by (apply ToInt32_small; lia).
  unfold ownership. cbn [cells pcs held].
  assert (Hquiet : forall k : nat, (n <= k)%nat -> update H i (account l (H i)) k = 0).
  { intros k Hk. rewrite update_other by lia. now apply K0. }
  split; [| split; [exact Hquiet |]].
  - (* the holds of a thread stay within 0 and 2^31 - 1 *)
    intros k. destruct (Nat.eq_dec k i) as [-> | Hk];
      [rewrite update_same | rewrite update_other by assumption; apply K1].
    split; [| assumption].
    destruct l; cbn [account]; try lia.
    inversion Hthread as [| | p0 p0' s0 s0' l0 Hidle Hnext]; subst.
    destruct (P i); cbn [next] in Hnext; try contradiction;
      split_tests Hnext; try discriminate; cbn [holder_point] in K4i; lia.
  - remember (P i) as p eqn:Ep.
    destruct Hthread as [s | s | p p' s s' l Hidle Hnext].
    + (split; [| split; [| split]]);
        intros k Hkn; destruct (Nat.eq_dec k i) as [-> | Hk];
        rewrite ?update_same, ?update_other by assumption; cbn [account];
        try (rewrite <- Ep in *); cbn in *; auto; try discriminate.
    + (split; [| split; [| split]]);
        intros k Hkn; destruct (Nat.eq_dec k i) as [-> | Hk];
        rewrite ?update_same, ?update_other by assumption; cbn [account];
        try (rewrite <- Ep in *); cbn in *; auto; try discriminate.
    + destruct p; cbn [next] in Hnext; try contradiction;
        change (ToInt32 0) with 0 in Hnext; change (ToInt32 1) with 1 in Hnext;
        split_tests Hnext; injection Hnext as <- <- <-; tests_to_Z;
        cbn [owner_written account holder_point] in *;
        (split; [| split; [| split]]);
        intros k Hkn; (destruct (Nat.eq_dec k i) as [-> | Hk];
         [ rewrite ?update_same
         | rewrite ?update_other by assumption;
           two_cell_facts Hid K2 K3 K4 K5 Hothers k Hkn Hk ]);
        cbn [owner_cell count_cell owner_written account holder_point] in *;
        rewrite <- ?Ep in *;
        cbn [owner_cell count_cell owner_written account holder_point] in *;
        try (intuition (try lia; try congruence; try discriminate)).
      all: try (rewrite ToInt32_small by lia); try lia.
      all: try (intuition (try lia; try congruence; try discriminate)).
Qed.


Lemma TwoCell_ownership_initial (threadId : nat -> Z) (n : nat) :
  thread_identifiers n threadId -> ownership threadId n initial.
Proof.
  intros Hids. destruct (TwoCell_identifiers n threadId Hids) as [_ Hid].
  unfold ownership, initial. cbn [cells pcs held owner_cell count_cell].
  repeat split; try lia; try discriminate.
  intros i Hi _ E. specialize (Hid i Hi). lia.
Qed.

Lemma TwoCell_reaches_ownership (threadId : nat -> Z) (n : nat) (c : Config) :
  thread_identifiers n threadId -> reaches threadId n c -> ownership threadId n c.
Proof.
  intros Hids. induction 1 as [| c c' i l _ IH Hin Hstep Hshallow].
  - now apply TwoCell_ownership_initial.
  - exact (TwoCell_ownership_step threadId n c c' i l Hids IH Hin Hstep Hshallow).
Qed.

Lemma TwoCell_perform_step (threadId : nat -> Z) (c : Config) (i : nat) (choice : Choice) :
  exists l : Label, step threadId c i l (perform threadId c (i, choice)).
Proof.
  unfold perform. destruct (pcs c i) eqn:Ep;
    try (destruct (next (TwoCell.selfId (threadId i)) (pcs c i) (cells c))
           as [[p' s'] l] eqn:Hnext;
         rewrite Ep in Hnext; rewrite Hnext;
         exists l; apply step_thread; rewrite Ep;
         apply call_next; [discriminate | exact Hnext]).
  exists Tau. apply step_thread. rewrite Ep. destruct choice; constructor.
Qed.

Lemma TwoCell_run_reaches (threadId : nat -> Z) (n : nat) (moves : list (nat * Choice))
      (c c' : Config) :
  reaches threadId n c -> run threadId n moves c = Some c' -> reaches threadId n c'.
Proof.
  revert c. induction moves as [| [i choice] moves IH]; intros c Hc Hrun.
  - cbn in Hrun. now injection Hrun as <-.
  - cbn [run fst] in Hrun.
    destruct (Nat.ltb_spec i n) as [Hi | _]; [| discriminate].
    destruct (Z.leb_spec (held (perform threadId c (i, choice)) i) 2147483647)
      as [Hshallow | _]; [| discriminate].
    cbn [andb] in Hrun. apply (IH (perform threadId c (i, choice))); [| exact Hrun].
    destruct (TwoCell_perform_step threadId c i choice) as [l Hstep].
    exact (reaches_step threadId n c _ i l Hc Hi Hstep Hshallow).
Qed.

End TwoCellInterleavings.

(** The two-cell class excludes, the main thread included: in every
    interleaving of [lock()], [lockAsync()] and [unlock()] by threads with
    distinct [threadId]s from 0 to [2^31 - 2], none of which takes more
    than [2^31 - 1] holds, at most one thread holds the mutex, the owner
    cell is its identifier [threadId + 1] and the counter is its number of
    holds. *)
Theorem TwoCell_mutual_exclusion (threadId : nat -> Z) (n : nat)
        (c : TwoCellThreads.Config) :
  TwoCellThreads.thread_identifiers n threadId ->
  TwoCellThreads.reaches threadId n c ->
  (forall i j : nat,
     0 < TwoCellThreads.held c i -> 0 < TwoCellThreads.held c j -> i = j)
  /\ forall i : nat,
       0 < TwoCellThreads.held c i ->
       TwoCellThreads.owner_cell (TwoCellThreads.cells c) = threadId i + 1
       /\ TwoCellThreads.count_cell (TwoCellThreads.cells c) = TwoCellThreads.held c i.
Proof.
  intros Hids Hreach.
  destruct (TwoCell_reaches_ownership threadId n c Hids Hreach) as (_ & K0 & K2 & _).
  destruct (TwoCell_identifiers n threadId Hids) as [Hinj _].
  assert (Hactive : forall i : nat, 0 < TwoCellThreads.held c i -> (i < n)%nat).
  { intros i Hi. destruct (Nat.lt_ge_cases i n) as [Hlt | Hge]; [assumption |].
    rewrite (K0 i Hge) in Hi. lia. }
  split.
  - intros i j Hi Hj. apply Hinj; [now apply Hactive | now apply Hactive |].
    destruct (K2 i (Hactive i Hi) Hi) as (<- & _).
    destruct (K2 j (Hactive j Hj) Hj) as (<- & _). reflexivity.
  - intros i Hi. destruct (K2 i (Hactive i Hi) Hi) as (Ho & Hc).
    split; [| assumption]. rewrite Ho.
    destruct Hids as [_ Hid].
    exact (proj1 (TwoCell_selfId_value _ (Hid i (Hactive i Hi)))).
Qed.

Lemma TwoCell_mutual_exclusion_witness :
  TwoCellThreads.thread_identifiers 2 TwoCellThreads.main_and_workers
  /\ TwoCellThreads.reaches TwoCellThreads.main_and_workers 2
       (TwoCellThreads.schedule TwoCellThreads.main_and_workers TwoCellThreads.main_holds)
  /\ TwoCellThreads.held
       (TwoCellThreads.schedule TwoCellThreads.main_and_workers TwoCellThreads.main_holds)
       0 = 1
  /\ TwoCellThreads.owner_cell
       (TwoCellThreads.cells
          (TwoCellThreads.schedule TwoCellThreads.main_and_workers
             TwoCellThreads.main_holds)) = 0 + 1.
Proof.
  assert (Hids : TwoCellThreads.thread_identifiers 2 TwoCellThreads.main_and_workers).
  { unfold TwoCellThreads.main_and_workers. split; intros; lia. }
  assert (Hreach : TwoCellThreads.reaches TwoCellThreads.main_and_workers 2
                     (TwoCellThreads.schedule TwoCellThreads.main_and_workers
                        TwoCellThreads.main_holds)).
  { apply (TwoCell_run_reaches _ 2 TwoCellThreads.main_holds TwoCellThreads.initial).
    - constructor.
    - reflexivity. }
  split; [exact Hids | split; [exact Hreach | split; [reflexivity |]]].
  destruct (TwoCell_mutual_exclusion TwoCellThreads.main_and_workers 2 _ Hids Hreach)
    as [_ Hholder].
  exact (proj1 (Hholder 0%nat ltac:(reflexivity))).
Defined.

(** Under interleaving [unlock()] of the two-cell class fails for a thread
    that holds nothing and for no other: the only error a step raises is
    MUTEX_IS_NOT_OWNED_BY_CURRENT_THREAD, the thread that gets it has no
    hold, and the two cells are as they were. *)
Theorem TwoCell_unlock_fails_unheld (threadId : nat -> Z) (n : nat)
        (c c' : TwoCellThreads.Config) (i : nat) (code : ErrorCode) :
  TwoCellThreads.thread_identifiers n threadId ->
  TwoCellThreads.reaches threadId n c -> (i < n)%nat ->
  TwoCellThreads.step threadId c i (Threw code) c' ->
  code = MUTEX_IS_NOT_OWNED_BY_CURRENT_THREAD
  /\ TwoCellThreads.held c i = 0
  /\ TwoCellThreads.cells c' = TwoCellThreads.cells c
  /\ TwoCellThreads.pcs c' i = TwoCellThreads.Idle.
Proof.
  intros Hids Hreach Hin Hstep.
  destruct (TwoCell_reaches_ownership threadId n c Hids Hreach) as (K1 & _ & K2 & _).
  specialize (K1 i). specialize (K2 i Hin).
  inversion Hstep as [c0 i0 l0 p' s' Hthread]; subst.
  cbn [TwoCellThreads.cells TwoCellThreads.pcs]. rewrite update_same.
  inversion Hthread as [| | p0 p0' s0 s0' l0 Hidle Hnext]; subst.
  destruct (TwoCellThreads.pcs c i); cbn [TwoCellThreads.next] in Hnext;
    try contradiction; split_tests Hnext; try discriminate;
    injection Hnext as <- <- <-; tests_to_Z.
  repeat split.
  destruct (Z_le_gt_dec (TwoCellThreads.held c i) 0) as [Hle | Hpos]; [lia |].
  destruct (K2 ltac:(lia)) as (Ho & _). congruence.
Qed.

Lemma TwoCell_unlock_fails_unheld_witness :
  TwoCellThreads.thread_identifiers 2 TwoCellThreads.main_and_workers
  /\ TwoCellThreads.reaches TwoCellThreads.main_and_workers 2
       (TwoCellThreads.schedule TwoCellThreads.main_and_workers
          [(1%nat, ChooseUnlock)])
  /\ (1 < 2)%nat
  /\ TwoCellThreads.step TwoCellThreads.main_and_workers
       (TwoCellThreads.schedule TwoCellThreads.main_and_workers [(1%nat, ChooseUnlock)])
       1 (Threw MUTEX_IS_NOT_OWNED_BY_CURRENT_THREAD)
       (TwoCellThreads.perform TwoCellThreads.main_and_workers
          (TwoCellThreads.schedule TwoCellThreads.main_and_workers [(1%nat, ChooseUnlock)])
          (1%nat, ChooseUnlock))
  /\ TwoCellThreads.held
       (TwoCellThreads.schedule TwoCellThreads.main_and_workers [(1%nat, ChooseUnlock)])
       1 = 0.
Proof.
  assert (Hids : TwoCellThreads.thread_identifiers 2 TwoCellThreads.main_and_workers).
  { unfold TwoCellThreads.main_and_workers. split; intros; lia. }
  assert (Hreach : TwoCellThreads.reaches TwoCellThreads.main_and_workers 2
                     (TwoCellThreads.schedule TwoCellThreads.main_and_workers
                        [(1%nat, ChooseUnlock)])).
  { apply (TwoCell_run_reaches _ 2 [(1%nat, ChooseUnlock)] TwoCellThreads.initial).
    - constructor.
    - reflexivity. }
  assert (Hstep : TwoCellThreads.step TwoCellThreads.main_and_workers
            (TwoCellThreads.schedule TwoCellThreads.main_and_workers [(1%nat, ChooseUnlock)])
            1 (Threw MUTEX_IS_NOT_OWNED_BY_CURRENT_THREAD)
            (TwoCellThreads.perform TwoCellThreads.main_and_workers
               (TwoCellThreads.schedule TwoCellThreads.main_and_workers
                  [(1%nat, ChooseUnlock)])
               (1%nat, ChooseUnlock))).
  { apply (TwoCellThreads.step_thread TwoCellThreads.main_and_workers
             (TwoCellThreads.schedule TwoCellThreads.main_and_workers
                [(1%nat, ChooseUnlock)])
             1 (Threw MUTEX_IS_NOT_OWNED_BY_CURRENT_THREAD) TwoCellThreads.Idle
             (TwoCellThreads.mkPair 0 0)).
    apply TwoCellThreads.call_next; [discriminate | reflexivity]. }
  split; [exact Hids | split; [exact Hreach | split; [lia | split; [exact Hstep |]]]].
  exact (proj1 (proj2 (TwoCell_unlock_fails_unheld TwoCellThreads.main_and_workers 2 _ _ 1 _
                         Hids Hreach ltac:(lia) Hstep))).
Defined.

(** ** Mutual exclusion in the intermediate class *)

Section OwnerFirstInterleavings.

Import Interleaving.
Import OwnerFirstThreads.

Lemma OwnerFirst_identifiers (n : nat) (threadId : nat -> Z) :
  thread_identifiers n threadId ->
  (forall i j : nat,
     (i < n)%nat -> (j < n)%nat ->
     OwnerFirst.selfId (threadId i) = OwnerFirst.selfId (threadId j) -> i = j)
  /\ forall i : nat, (i < n)%nat -> 0 < OwnerFirst.selfId (threadId i) <= 2147483647.
Proof.
  intros [Hinj Hid]. split.
  - intros i j Hi Hj E. apply Hinj; try assumption.
    destruct (OwnerFirst_selfId_value _ (Hid i Hi)) as (Vi & _).
    destruct (OwnerFirst_selfId_value _ (Hid j Hj)) as (Vj & _). lia.
  - intros i Hi. destruct (OwnerFirst_selfId_value _ (Hid i Hi)) as (Vi & _).
    specialize (Hid i Hi). lia.
Qed.

(** A point outside the sequences says nothing of the slot; a point inside
    one speaks of flag and owner only. *)
Lemma point_preserved (me : Z) (p : Pc) (h : Z) (s s' : Slot) :
  point me p h s ->
  (in_sequence p = true -> flag s' = flag s /\ owner s' = owner s) ->
  point me p h s'.
Proof.
  destruct p; cbn [point in_sequence]; intros Hp Hsame; try assumption;
    destruct (Hsame eq_refl) as [-> ->]; assumption.
Qed.

Lemma point_in_sequence (me : Z) (p : Pc) (h : Z) (s : Slot) :
  point me p h s -> in_sequence p = true ->
  h = 0 /\ flag s = 1 /\ (owner s = 0 \/ owner s = me).
Proof. destruct p; cbn [point in_sequence]; intros Hp Hseq; try discriminate; tauto. Qed.

(** The cases of a step of thread [i] from the point [p]. *)
Ltac step_cases p Hnext :=
  destruct p; cbn [next] in Hnext; try contradiction;
  change (ToInt32 0) with 0 in Hnext; change (ToInt32 1) with 1 in Hnext;
  split_tests Hnext; injection Hnext as <- <- <-; tests_to_Z;
  cbn [owner_written account point in_sequence
       flag owner recursionCount set_flag set_owner set_count] in *.

Ltac finish :=
  cbn [owner_written account point in_sequence
       flag owner recursionCount set_flag set_owner set_count] in *;
  try (intuition (try lia; try congruence; try discriminate)).

Lemma OwnerFirst_ownership_step (threadId : nat -> Z) (n : nat) (c c' : Config) (i : nat)
      (l : Label) :
  thread_identifiers n threadId -> ownership threadId n c ->
  (i < n)%nat -> step threadId c i l c' -> held c' i <= 2147483647 ->
  ownership threadId n c'.
Proof.
  intros Hids (K1 & K0 & K6 & K2 & K3 & K4 & K7) Hin Hstep Hshallow.
  destruct (OwnerFirst_identifiers n threadId Hids) as [Hinj Hid].
  destruct Hstep as [c i l p' s' Hthread].
  destruct c as [s P H]. cbn [cells pcs held] in *.
  rewrite update_same in Hshallow.
  pose proof (K1 i) as K1i. pose proof (K2 i Hin) as K2i. pose proof (K3 i Hin) as K3i.
  pose proof (K4 i Hin) as K4i. pose proof (Hid i Hin) as Hidi.
  assert (Hothers : forall k : nat,
             (k < n)%nat -> k <> i ->
             OwnerFirst.selfId (threadId k) <> OwnerFirst.selfId (threadId i))
    by (intros k Hkn Hk E; apply Hk; now apply Hinj).
  assert (Hme : ToInt32 (OwnerFirst.selfId (threadId i)) = OwnerFirst.selfId (threadId i))
    by (apply ToInt32_small; lia).
  assert (Hseq_k : forall k : nat,
             (k < n)%nat -> k <> i -> in_sequence (P k) = true ->
             in_sequence (P i) = false
             /\ H k = 0 /\ flag s = 1
             /\ (owner s = 0 \/ owner s = OwnerFirst.selfId (threadId k))).
  { intros k Hkn Hk Hseq. split.
    - destruct (in_sequence (P i)) eqn:E; [| reflexivity].
      exfalso. apply Hk. now apply K7.
    - exact (point_in_sequence _ _ _ _ (K4 k Hkn) Hseq). }
  unfold ownership. cbn [cells pcs held].
  assert (Hquiet : forall k : nat, (n <= k)%nat -> update H i (account l (H i)) k = 0).
  { intros k Hk. rewrite update_other by lia. now apply K0. }
  split; [| split; [exact Hquiet |]].
  { (* the holds of a thread stay within 0 and 2^31 - 1 *)
    intros k. destruct (Nat.eq_dec k i) as [-> | Hk];
      [rewrite update_same | rewrite update_other by assumption; apply K1].
    split; [| assumption].
    destruct l; cbn [account]; try lia.
    inversion Hthread as [| | p0 p0' s0 s0' l0 Hidle Hnext]; subst.
    destruct (P i); cbn [next] in Hnext; try contradiction;
      split_tests Hnext; try discriminate; cbn [point] in K4i; lia. }
  remember (P i) as p eqn:Ep.
  destruct Hthread as [s | s | p p' s s' l Hidle Hnext].
  - (split; [| split; [| split; [| split]]]);
      [ assumption | intros k Hkn | intros k Hkn | intros k Hkn | intros k k' Hkn Hkn' ];
      try (destruct (Nat.eq_dec k' i) as [-> | Hk']);
      destruct (Nat.eq_dec k i) as [-> | Hk];
      rewrite ?update_same, ?update_other by assumption; cbn [account];
      try (rewrite <- Ep in *); cbn in *; auto; try discriminate.
  - (split; [| split; [| split; [| split]]]);
      [ assumption | intros k Hkn | intros k Hkn | intros k Hkn | intros k k' Hkn Hkn' ];
      try (destruct (Nat.eq_dec k' i) as [-> | Hk']);
      destruct (Nat.eq_dec k i) as [-> | Hk];
      rewrite ?update_same, ?update_other by assumption; cbn [account];
      try (rewrite <- Ep in *); cbn in *; auto; try discriminate.
  - split; [| split; [| split; [| split]]].
    + (* a flag at 0 has an owner at 0 *)
      step_cases p Hnext; finish.
      all: try (rewrite ToInt32_small in * by lia); try lia.
    + (* a holder is in the owner cell and its holds are the counter *)
      intros k Hkn. destruct (Nat.eq_dec k i) as [-> | Hk];
        [ rewrite update_same
        | rewrite update_other by assumption;
          pose proof (Hid k Hkn); pose proof (K2 k Hkn); pose proof (Hothers k Hkn Hk) ];
        step_cases p Hnext; finish.
      all: try (rewrite ToInt32_small in * by lia); try lia.
      all: finish.
    + (* the owner cell names a thread without holds at three points only *)
      intros k Hkn. destruct (Nat.eq_dec k i) as [-> | Hk];
        [ rewrite !update_same
        | rewrite !update_other by assumption;
          pose proof (Hid k Hkn); pose proof (K2 k Hkn); pose proof (K3 k Hkn);
          pose proof (Hothers k Hkn Hk) ];
        step_cases p Hnext; finish.
    + (* what the points say *)
      intros k Hkn. destruct (Nat.eq_dec k i) as [-> | Hk].
      * rewrite !update_same. step_cases p Hnext; finish.
        all: try (rewrite ToInt32_small in * by lia); try lia.
      * rewrite !update_other by assumption.
        apply (point_preserved _ _ _ s); [apply K4; assumption |].
        intros Hseq. destruct (Hseq_k k Hkn Hk Hseq) as (Hi & Hh & Hf & Ho).
        step_cases p Hnext; finish.
    + (* at most one thread is inside a sequence *)
      intros k k' Hkn Hkn'.
      destruct (Nat.eq_dec k i) as [-> | Hk], (Nat.eq_dec k' i) as [-> | Hk'];
        rewrite ?update_same, ?update_other by assumption; try (intros; reflexivity).
      * intros Hp' Hseq. exfalso.
        destruct (Hseq_k k' Hkn' Hk' Hseq) as (Hi & Hh & Hf & Ho).
        pose proof (K2 k' Hkn'). pose proof (Hid k' Hkn'). pose proof (Hothers k' Hkn' Hk').
        step_cases p Hnext; finish.
      * intros Hseq Hp'. exfalso.
        destruct (Hseq_k k Hkn Hk Hseq) as (Hi & Hh & Hf & Ho).
        pose proof (K2 k Hkn). pose proof (Hid k Hkn). pose proof (Hothers k Hkn Hk).
        step_cases p Hnext; finish.
      * now apply K7.
Qed.


Lemma OwnerFirst_ownership_initial (threadId : nat -> Z) (n : nat) :
  thread_identifiers n threadId -> ownership threadId n initial.
Proof.
  intros Hids. destruct (OwnerFirst_identifiers n threadId Hids) as [_ Hid].
  unfold ownership, initial. cbn [cells pcs held flag owner recursionCount point].
  repeat split; try lia; try discriminate.
  intros i Hi _ E. specialize (Hid i Hi). lia.
Qed.

Lemma OwnerFirst_reaches_ownership (threadId : nat -> Z) (n : nat) (c : Config) :
  thread_identifiers n threadId -> reaches threadId n c -> ownership threadId n c.
Proof.
  intros Hids. induction 1 as [| c c' i l _ IH Hin Hstep Hshallow].
  - now apply OwnerFirst_ownership_initial.
  - exact (OwnerFirst_ownership_step threadId n c c' i l Hids IH Hin Hstep Hshallow).
Qed.

Lemma OwnerFirst_perform_step (threadId : nat -> Z) (c : Config) (i : nat)
      (choice : Choice) :
  exists l : Label, step threadId c i l (perform threadId c (i, choice)).
Proof.
  unfold perform. destruct (pcs c i) eqn:Ep;
    try (destruct (next (OwnerFirst.selfId (threadId i)) (pcs c i) (cells c))
           as [[p' s'] l] eqn:Hnext;
         rewrite Ep in Hnext; rewrite Hnext;
         exists l; apply step_thread; rewrite Ep;
         apply call_next; [discriminate | exact Hnext]).
  exists Tau. apply step_thread. rewrite Ep. destruct choice; constructor.
Qed.

Lemma OwnerFirst_run_reaches (threadId : nat -> Z) (n : nat) (moves : list (nat * Choice))
      (c c' : Config) :
  reaches threadId n c -> run threadId n moves c = Some c' -> reaches threadId n c'.
Proof.
  revert c. induction moves as [| [i choice] moves IH]; intros c Hc Hrun.
  - cbn in Hrun. now injection Hrun as <-.
  - cbn [run fst] in Hrun.
    destruct (Nat.ltb_spec i n) as [Hi | _]; [| discriminate].
    destruct (Z.leb_spec (held (perform threadId c (i, choice)) i) 2147483647)
      as [Hshallow | _]; [| discriminate].
    cbn [andb] in Hrun. apply (IH (perform threadId c (i, choice))); [| exact Hrun].
    destruct (OwnerFirst_perform_step threadId c i choice) as [l Hstep].
    exact (reaches_step threadId n c _ i l Hc Hi Hstep Hshallow).
Qed.

End OwnerFirstInterleavings.

(** The intermediate class excludes, the main thread included: in every
    interleaving of [lock()], [lockAsync()] and [unlock()] by threads with
    distinct [threadId]s from 0 to [2^31 - 2], none of which takes more
    than [2^31 - 1] holds, at most one thread holds the mutex, the flag is
    1, the owner cell is its identifier [threadId + 1] and the counter is
    its number of holds; and at most one thread is between the
    compare-and-swap that takes or gives up the slot and the last store
    that goes with it. *)
Theorem OwnerFirst_mutual_exclusion (threadId : nat -> Z) (n : nat)
        (c : OwnerFirstThreads.Config) :
  OwnerFirstThreads.thread_identifiers n threadId ->
  OwnerFirstThreads.reaches threadId n c ->
  (forall i j : nat,
     0 < OwnerFirstThreads.held c i -> 0 < OwnerFirstThreads.held c j -> i = j)
  /\ (forall i : nat,
        0 < OwnerFirstThreads.held c i ->
        flag (OwnerFirstThreads.cells c) = 1
        /\ owner (OwnerFirstThreads.cells c) = threadId i + 1
        /\ recursionCount (OwnerFirstThreads.cells c) = OwnerFirstThreads.held c i)
  /\ forall i j : nat,
       (i < n)%nat -> (j < n)%nat ->
       OwnerFirstThreads.in_sequence (OwnerFirstThreads.pcs c i) = true ->
       OwnerFirstThreads.in_sequence (OwnerFirstThreads.pcs c j) = true -> i = j.
Proof.
  intros Hids Hreach.
  destruct (OwnerFirst_reaches_ownership threadId n c Hids Hreach)
    as (_ & K0 & _ & K2 & _ & _ & K7).
  destruct (OwnerFirst_identifiers n threadId Hids) as [Hinj _].
  assert (Hactive : forall i : nat, 0 < OwnerFirstThreads.held c i -> (i < n)%nat).
  { intros i Hi. destruct (Nat.lt_ge_cases i n) as [Hlt | Hge]; [assumption |].
    rewrite (K0 i Hge) in Hi. lia. }
  split; [| split; [| exact K7]].
  - intros i j Hi Hj. apply Hinj; [now apply Hactive | now apply Hactive |].
    destruct (K2 i (Hactive i Hi) Hi) as (_ & <- & _).
    destruct (K2 j (Hactive j Hj) Hj) as (_ & <- & _). reflexivity.
  - intros i Hi. destruct (K2 i (Hactive i Hi) Hi) as (Hf & Ho & Hc).
    split; [assumption | split; [| assumption]]. rewrite Ho.
    destruct Hids as [_ Hid].
    exact (proj1 (OwnerFirst_selfId_value _ (Hid i (Hactive i Hi)))).
Qed.

Lemma OwnerFirst_mutual_exclusion_witness :
  OwnerFirstThreads.thread_identifiers 2 OwnerFirstThreads.main_and_workers
  /\ OwnerFirstThreads.reaches OwnerFirstThreads.main_and_workers 2
       (OwnerFirstThreads.schedule OwnerFirstThreads.main_and_workers
          OwnerFirstThreads.main_thread_race)
  /\ OwnerFirstThreads.held
       (OwnerFirstThreads.schedule OwnerFirstThreads.main_and_workers
          OwnerFirstThreads.main_thread_race) 1 = 1
  /\ forall j : nat,
       0 < OwnerFirstThreads.held
             (OwnerFirstThreads.schedule OwnerFirstThreads.main_and_workers
                OwnerFirstThreads.main_thread_race) j ->
       1%nat = j.
Proof.
  assert (Hids : OwnerFirstThreads.thread_identifiers 2 OwnerFirstThreads.main_and_workers).
  { unfold OwnerFirstThreads.main_and_workers. split; intros; lia. }
  assert (Hreach : OwnerFirstThreads.reaches OwnerFirstThreads.main_and_workers 2
                     (OwnerFirstThreads.schedule OwnerFirstThreads.main_and_workers
                        OwnerFirstThreads.main_thread_race)).
  { apply (OwnerFirst_run_reaches _ 2 OwnerFirstThreads.main_thread_race
             OwnerFirstThreads.initial).
    - constructor.
    - reflexivity. }
  split; [exact Hids | split; [exact Hreach | split; [reflexivity |]]].
  intros j Hj.
  destruct (OwnerFirst_mutual_exclusion OwnerFirstThreads.main_and_workers 2 _ Hids Hreach)
    as [Hone _].
  apply (Hone 1%nat j); [reflexivity | exact Hj].
Defined.

(** ** The invariant of a slot *)

(** C1, as the code has it.  Between calls, that is in every state reached
    from a block as allocated by calls of [lock], [lockAsync] and [unlock],
    by any threads through any handles and however the calls end, the slot
    of a handle has [recursionCount > 0] exactly when [flag = 1].  When the
    calls
    interleave operation by operation, [recursionCount > 0] implies
    [flag = 1] at every point, and the equivalence holds at exactly the
    points at which no thread is between the compare-and-swap that takes or
    gives up the slot and the last store that goes with it: inside such a
    sequence the flag is 1 and the counter is 0.  Among worker threads
    (distinct [threadId]s from 1 to [2^31 - 1]) at most one thread holds the
    slot at any point, flag and owner cell show it as the holder, and no two
    threads are at the same time past the test
    [lock === 1 && owner === me]. *)
Theorem reachable_slot_invariant (host : Host) (count : option number) (block : Handle)
        (w : World) (idx : option number) (this : WorkerMutex.t) :
  WorkerMutex.createSharedBuffer host count = Return block ->
  reachable block w ->
  WorkerMutex.constructor (mkOptions block idx) = Return this ->
  (exists s : Slot,
     slot (i32 w) this = Some s
     /\ (recursionCount s > 0 <-> flag s = 1))
  /\ (forall (ident : nat -> Z) (c : Config),
        reaches ident c ->
        (recursionCount (cells c) > 0 -> flag (cells c) = 1)
        /\ ((recursionCount (cells c) > 0 <-> flag (cells c) = 1)
            <-> forall i : nat, in_sequence (pcs c i) = false)
        /\ (forall i : nat,
              in_sequence (pcs c i) = true ->
              flag (cells c) = 1 /\ recursionCount (cells c) = 0)
        /\ ((forall i : nat, pcs c i = Idle) ->
            (recursionCount (cells c) > 0 <-> flag (cells c) = 1)))
  /\ forall (n : nat) (ident : nat -> Z) (c : Config),
       worker_identifiers n ident ->
       reaches_among ident n c ->
       (forall i j : nat, 0 < held c i -> 0 < held c j -> i = j)
       /\ (forall i : nat,
             0 < held c i -> flag (cells c) = 1 /\ owner (cells c) = ident i)
       /\ (forall i j : nat,
             (i < n)%nat -> (j < n)%nat ->
             past_owner_test (pcs c i) = true -> past_owner_test (pcs c j) = true ->
             i = j).
Proof.
  intros Hblock Hreach Hthis. split; [| split].
  - destruct (reachable_slot host count idx block w this Hblock Hreach Hthis)
      as (s & Hs & Hinv).
    exists s. split; [assumption |].
    unfold slot_invariant in Hinv.
    destruct Hinv as [(Hf & _ & Hc) | (Hf & _ & Hc)]; rewrite Hf; lia.
  - intros ident c Hc.
    destruct (reaches_invariant ident c Hc) as (Hpoints & _ & _).
    destruct (interleaved_slot_invariant ident c Hc) as (_ & Himp & Hnone & Hidle).
    assert (Hbusy : forall i : nat,
               in_sequence (pcs c i) = true ->
               flag (cells c) = 1 /\ recursionCount (cells c) = 0).
    { intros i Hi. exact (in_sequence_busy _ _ Hi (Hpoints i)). }
    split; [exact Himp | split; [| split; [exact Hbusy | exact Hidle]]].
    split; [| exact Hnone].
    intros Hiff i. destruct (in_sequence (pcs c i)) eqn:Hi; [| reflexivity].
    destruct (Hbusy i Hi) as (Hf & Hz). apply Hiff in Hf. lia.
  - intros n ident c Hid Hc.
    destruct (reaches_ownership ident n c Hid Hc) as (_ & J0 & J3 & _ & J5 & _).
    assert (Hactive : forall i : nat, 0 < held c i -> (i < n)%nat).
    { intros i Hi. destruct (Nat.lt_ge_cases i n) as [Hlt | Hge]; [assumption |].
      rewrite (J0 i Hge) in Hi. lia. }
    assert (Hone : forall i j : nat, 0 < held c i -> 0 < held c j -> i = j).
    { intros i j Hi Hj. destruct Hid as [Hinj _].
      apply Hinj; [now apply Hactive | now apply Hactive |].
      destruct (J3 i (Hactive i Hi) Hi) as (_ & <- & _).
      destruct (J3 j (Hactive j Hj) Hj) as (_ & <- & _). reflexivity. }
    split; [exact Hone | split].
    + intros i Hi. destruct (J3 i (Hactive i Hi) Hi) as (Hf & Ho & _). now split.
    + intros i j Hi Hj Pi Pj. apply Hone; [now apply (J5 i) | now apply (J5 j)].
Qed.

Lemma reachable_slot_invariant_witness :
  WorkerMutex.createSharedBuffer example_host (Some (of_Z 2)) = Return example_block
  /\ reachable example_block example_reached
  /\ WorkerMutex.constructor (mkOptions example_block (Some (of_Z 1))) =
     Return example_mutex
  /\ (exists s : Slot,
        slot (i32 example_reached) example_mutex = Some s
        /\ (recursionCount s > 0 <-> flag s = 1))
  /\ pcs (schedule workers workers_contend) 1 = LockLoadFlag
  /\ held (schedule workers workers_contend) 0 = 1
  /\ (recursionCount (cells (schedule workers workers_contend)) > 0
      <-> flag (cells (schedule workers workers_contend)) = 1)
  /\ forall j : nat, 0 < held (schedule workers workers_contend) j -> j = 0%nat.
Proof.
  assert (Hreach : reachable example_block example_reached).
  { unfold example_reached.
    apply (reachable_call example_block _ CallUnlock 8 (Some (of_Z 1)) example_mutex 1);
      [| reflexivity].
    apply (reachable_call example_block _ (CallLockAsync true) 7 (Some (of_Z 1))
             example_mutex 1); [| reflexivity].
    apply (reachable_call example_block _ CallLock 7 (Some (of_Z 1)) example_mutex 1);
      [| reflexivity].
    apply (reachable_fresh example_block (zeroed 24) false). reflexivity. }
  split; [reflexivity | split; [exact Hreach | split; [reflexivity |]]].
  destruct (reachable_slot_invariant example_host (Some (of_Z 2)) example_block
              example_reached (Some (of_Z 1)) example_mutex)
    as ((s & Hs & Hiff) & Hpoints & Hworkers).
  - reflexivity.
  - exact Hreach.
  - reflexivity.
  - split; [exists s; split; assumption |].
    split; [reflexivity | split; [reflexivity |]].
    assert (Hamong : reaches_among workers 2 (schedule workers workers_contend)).
    { apply schedule_among. unfold workers_contend. repeat constructor. }
    destruct (Hpoints workers (schedule workers workers_contend)
                (among_reaches workers 2 _ Hamong)) as (_ & Hexact & _ & _).
    split.
    + apply Hexact. intros i. destruct i as [| [| i]]; reflexivity.
    + intros j Hj.
      destruct (Hworkers 2%nat workers (schedule workers workers_contend)
                  (workers_identifiers 2 ltac:(lia)) Hamong) as (Hone & _).
      apply Hone; [exact Hj | reflexivity].
Defined.

(** The claim as the specification has it fails inside a call and with the
    main thread.  A single worker that has won the compare-and-swap on the
    flag and has not yet stored the counter leaves [flag = 1] with
    [recursionCount = 0] for every thread to read.  The main thread, whose
    identifier 0 is the value of an owner cell that is not yet written,
    comes to hold the slot together with worker 1 ([main_thread_race]). *)
Lemma reachable_slot_invariant_counterexample :
  reaches_among workers 1 (schedule workers worker_past_cas)
  /\ cells (schedule workers worker_past_cas) = mkSlot 1 0 0
  /\ ~ (forall c : Config,
          reaches_among workers 1 c ->
          (recursionCount (cells c) > 0 <-> flag (cells c) = 1))
  /\ reaches main_and_workers (schedule main_and_workers main_thread_race)
  /\ held (schedule main_and_workers main_thread_race) 0 = 1
  /\ held (schedule main_and_workers main_thread_race) 1 = 1
  /\ ~ (forall c : Config,
          reaches main_and_workers c ->
          forall i j : nat, 0 < held c i -> 0 < held c j -> i = j).
Proof.
  assert (Hamong : reaches_among workers 1 (schedule workers worker_past_cas)).
  { apply schedule_among. unfold worker_past_cas. repeat constructor. }
  assert (Hcells : cells (schedule workers worker_past_cas) = mkSlot 1 0 0)
    by reflexivity.
  assert (Hrace : reaches main_and_workers (schedule main_and_workers main_thread_race))
    by apply schedule_reaches.
  assert (H0 : held (schedule main_and_workers main_thread_race) 0 = 1) by reflexivity.
  assert (H1 : held (schedule main_and_workers main_thread_race) 1 = 1) by reflexivity.
  split; [exact Hamong | split; [exact Hcells | split]].
  - intros Hclaim. destruct (Hclaim _ Hamong) as [_ Hflag].
    rewrite Hcells in Hflag. cbn [flag recursionCount] in Hflag.
    specialize (Hflag eq_refl). lia.
  - split; [exact Hrace | split; [exact H0 | split; [exact H1 |]]].
    intros Hclaim. pose proof (Hclaim _ Hrace 0%nat 1%nat) as Hsame.
    rewrite H0, H1 in Hsame. specialize (Hsame ltac:(lia) ltac:(lia)).
    discriminate Hsame.
Qed.
